(** * Trip planning optimisation engine: selection, routing, allocation, budget

    A shallow embedding of the service layer of the tour planner
    ([backend/services/country_selector.py], [optimizer.py], [budget.py],
    constants from [backend/config.py]) and of the planning steps of the
    endpoint that drives it ([backend/routes/itinerary.py]), together with
    the properties of the engine that the specification states about it
    and further properties read off the code.

    Conventions of the embedding.
    - Python [int] is [Z]; Python [float] money amounts are exact rationals
      [Q] (so [a / b] is [Qdiv] and [int(x)] truncates towards zero), and
      the properties stated of them are those that no rounding changes.
      The running total of the greedy selection is the exception: it is
      the rounded sum, a parameter.  The one division of two [int]s, in
      the allocator, is the correctly rounded binary64 quotient, with its
      [OverflowError].
    - Great-circle distances live in a type the optimizer is parametric
      in, computed by a function that may raise (the float formula raises
      [ValueError] where rounding takes the argument of a square root
      below zero); the haversine formula itself is given over the reals.
    - A Python [dict] keyed by strings is an insertion-ordered association
      list ([PyDict]): iteration order is observable in the selector.  The
      distance cache, whose order is never observed, is a [gmap].
    - A [set] of interest tags is a [gset string].
    - [KeyError] / [IndexError] / [ValueError] / [OverflowError] are [None]
      in [option].
    - The optimizer threads its distance cache explicitly (a state and
      error monad). *)

From Stdlib Require Import ZArith QArith Qround Reals Qreals Lia Lra String List Permutation Sorted.
From stdpp Require Import base option list strings gmap sorting.

Open Scope Z_scope.

(** ** Constants of [backend/config.py] *)

Definition MIN_DAYS_PER_COUNTRY : Z := 2.
Definition BUDGET_SAFETY_MARGIN : Q := 9 # 10.
Definition TSP_2OPT_MAX_ITERATIONS : nat := 100.

(** ** Python built-ins used by the services *)

Module Py.

(** [int(x)] on a float: truncation towards zero. *)
Definition int (x : Q) : Z := Z.quot (Qnum x) (Z.pos (Qden x)).

(** [a / b] on two [int]s: the quotient rounded to the nearest binary64
    float, ties to even, as the rational that float denotes.  [None] is
    [ZeroDivisionError] or, where the rounded quotient is beyond the
    largest float, [OverflowError]. *)

(** [n / d] rounded to the nearest integer, ties to even ([0 <= n], [0 < d]). *)
Definition round_half_even (n d : Z) : Z :=
  let q := n / d in
  let r := n mod d in
  if 2 * r <? d then q
  else if d <? 2 * r then q + 1
  else if Z.even q then q else q + 1.

(** [x / (y * 2 ^ e)] as a fraction of integers, for any sign of [e]. *)
Definition scaled_num (x e : Z) : Z := x * 2 ^ Z.max 0 (- e).
Definition scaled_den (y e : Z) : Z := y * 2 ^ Z.max 0 e.

(** The exponent of the last binary digit kept of [x / y] ([0 < x],
    [0 < y]): 52 below the exponent of its leading digit, and never below
    that of the smallest subnormal. *)
Definition float_exponent (x y : Z) : Z :=
  let l := Z.log2 x - Z.log2 y in
  let leading := if scaled_den y l <=? scaled_num x l then l else l - 1 in
  Z.max (leading - 52) (-1074).

Definition truediv (a b : Z) : option Q :=
  if b =? 0 then None
  else if a =? 0 then Some 0%Q
  else
    let x := Z.abs a in
    let y := Z.abs b in
    let e := float_exponent x y in
    let m := round_half_even (scaled_num x e) (scaled_den y e) in
    if (0 <=? e) && (2 ^ 1024 <=? m * 2 ^ e) then None
    else Some (Qmake (Z.sgn a * Z.sgn b * (m * 2 ^ Z.max 0 e))
                     (Z.to_pos (2 ^ Z.max 0 (- e)))).

(** [l[i]] with Python's negative indices; [None] is [IndexError]. *)
Definition index {A} (l : list A) (i : Z) : option A :=
  if 0 <=? i then l !! Z.to_nat i
  else if - Z.of_nat (length l) <=? i then l !! Z.to_nat (Z.of_nat (length l) + i)
  else None.

(** [range(n)] *)
Definition range (n : Z) : list Z := seqZ 0 n.

(** [l[1:-1]] *)
Definition interior {A} (l : list A) : list A :=
  take (length l - 2) (drop 1 l).

(** [l.remove(x)]: delete the first occurrence; [None] is [ValueError]. *)
Fixpoint remove (x : string) (l : list string) : option (list string) :=
  match l with
  | [] => None
  | y :: l' => if decide (x = y) then Some l' else cons y <$> remove x l'
  end.

(** [sum] of integers. *)
Definition sumZ (l : list Z) : Z := foldr Z.add 0 l.

(** [max(xs)] / [min(xs, key=...)] keep the first extremal element: the
    running best is replaced only on a strict comparison. *)
Definition max_Q (l : list Q) : option Q :=
  match l with
  | [] => None
  | x :: l' => Some (fold_left (fun best y => if Qlt_le_dec best y then y else best) l' x)
  end.

(** A cost-per-interest ratio: a float or [float("inf")]. *)
Inductive ratio := Finite (q : Q) | Infinite.

Definition ratio_ltb (a b : ratio) : bool :=
  match a, b with
  | Finite x, Finite y => if Qlt_le_dec x y then true else false
  | Finite _, Infinite => true
  | Infinite, _ => false
  end.

Definition ratio_le (a b : ratio) : Prop :=
  match a, b with
  | Finite x, Finite y => (x <= y)%Q
  | _, Infinite => True
  | Infinite, Finite _ => False
  end.

(** [sorted(l, key=...)]: a stable sort that only uses [<] on keys. *)
Section Sorted.
Context {A : Type} (ltb : A -> A -> bool).

Fixpoint insert (x : A) (l : list A) : list A :=
  match l with
  | [] => [x]
  | y :: l' => if ltb y x then y :: insert x l' else x :: y :: l'
  end.

Definition sorted (l : list A) : list A := foldr insert [] l.

(** [sorted(l, key=..., reverse=True)]: the list is reversed, sorted
    and reversed again, so equal keys keep their original order. *)
Definition sorted_reverse (l : list A) : list A := rev (sorted (rev l)).
End Sorted.

(** [(a1, b1) < (a2, b2)] on pairs of integers. *)
Definition pair_ltb (k1 k2 : Z * Z) : bool :=
  (fst k1 <? fst k2) || ((fst k1 =? fst k2) && (snd k1 <? snd k2)).

(** A [for] loop whose body may raise. *)
Fixpoint for_each {A S} (body : S -> A -> option S) (l : list A) (s : S) : option S :=
  match l with
  | [] => Some s
  | x :: l' => s' ← body s x; for_each body l' s'
  end.

End Py.

(** ** Python dictionaries with string keys (insertion ordered) *)

Module PyDict.

Definition dict (V : Type) : Type := list (string * V).

Fixpoint get {V} (d : dict V) (k : string) : option V :=
  match d with
  | [] => None
  | (k', v) :: d' => if decide (k = k') then Some v else get d' k
  end.

(** [d[k] = v]: overwrite in place, or append a new key. *)
Fixpoint set {V} (k : string) (v : V) (d : dict V) : dict V :=
  match d with
  | [] => [(k, v)]
  | (k', v') :: d' => if decide (k = k') then (k, v) :: d' else (k', v') :: set k v d'
  end.

Definition keys {V} (d : dict V) : list string := map fst d.
Definition values {V} (d : dict V) : list V := map snd d.

(** [d.get(k, default)] *)
Definition get_default {V} (d : dict V) (k : string) (default : V) : V :=
  match get d k with Some v => v | None => default end.

End PyDict.

Import PyDict.

(** ** The destination catalog *)

Record CountryInfo := {
  interests : list string;
  avg_travel_cost : Q;
  avg_accommodation_cost : Q;
  coordinates : Q * Q
}.

(** [len(set(tags) & interests)] *)
Definition interest_overlap (tags : list string) (selected : gset string) : Z :=
  Z.of_nat (size ((list_to_set tags : gset string) ∩ selected)).

(** ** [country_selector.py] *)

Module CountrySelector.

Record candidate := {
  country : string;
  score : Z;
  min_cost : Q
}.

Definition granularity : Q := 10.

Definition cost_units (c : candidate) : Z := Py.int (min_cost c / granularity).

Section Selector.
Variable countries_data : dict CountryInfo.

Definition minimum_cost (c : string) : option Q :=
  data ← get countries_data c;
  Some (avg_travel_cost data
        + avg_accommodation_cost data * inject_Z MIN_DAYS_PER_COUNTRY)%Q.

Definition interest_score (c : string) (selected : gset string) : option Z :=
  data ← get countries_data c;
  Some (interest_overlap (interests data) selected).

(** The candidate-building loop of [select_countries]. *)
Fixpoint build_candidates (items : dict CountryInfo) (selected : gset string)
    (home_country : string) : option (list candidate) :=
  match items with
  | [] => Some []
  | (c, _) :: items' =>
      if decide (c = home_country) then
        build_candidates items' selected home_country
      else
        s ← interest_score c selected;
        if 0 <? s then
          mc ← minimum_cost c;
          rest ← build_candidates items' selected home_country;
          Some ({| country := c; score := s; min_cost := mc |} :: rest)
        else build_candidates items' selected home_country
  end.

(** *** [_knapsack_select] *)

(** One cell [dp[i][w]], [chosen[i][w]] from the previous row. *)
Definition dp_cell (prev : list (Z * Z)) (c : candidate) (max_items : Z)
    (w : Z) : option ((Z * Z) * bool) :=
  keep ← Py.index prev w;
  if cost_units c <=? w then
    '(prev_score, prev_count) ← Py.index prev (w - cost_units c);
    if prev_count <? max_items then
      let new_score := prev_score + score c in
      let new_count := prev_count + 1 in
      if fst keep <? new_score then Some ((new_score, new_count), true)
      else Some (keep, false)
    else Some (keep, false)
  else Some (keep, false).

Definition dp_row (prev : list (Z * Z)) (c : candidate) (max_items W : Z)
    : option (list (Z * Z) * list bool) :=
  cells ← mapM (dp_cell prev c max_items) (Py.range (W + 1));
  Some (map fst cells, map snd cells).

(** The outer loop [for i in range(1, n + 1)]: row [i] is appended to
    both tables. *)
Definition dp_step (max_items W : Z)
    (tables : option (list (list (Z * Z)) * list (list bool)))
    (c : candidate) : option (list (list (Z * Z)) * list (list bool)) :=
  '(dp, chosen) ← tables;
  prev ← last dp;
  '(row, ch) ← dp_row prev c max_items W;
  Some (dp ++ [row], chosen ++ [ch]).

Definition dp_tables (candidates : list candidate) (max_items W : Z)
    : option (list (list (Z * Z)) * list (list bool)) :=
  let n1 := Z.to_nat (W + 1) in
  fold_left (dp_step max_items W) candidates
    (Some ([replicate n1 (0, 0)], [replicate n1 false])).

(** The backtracking loop [for i in range(n, 0, -1)]. *)
Fixpoint backtrack (chosen : list (list bool)) (candidates : list candidate)
    (i : nat) (w : Z) : option (list string) :=
  match i with
  | O => Some []
  | S i' =>
      row ← chosen !! i;
      b ← Py.index row w;
      if b : bool then
        c ← candidates !! i';
        rest ← backtrack chosen candidates i' (w - cost_units c);
        Some (country c :: rest)
      else backtrack chosen candidates i' w
  end.

Definition _knapsack_select (candidates : list candidate) (budget : Q)
    (max_items : Z) : option (list string) :=
  let W := Py.int (budget / granularity) in
  let n := length candidates in
  if W <=? 0 then Some []
  else
    '(_, chosen) ← dp_tables candidates max_items W;
    backtrack chosen candidates n W.

(** *** [_greedy_select] *)

Definition greedy_key (c : candidate) : Z * Py.ratio :=
  (- score c,
   if 0 <? score c then Py.Finite (min_cost c / inject_Z (score c)) else Py.Infinite).

(** Python's tuple comparison [k1 < k2]. *)
Definition greedy_key_ltb (k1 k2 : Z * Py.ratio) : bool :=
  (fst k1 <? fst k2) || ((fst k1 =? fst k2) && Py.ratio_ltb (snd k1) (snd k2)).

Definition greedy_ltb (c1 c2 : candidate) : bool :=
  greedy_key_ltb (greedy_key c1) (greedy_key c2).

(** The running total of the loop is a sum of floats that is compared
    with the budget, and the float sum can round onto the budget where
    the exact sum is above it.  [float_add] is that rounded sum; nothing
    is assumed of it. *)
Variable float_add : Q -> Q -> Q.

Fixpoint greedy_loop (sorted_candidates : list candidate) (budget : Q)
    (max_items : Z) (selected : list string) (total_cost : Q) : list string :=
  match sorted_candidates with
  | [] => selected
  | c :: rest =>
      if max_items <=? Z.of_nat (length selected) then selected
      else if Qle_bool (float_add total_cost (min_cost c)) budget then
        greedy_loop rest budget max_items (selected ++ [country c])
          (float_add total_cost (min_cost c))
      else greedy_loop rest budget max_items selected total_cost
  end.

Definition _greedy_select (candidates : list candidate) (budget : Q)
    (max_items : Z) : list string :=
  greedy_loop (Py.sorted greedy_ltb candidates) budget max_items [] 0%Q.

(** *** [select_countries] *)

Definition select_countries (selected : gset string) (num_countries : Z)
    (home_country : string) (budget : Q) : option (list string) :=
  candidates ← build_candidates countries_data selected home_country;
  match candidates with
  | [] => Some []
  | _ =>
      travel_costs ← mapM (fun c => data ← get countries_data c;
                                     Some (avg_travel_cost data))
                          (keys countries_data);
      max_return_cost ← Py.max_Q travel_costs;
      let working_budget := (budget * BUDGET_SAFETY_MARGIN - max_return_cost)%Q in
      if Qle_bool working_budget 0 then Some []
      else if (length candidates <=? 50)%nat then
        _knapsack_select candidates working_budget num_countries
      else Some (_greedy_select candidates working_budget num_countries)
  end.

End Selector.

End CountrySelector.

(** ** [optimizer.py] *)

Module TourOptimizer.

(** The optimizer object: the catalog is fixed, the distance cache is the
    only mutable attribute.  A computation reads and updates the cache and
    may raise. *)
Section Monad.
Context {D : Type}.

Definition M (A : Type) : Type :=
  gmap (string * string) D -> option (A * gmap (string * string) D).

Definition ret {A} (a : A) : M A := fun cache => Some (a, cache).

Definition bind {A B} (m : M A) (k : A -> M B) : M B :=
  fun cache =>
    match m cache with
    | Some (a, cache') => k a cache'
    | None => None
    end.

Definition raise {A} : M A := fun _ => None.

Definition lift {A} (o : option A) : M A :=
  fun cache => match o with Some a => Some (a, cache) | None => None end.
End Monad.

Arguments M : clear implicits.

Notation "'let*' x ':=' m 'in' k" := (bind m (fun x => k))
  (at level 10, x name, m at level 100, k at level 200, only parsing).

Fixpoint foldM {D A S} (body : S -> A -> M D S) (l : list A) (s : S) : M D S :=
  match l with
  | [] => ret s
  | x :: l' => let* s' := body s x in foldM body l' s'
  end.

Section Optimizer.
Context {D : Type}.
Variable haversine_distance : Q * Q -> Q * Q -> option D.
Variable d_zero : D.
Variable d_add : D -> D -> D.
Variable d_ltb : D -> D -> bool.
Variable countries_data : dict CountryInfo.

(** *** Distance with caching *)

Definition get_distance (country_a country_b : string) : M D D :=
  fun cache =>
    match cache !! (country_a, country_b) with
    | Some d => Some (d, cache)
    | None =>
        match cache !! (country_b, country_a) with
        | Some d => Some (d, cache)
        | None =>
            a ← get countries_data country_a;
            b ← get countries_data country_b;
            dist ← haversine_distance (coordinates a) (coordinates b);
            Some (dist, <[(country_a, country_b) := dist]> cache)
        end
    end.

Fixpoint route_distance_loop (route : list string) (total : D) : M D D :=
  match route with
  | a :: rest =>
      match rest with
      | b :: _ => let* d := get_distance a b in route_distance_loop rest (d_add total d)
      | [] => ret total
      end
  | [] => ret total
  end.

Definition _route_total_distance (route : list string) : M D D :=
  route_distance_loop route d_zero.

(** *** Nearest neighbour *)

(** [min(to_visit, key=lambda x: self.get_distance(current, x))] *)
Fixpoint min_loop (current : string) (items : list string)
    (best : string) (best_key : D) : M D string :=
  match items with
  | [] => ret best
  | x :: items' =>
      let* k := get_distance current x in
      if d_ltb k best_key then min_loop current items' x k
      else min_loop current items' best best_key
  end.

Definition nearest_to (current : string) (to_visit : list string) : M D string :=
  match to_visit with
  | [] => raise
  | x :: items => let* k := get_distance current x in min_loop current items x k
  end.

(** [while to_visit: ...]; every iteration removes one element, so
    [length to_visit] iterations are enough ([nn_loop_fuel] below). *)
Fixpoint nn_loop (fuel : nat) (to_visit route : list string) (current : string)
    : M D (list string) :=
  match to_visit with
  | [] => ret route
  | _ :: _ =>
      match fuel with
      | O => raise
      | S fuel' =>
          let* nearest := nearest_to current to_visit in
          let* to_visit' := lift (Py.remove nearest to_visit) in
          nn_loop fuel' to_visit' (route ++ [nearest]) nearest
      end
  end.

Definition nearest_neighbor_tsp (countries : list string) (home : string)
    : M D (list string) :=
  let to_visit := filter (fun c => c ≠ home) countries in
  match to_visit with
  | [] => ret [home; home]
  | _ :: _ =>
      let* route := nn_loop (length to_visit) to_visit [home] home in
      ret (route ++ [home])
  end.

(** *** 2-opt *)

(** [best_route[:i] + best_route[i:j + 1][::-1] + best_route[j + 1:]] *)
Definition reverse_segment (route : list string) (i j : nat) : list string :=
  take i route ++ rev (take (j + 1 - i) (drop i route)) ++ drop (j + 1) route.

Definition two_opt_state : Type := list string * D * bool.

Definition try_reversal (i : nat) (st : two_opt_state) (j : nat) : M D two_opt_state :=
  let '(best_route, best_distance, improved) := st in
  let new_route := reverse_segment best_route i j in
  let* new_distance := _route_total_distance new_route in
  if d_ltb new_distance best_distance then ret (new_route, new_distance, true)
  else ret st.

(** [for j in range(i + 1, len(best_route) - 1)] *)
Definition inner_loop (st : two_opt_state) (i : nat) : M D two_opt_state :=
  let n := length (fst (fst st)) in
  foldM (try_reversal i) (seq (i + 1) (n - 1 - (i + 1))) st.

(** [for i in range(1, len(best_route) - 2)] *)
Definition sweep (st : two_opt_state) : M D two_opt_state :=
  let n := length (fst (fst st)) in
  foldM inner_loop (seq 1 (n - 2 - 1)) st.

(** [while improved and iterations < TSP_2OPT_MAX_ITERATIONS]; the
    argument counts the iterations still allowed. *)
Fixpoint two_opt_loop (iterations_left : nat) (st : two_opt_state) : M D (list string) :=
  let '(best_route, best_distance, improved) := st in
  match iterations_left with
  | O => ret best_route
  | S k =>
      if improved then
        let* st' := sweep (best_route, best_distance, false) in
        two_opt_loop k st'
      else ret best_route
  end.

Definition two_opt_improve (route : list string) : M D (list string) :=
  if (length route <=? 4)%nat then ret route
  else
    let* best_distance := _route_total_distance route in
    two_opt_loop TSP_2OPT_MAX_ITERATIONS (route, best_distance, true).

Definition solve_tsp (countries : list string) (home : string) : M D (list string) :=
  let* initial_route := nearest_neighbor_tsp countries home in
  two_opt_improve initial_route.

(** The public method [get_route_total_distance]. *)
Definition get_route_total_distance (route : list string) : M D D :=
  _route_total_distance route.

End Optimizer.

(** *** Day distribution *)

Section Allocator.
Variable countries_data : dict CountryInfo.

Definition calculate_interest_score (c : string) (selected : gset string) : option Z :=
  data ← get countries_data c;
  Some (interest_overlap (interests data) selected).

(** [{k: f(k) for k in ks}] *)
Definition comprehension {V} (f : string -> option V) (ks : list string)
    : option (dict V) :=
  Py.for_each (fun d k => v ← f k; Some (set k v d)) ks [].

(** [for country in countries: days[country] = MIN; remaining -= MIN] *)
Definition assign_minimum (countries : list string) (total_days : Z)
    : option (dict Z * Z) :=
  Py.for_each
    (fun '(days, remaining_days) c =>
       Some (set c MIN_DAYS_PER_COUNTRY days, remaining_days - MIN_DAYS_PER_COUNTRY))
    countries ([], total_days).

(** The proportional pass. *)
Definition add_proportional (interest_scores : dict Z) (total_score remaining_days : Z)
    (countries : list string) (days : dict Z) : option (dict Z) :=
  Py.for_each
    (fun days c =>
       if (0 <? total_score) && (0 <? remaining_days) then
         s ← get interest_scores c;
         share ← Py.truediv (remaining_days * s) total_score;
         let additional := Py.int share in
         d ← get days c;
         Some (set c (d + additional) days)
       else Some days)
    countries days.

(** The leftover pass, with its [break]. *)
Fixpoint add_leftover (sorted_countries : list string) (days : dict Z) (leftover : Z)
    : option (dict Z) :=
  match sorted_countries with
  | [] => Some days
  | c :: rest =>
      if 0 <? leftover then
        d ← get days c;
        add_leftover rest (set c (d + 1) days) (leftover - 1)
      else Some days
  end.

Definition distribute_days (total_days : Z) (route : list string)
    (selected : gset string) : option (dict Z) :=
  let countries := Py.interior route in
  match countries with
  | [] => Some []
  | _ :: _ =>
      interest_scores ←
        comprehension (fun c => calculate_interest_score c selected) countries;
      let total_score := Py.sumZ (values interest_scores) in
      if total_score =? 0 then
        let base_days := total_days `div` Z.of_nat (length countries) in
        comprehension (fun _ => Some (Z.max base_days MIN_DAYS_PER_COUNTRY)) countries
      else
        '(days, remaining_days) ← assign_minimum countries total_days;
        days ← add_proportional interest_scores total_score remaining_days
                 countries days;
        let distributed := Py.sumZ (values days) in
        let leftover := total_days - distributed in
        keyed ← mapM (fun x => s ← get interest_scores x;
                                d ← get days x;
                                Some (x, (s, - d))) countries;
        let sorted_countries :=
          map fst (Py.sorted_reverse
                     (fun a b => Py.pair_ltb (snd a) (snd b)) keyed) in
        add_leftover sorted_countries days leftover
  end.

End Allocator.

End TourOptimizer.

(** ** [budget.py] *)

Module BudgetService.
Import TourOptimizer.

Record country_cost := {
  travel_cost : Q;
  accommodation_cost : Q;
  total : Q
}.

(** The two warning messages; the interpolated values are kept, their
    rendering as text is not. *)
Inductive warning :=
| Insufficient (budget : Q) (minimum_needed : Q)
| Removed (worst : string) (removed_cost : Q).

(** What one pass through the body of the [while] loop does. *)
Inductive iteration :=
| Return (final : list string) (warnings : list warning) (days : dict Z)
| Continue (working : list string) (warnings : list warning).

Section Budget.
Context {D : Type}.
Variable haversine_distance : Q * Q -> Q * Q -> option D.
Variable d_zero : D.
Variable d_add : D -> D -> D.
Variable d_ltb : D -> D -> bool.
Variable countries_data : dict CountryInfo.

Definition calculate_country_cost (c : string) (days : Z) : option country_cost :=
  data ← get countries_data c;
  let travel := avg_travel_cost data in
  let accommodation := (avg_accommodation_cost data * inject_Z days)%Q in
  Some {| travel_cost := travel;
          accommodation_cost := accommodation;
          total := (travel + accommodation)%Q |}.

Definition calculate_total_cost (route : list string) (days_distribution : dict Z)
    : option Q :=
  visited ← Py.for_each
    (fun (acc : Q) c =>
       let days := get_default days_distribution c MIN_DAYS_PER_COUNTRY in
       costs ← calculate_country_cost c days;
       Some (acc + total costs)%Q)
    (Py.interior route) 0%Q;
  if (2 <=? length route)%nat then
    last_visited ← Py.index route (-2);
    data ← get countries_data last_visited;
    Some (visited + avg_travel_cost data)%Q
  else Some visited.

(** The value ratio computed in the body of [_find_worst_value]. *)
Definition value_ratio (data : CountryInfo) (selected : gset string) : Py.ratio :=
  let min_cost :=
    (avg_travel_cost data
     + avg_accommodation_cost data * inject_Z MIN_DAYS_PER_COUNTRY)%Q in
  let interest_match := interest_overlap (interests data) selected in
  if 0 <? interest_match then Py.Finite (min_cost / inject_Z interest_match)
  else Py.Infinite.

Definition _find_worst_value (countries : list string) (selected : gset string)
    : option string :=
  first ← Py.index countries 0;
  '(worst_country, _) ← Py.for_each
    (fun '(worst_country, worst_ratio) c =>
       data ← get countries_data c;
       let ratio := value_ratio data selected in
       if Py.ratio_ltb worst_ratio ratio then Some (c, ratio)
       else Some (worst_country, worst_ratio))
    countries (first, Py.Finite 0);
  Some worst_country.

(** The body of [while working:]. *)
Definition enforce_iteration (home_country : string) (budget : Q)
    (selected : gset string) (working : list string) (warnings : list warning)
    : M D iteration :=
  let* route :=
    solve_tsp haversine_distance d_zero d_add d_ltb countries_data
      working home_country in
  let total_days := Z.max (Z.of_nat (length working) * MIN_DAYS_PER_COUNTRY) 1 in
  let* days_dist := lift (distribute_days countries_data total_days route selected) in
  let* total_cost := lift (calculate_total_cost route days_dist) in
  if Qle_bool total_cost budget then ret (Return working warnings days_dist)
  else if (length working <=? 1)%nat then
    ret (Return [] (warnings ++ [Insufficient budget total_cost]) [])
  else
    let* worst := lift (_find_worst_value working selected) in
    let* removed := lift (calculate_country_cost worst MIN_DAYS_PER_COUNTRY) in
    let* working' := lift (Py.remove worst working) in
    ret (Continue working' (warnings ++ [Removed worst (total removed)])).

(** The loop; [fuel] bounds the number of iterations.  Every iteration
    that goes on has removed a destination, so as many iterations as
    there are destinations are enough ([enforce_loop_fuel] below). *)
Fixpoint enforce_loop (fuel : nat) (home_country : string) (budget : Q)
    (selected : gset string) (working : list string) (warnings : list warning)
    : M D (list string * list warning * dict Z) :=
  match working with
  | [] => ret (working, warnings, [])
  | _ :: _ =>
      match fuel with
      | O => raise
      | S fuel' =>
          let* it := enforce_iteration home_country budget selected working warnings in
          match it with
          | Return final warnings' days => ret (final, warnings', days)
          | Continue working' warnings' =>
              enforce_loop fuel' home_country budget selected working' warnings'
          end
      end
  end.

Definition enforce_budget (countries : list string) (home_country : string)
    (budget : Q) (selected : gset string)
    : M D (list string * list warning * dict Z) :=
  enforce_loop (length countries) home_country budget selected countries [].

End Budget.

End BudgetService.

(** ** [routes/itinerary.py]: the planning steps of [generate_itinerary]

    The request arrives validated; its dates enter as [total_days], the
    number of days from start to end, both included.  Steps 1 to 4 and the
    final cost and distance are modelled; step 5, which renders every stop
    of the route (dates, season, currency, visa), the summary and the
    rounding of the distance are not. *)

Module Itinerary.
Import CountrySelector TourOptimizer BudgetService.

(** An entry of the response's [warnings]: the fixed message of the
    selection step, or a warning of the budget enforcer. *)
Inductive notice :=
| BudgetTooLow
| FromEnforcer (w : warning).

Section Planning.
Context {D : Type}.
Variable haversine_distance : Q * Q -> Q * Q -> option D.
Variable d_zero : D.
Variable d_add : D -> D -> D.
Variable d_ltb : D -> D -> bool.
Variable countries_data : dict CountryInfo.
Variable float_add : Q -> Q -> Q.

Inductive response :=
| BadRequest
| NoRoute (warnings : list notice)
| Planned (route : list string) (days_distribution : dict Z) (warnings : list notice)
    (final_cost : Q) (total_distance : D).

(** From [# Final cost recalculation] on. *)
Definition respond (route : list string) (days_distribution : dict Z)
    (warnings : list notice) : M D response :=
  let* final_cost := lift (calculate_total_cost countries_data route days_distribution) in
  let* total_distance :=
    get_route_total_distance haversine_distance d_zero d_add countries_data route in
  ret (Planned route days_distribution warnings final_cost total_distance).

Definition generate_itinerary (home_country : string) (num_countries : Z)
    (interests : gset string) (budget : Q) (total_days : Z) : M D response :=
  if bool_decide (home_country ∈ keys countries_data) then
    if total_days <? num_countries * 2 then ret BadRequest
    else
      let* selected :=
        lift (select_countries countries_data float_add interests num_countries home_country
                budget) in
      match selected with
      | [] => ret (NoRoute [BudgetTooLow])
      | _ :: _ =>
          let* route :=
            solve_tsp haversine_distance d_zero d_add d_ltb countries_data
              selected home_country in
          let* days_distribution :=
            lift (distribute_days countries_data total_days route interests) in
          let* total_cost :=
            lift (calculate_total_cost countries_data route days_distribution) in
          if negb (Qle_bool total_cost budget) then
            let* enforced :=
              enforce_budget haversine_distance d_zero d_add d_ltb countries_data
                selected home_country budget interests in
            let '(selected, budget_warnings, _) := enforced in
            match selected with
            | [] => ret (NoRoute (map FromEnforcer budget_warnings))
            | _ :: _ =>
                let* route :=
                  solve_tsp haversine_distance d_zero d_add d_ltb countries_data
                    selected home_country in
                let* days_distribution :=
                  lift (distribute_days countries_data total_days route interests) in
                respond route days_distribution (map FromEnforcer budget_warnings)
            end
          else respond route days_distribution []
      end
  else ret BadRequest.

End Planning.

End Itinerary.

(** ** Great-circle distance over the reals *)

Module Haversine.

Definition EARTH_RADIUS_KM : R := 6371.

(** [math.radians] *)
Definition radians (x : R) : R := (x * PI / 180)%R.

(** [math.atan2] *)
Definition atan2 (y x : R) : R :=
  if Rlt_dec 0 x then atan (y / x)
  else if Rlt_dec x 0 then
    (if Rle_dec 0 y then atan (y / x) + PI else atan (y / x) - PI)%R
  else if Rlt_dec 0 y then (PI / 2)%R
  else if Rlt_dec y 0 then (- PI / 2)%R
  else 0%R.

Definition haversine_distance (coord1 coord2 : R * R) : R :=
  let lat1 := radians (fst coord1) in
  let lon1 := radians (snd coord1) in
  let lat2 := radians (fst coord2) in
  let lon2 := radians (snd coord2) in
  let dlat := (lat2 - lat1)%R in
  let dlon := (lon2 - lon1)%R in
  let a := (sin (dlat / 2) ^ 2 + cos lat1 * cos lat2 * sin (dlon / 2) ^ 2)%R in
  let c := (2 * atan2 (sqrt a) (sqrt (1 - a)))%R in
  (EARTH_RADIUS_KM * c)%R.

(** The distance between the coordinates of two catalog entries, as the
    optimizer takes it.  Over the reals the formula raises nothing. *)
Definition of_catalog (coord1 coord2 : Q * Q) : option R :=
  Some (haversine_distance (Q2R (fst coord1), Q2R (snd coord1))
                           (Q2R (fst coord2), Q2R (snd coord2))).

(** [x < y] on distances. *)
Definition ltb (x y : R) : bool := if Rlt_dec x y then true else false.

End Haversine.

(** ** Vocabulary of the stated properties *)

(** The identifier is a key of the catalog. *)
Definition known (data : dict CountryInfo) (c : string) : Prop := is_Some (get data c).

(** Data-model invariant of a destination record: costs are not negative. *)
Definition nonneg_costs (d : CountryInfo) : Prop :=
  (0 <= avg_travel_cost d)%Q ∧ (0 <= avg_accommodation_cost d)%Q.

Definition valid (data : dict CountryInfo) (c : string) : Prop :=
  ∃ d, get data c = Some d ∧ nonneg_costs d.

(** Interest-match score of a destination, and of a list of them. *)
Definition score_of (data : dict CountryInfo) (selected : gset string) (c : string) : Z :=
  match get data c with
  | Some d => interest_overlap (interests d) selected
  | None => 0
  end.

Definition total_score_of (data : dict CountryInfo) (selected : gset string)
    (countries : list string) : Z :=
  Py.sumZ (map (score_of data selected) countries).

(** Value ratio of a destination. *)
Definition ratio_of (data : dict CountryInfo) (selected : gset string) (c : string)
    : Py.ratio :=
  match get data c with
  | Some d => BudgetService.value_ratio d selected
  | None => Py.Infinite
  end.

(** Totals over a set of candidates. *)
Definition total_min_cost (cs : list CountrySelector.candidate) : Q :=
  foldr Qplus 0%Q (map CountrySelector.min_cost cs).

Definition total_interest (cs : list CountrySelector.candidate) : Z :=
  Py.sumZ (map CountrySelector.score cs).

(** The minimum costs of the candidates added up in order from zero, each
    sum rounded by [float_add]: the total as the greedy loop keeps it. *)
Definition running_total (float_add : Q -> Q -> Q)
    (cs : list CountrySelector.candidate) : Q :=
  fold_left float_add (map CountrySelector.min_cost cs) 0%Q.

(** The candidates a selection names. *)
Definition selected_candidates (candidates : list CountrySelector.candidate)
    (selection : list string) : list CountrySelector.candidate :=
  filter (fun c => CountrySelector.country c ∈ selection) candidates.

(** No feasible subset of the candidates beats the selection. *)
Definition optimal_selection (candidates : list CountrySelector.candidate) (budget : Q)
    (max_count : Z) (selection : list string) : Prop :=
  ∀ other, other `sublist_of` candidates ->
    (total_min_cost other <= budget)%Q ->
    Z.of_nat (length other) <= max_count ->
    total_interest other <= total_interest (selected_candidates candidates selection).

(** The invariant of the knapsack tables: the row filled last describes,
    for every budget [w], a selection that the backtracking loop recovers
    and whose size is the stored count. *)
Definition tables_ok (max_items W : Z) (dp : list (list (Z * Z)))
    (chosen : list (list bool)) (candidates : list CountrySelector.candidate) : Prop :=
  length chosen = S (length candidates) ∧
  ∃ row, last dp = Some row ∧
    ∀ w : nat, (w < Z.to_nat (W + 1))%nat ->
      ∃ s n sel, row !! w = Some (s, n) ∧ 0 <= n <= max_items ∧
        CountrySelector.backtrack chosen candidates (length candidates) (Z.of_nat w)
          = Some sel ∧
        Z.of_nat (length sel) = n.

(** The invariant of the 2-opt search: the state always holds a tour of
    the same destinations, from home to home. *)
Definition framed {D} (home : string) (interior : list string)
    (st : @TourOptimizer.two_opt_state D) : Prop :=
  ∃ p, fst (fst st) = home :: p ++ [home] ∧ p ≡ₚ interior.

(** The invariant of the distance cache: it never holds both
    orientations of a pair. *)
Definition one_orientation {D} (cache : gmap (string * string) D) : Prop :=
  ∀ a b : string, a ≠ b -> is_Some (cache !! (a, b)) -> cache !! (b, a) = None.

(** *** Distances without the cache *)

(** The distance between two destinations of the catalog, computed
    afresh; [None] when one of them is not in the catalog, or when the
    distance function raises on their coordinates. *)
Definition distance_of {D} (haversine : Q * Q -> Q * Q -> option D)
    (data : dict CountryInfo) (a b : string) : option D :=
  ia ← get data a;
  ib ← get data b;
  haversine (coordinates ia) (coordinates ib).

(** The distance function is defined on the coordinates of every two of
    the stops that are in the catalog. *)
Definition distances_defined {D} (haversine : Q * Q -> Q * Q -> option D)
    (data : dict CountryInfo) (stops : list string) : Prop :=
  ∀ (a b : string) (ia ib : CountryInfo),
    a ∈ stops -> b ∈ stops -> get data a = Some ia -> get data b = Some ib ->
    is_Some (haversine (coordinates ia) (coordinates ib)).

(** Every product that the allocator divides by the total score, [spare]
    days times the score of a stop, is below [2 ^ 53]: there the float
    quotient truncates to the exact one. *)
Definition exact_shares (data : dict CountryInfo) (selected : gset string)
    (stops : list string) (spare : Z) : Prop :=
  ∀ c : string, c ∈ stops -> spare * score_of data selected c < 2 ^ 53.

(** The length of a route, leg by leg, computed afresh. *)
Fixpoint route_length {D} (haversine : Q * Q -> Q * Q -> option D) (d_add : D -> D -> D)
    (data : dict CountryInfo) (route : list string) (total : D) : option D :=
  match route with
  | a :: rest =>
      match rest with
      | b :: _ =>
          d ← distance_of haversine data a b;
          route_length haversine d_add data rest (d_add total d)
      | [] => Some total
      end
  | [] => Some total
  end.

(** Every value in the cache is the distance of its pair. *)
Definition cache_sound {D} (haversine : Q * Q -> Q * Q -> option D)
    (data : dict CountryInfo) (cache : gmap (string * string) D) : Prop :=
  ∀ (a b : string) (d : D),
    cache !! (a, b) = Some d -> distance_of haversine data a b = Some d.

(** Each stop is at least as near to the stop before it as every stop
    that comes later. *)
Fixpoint nearest_chain {D} (haversine : Q * Q -> Q * Q -> option D) (d_ltb : D -> D -> bool)
    (data : dict CountryInfo) (current : string) (stops : list string) : Prop :=
  match stops with
  | [] => True
  | next :: later =>
      (∀ x dx dn, x ∈ later ->
         distance_of haversine data current x = Some dx ->
         distance_of haversine data current next = Some dn ->
         d_ltb dx dn = false) ∧
      nearest_chain haversine d_ltb data next later
  end.

(** The minimum cost of a destination of the catalog, and the candidate
    the selector builds for it. *)
Definition min_cost_of (data : dict CountryInfo) (c : string) : Q :=
  match CountrySelector.minimum_cost data c with
  | Some q => q
  | None => 0
  end.

Definition candidate_of (data : dict CountryInfo) (selected : gset string) (c : string)
    : CountrySelector.candidate :=
  {| CountrySelector.country := c;
     CountrySelector.score := score_of data selected c;
     CountrySelector.min_cost := min_cost_of data c |}.

(** A destination the selector considers: not home, and matching at
    least one interest. *)
Definition eligible (data : dict CountryInfo) (selected : gset string) (home : string)
    (c : string) : Prop :=
  c ≠ home ∧ 0 < score_of data selected c.

(** The invariant of the 2-opt search on lengths: the state holds a
    route together with its length, and that route is the input route or
    a strictly shorter one. *)
Definition improving {D} (haversine : Q * Q -> Q * Q -> option D) (d_zero : D)
    (d_add : D -> D -> D) (d_ltb : D -> D -> bool) (data : dict CountryInfo)
    (route0 : list string) (d0 : D)
    (st : @TourOptimizer.two_opt_state D) (cache : gmap (string * string) D) : Prop :=
  cache_sound haversine data cache ∧
  route_length haversine d_add data (fst (fst st)) d_zero = Some (snd (fst st)) ∧
  (fst (fst st) = route0 ∨ d_ltb (snd (fst st)) d0 = true).

(** The invariant of the [chosen] table: a cell is marked only where the
    candidate of its row fits the budget of its column. *)
Definition chosen_affordable (chosen : list (list bool))
    (candidates : list CountrySelector.candidate) : Prop :=
  ∀ (i w : nat) (row : list bool) (c : CountrySelector.candidate),
    chosen !! S i = Some row -> row !! w = Some true -> candidates !! i = Some c ->
    CountrySelector.cost_units c <= Z.of_nat w.

(** The destinations the enforcer's warnings report as removed, in the
    order of their removal. *)
Definition removed_countries (warnings : list BudgetService.warning) : list string :=
  flat_map (fun w => match w with
                     | BudgetService.Removed c _ => [c]
                     | BudgetService.Insufficient _ _ => []
                     end) warnings.

(** ** Concrete catalogs and requests *)

Module Scenario.

Section Data.
Local Open Scope string_scope.

Definition destination (travel accommodation : Q) (tags : list string) (lat lon : Q)
    : CountryInfo :=
  {| interests := tags;
     avg_travel_cost := travel;
     avg_accommodation_cost := accommodation;
     coordinates := (lat, lon) |}.

(** Minimum visit costs 500, 800 and 1200 for A, B and C. *)
Definition world : dict CountryInfo :=
  [ ("H", destination 10 0 [] 0 0);
    ("A", destination 300 100 ["x"] 1 5);
    ("B", destination 400 200 ["x"; "y"; "z"; "w"] 4 1);
    ("C", destination 600 300 ["y"] 2 2);
    ("E", destination 1 1 [] 7 7);
    ("F", destination 1 1 [] 3 9);
    ("G", destination 1 1 ["x"] 5 8) ].

Definition home : string := "H".

(** Interest sets: scores 1, 4, 1 / 1, 2, 1 / 1, 1, 0 for A, B and C. *)
Definition four_tags : gset string := list_to_set ["x"; "y"; "z"; "w"].
Definition two_tags : gset string := list_to_set ["x"; "y"].
Definition one_tag : gset string := {["x"]}.

Definition three_stops : list string := ["A"; "B"; "C"].
Definition six_stops : list string := ["A"; "B"; "C"; "E"; "F"; "G"].

Definition route_ABC : list string := ["H"; "A"; "B"; "C"; "H"].
Definition route_AB : list string := ["H"; "A"; "B"; "H"].
(** None of C, E and F matches [one_tag]. *)
Definition route_EF : list string := ["H"; "E"; "F"; "H"].
Definition route_CEF : list string := ["H"; "C"; "E"; "F"; "H"].

(** Two destinations of minimum cost 19 each. *)
Definition coarse : dict CountryInfo :=
  [ ("H", destination 0 0 [] 0 0);
    ("A", destination 9 5 ["x"] 1 1);
    ("B", destination 9 5 ["x"] 2 2) ].

(** Three destinations of minimum cost 10 each, with scores 1, 1 and 5. *)
Definition ties : dict CountryInfo :=
  [ ("H", destination 0 0 [] 0 0);
    ("A", destination 10 0 ["x"] 1 1);
    ("B", destination 10 0 ["x"] 2 2);
    ("C", destination 10 0 ["x"; "y"; "z"; "w"; "v"] 3 3) ].

Definition five_tags : gset string := list_to_set ["x"; "y"; "z"; "w"; "v"].

Definition tie_candidates : list CountrySelector.candidate :=
  [ {| CountrySelector.country := "A"; CountrySelector.score := 1;
       CountrySelector.min_cost := 10 |};
    {| CountrySelector.country := "B"; CountrySelector.score := 1;
       CountrySelector.min_cost := 10 |};
    {| CountrySelector.country := "C"; CountrySelector.score := 5;
       CountrySelector.min_cost := 10 |} ].

Definition cheaper_and_better : list CountrySelector.candidate :=
  [ {| CountrySelector.country := "A"; CountrySelector.score := 1;
       CountrySelector.min_cost := 10 |};
    {| CountrySelector.country := "C"; CountrySelector.score := 5;
       CountrySelector.min_cost := 10 |} ].

(** The stop of minimum cost 1200 and score 1, and the one of cost 500. *)
Definition dearest_stop : string := "C".
Definition cheapest_stop : string := "A".
Definition kept_stops : list string := ["A"; "B"].

(** A distance that computes, to run the optimizer on: the squared
    difference of the coordinates.  It never raises. *)
Definition flat_distance (a b : Q * Q) : option Q :=
  Some ((fst a - fst b) * (fst a - fst b) + (snd a - snd b) * (snd a - snd b))%Q.

Definition Qltb (x y : Q) : bool := if Qlt_le_dec x y then true else false.

(** Two places opposite each other on the globe: between (-12, 169) and
    (12, -11) the float formula takes the square root of a negative
    number and raises. *)
Definition antipodes : dict CountryInfo :=
  [ ("H", destination 10 0 [] (-12) 169);
    ("A", destination 300 100 ["x"] 12 (-11)) ].

Definition is_at (p : Q * Q) (lat lon : Q) : bool :=
  Qeq_bool (fst p) lat && Qeq_bool (snd p) lon.

(** [flat_distance], raising between those two places. *)
Definition raising_distance (a b : Q * Q) : option Q :=
  if (is_at a (-12) 169 && is_at b 12 (-11)) || (is_at a 12 (-11) && is_at b (-12) 169)
  then None
  else flat_distance a b.

End Data.

End Scenario.

Import CountrySelector TourOptimizer BudgetService.

(** * Supporting lemmas *)

(** ** Python built-ins *)

Lemma int_nonneg (x : Q) : (0 <= x)%Q -> 0 <= Py.int x.
Proof.
  intros H. unfold Py.int. apply Z.quot_pos; [|lia].
  unfold Qle in H. simpl in H. lia.
Qed.

Lemma cost_units_nonneg (c : candidate) : (0 <= min_cost c)%Q -> 0 <= cost_units c.
Proof.
  intros H. apply int_nonneg. unfold granularity.
  apply Qle_shift_div_l; [reflexivity|]. rewrite Qmult_0_l. exact H.
Qed.

Lemma index_nat {A} (l : list A) (i : nat) : Py.index l (Z.of_nat i) = l !! i.
Proof.
  unfold Py.index. destruct (Z.leb_spec 0 (Z.of_nat i)); [|lia].
  by rewrite Nat2Z.id.
Qed.

Lemma index_nonneg {A} (l : list A) (i : Z) : 0 <= i -> Py.index l i = l !! Z.to_nat i.
Proof. intros H. unfold Py.index. destruct (Z.leb_spec 0 i); [done|lia]. Qed.

(** ** The division of two integers *)

Lemma round_half_even_bounds (n d : Z) :
  0 < d ->
  n / d <= Py.round_half_even n d <= n / d + 1 ∧
  (Py.round_half_even n d = n / d + 1 -> d <= 2 * (n mod d)).
Proof.
  intros Hd. unfold Py.round_half_even.
  destruct (Z.ltb_spec (2 * (n mod d)) d); [lia|].
  destruct (Z.ltb_spec d (2 * (n mod d))); [lia|].
  destruct (Z.even (n / d)); lia.
Qed.

Lemma scaled_num_nonneg (x e : Z) : 0 <= e -> Py.scaled_num x e = x.
Proof. intros He. unfold Py.scaled_num. rewrite Z.max_l by lia. simpl. lia. Qed.

Lemma scaled_num_neg (x e : Z) : e <= 0 -> Py.scaled_num x e = x * 2 ^ (- e).
Proof. intros He. unfold Py.scaled_num. by rewrite Z.max_r by lia. Qed.

Lemma scaled_den_nonneg (y e : Z) : 0 <= e -> Py.scaled_den y e = y * 2 ^ e.
Proof. intros He. unfold Py.scaled_den. by rewrite Z.max_r by lia. Qed.

Lemma scaled_den_neg (y e : Z) : e <= 0 -> Py.scaled_den y e = y.
Proof. intros He. unfold Py.scaled_den. rewrite Z.max_l by lia. simpl. lia. Qed.

(** [x / y < 2 ^ e] and [2 ^ e <= x / y], cross-multiplied. *)
Lemma below_power (x y e : Z) :
  0 < x -> 0 < y -> Z.log2 x - Z.log2 y + 1 <= e ->
  Py.scaled_num x e < Py.scaled_den y e.
Proof.
  intros Hx Hy He.
  pose proof (Z.log2_spec x Hx) as [_ Hxu]. pose proof (Z.log2_spec y Hy) as [Hyl _].
  pose proof (Z.log2_nonneg x). pose proof (Z.log2_nonneg y).
  destruct (Z_le_gt_dec 0 e) as [Hpos|Hneg].
  - rewrite scaled_num_nonneg, scaled_den_nonneg by done.
    apply Z.lt_le_trans with (2 ^ Z.succ (Z.log2 x)); [done|].
    apply Z.le_trans with (2 ^ Z.log2 y * 2 ^ e).
    + rewrite <- Z.pow_add_r by lia. apply Z.pow_le_mono_r; lia.
    + apply Z.mul_le_mono_nonneg_r; [|done]. apply Z.pow_nonneg. lia.
  - rewrite scaled_num_neg, scaled_den_neg by lia.
    apply Z.lt_le_trans with (2 ^ Z.log2 y); [|done].
    apply Z.lt_le_trans with (2 ^ Z.succ (Z.log2 x) * 2 ^ (- e)).
    + apply Z.mul_lt_mono_pos_r; [|done]. apply Z.pow_pos_nonneg; lia.
    + rewrite <- Z.pow_add_r by lia. apply Z.pow_le_mono_r; lia.
Qed.

Lemma above_power (x y e : Z) :
  0 < x -> 0 < y -> e <= Z.log2 x - Z.log2 y - 1 ->
  Py.scaled_den y e <= Py.scaled_num x e.
Proof.
  intros Hx Hy He.
  pose proof (Z.log2_spec x Hx) as [Hxl _]. pose proof (Z.log2_spec y Hy) as [_ Hyu].
  pose proof (Z.log2_nonneg x). pose proof (Z.log2_nonneg y).
  destruct (Z_le_gt_dec 0 e) as [Hpos|Hneg].
  - rewrite scaled_num_nonneg, scaled_den_nonneg by done.
    apply Z.le_trans with (2 ^ Z.log2 x); [|done].
    apply Z.le_trans with (2 ^ Z.succ (Z.log2 y) * 2 ^ e).
    + apply Z.mul_le_mono_nonneg_r; [apply Z.pow_nonneg; lia|lia].
    + rewrite <- Z.pow_add_r by lia. apply Z.pow_le_mono_r; lia.
  - rewrite scaled_num_neg, scaled_den_neg by lia.
    apply Z.le_trans with (2 ^ Z.succ (Z.log2 y)); [lia|].
    apply Z.le_trans with (2 ^ Z.log2 x * 2 ^ (- e)).
    + rewrite <- Z.pow_add_r by lia. apply Z.pow_le_mono_r; lia.
    + apply Z.mul_le_mono_nonneg_r; [apply Z.pow_nonneg; lia|done].
Qed.

(** The exponent of the leading digit: [2 ^ l <= x / y < 2 ^ (l + 1)]. *)
Lemma leading_exponent (x y : Z) :
  0 < x -> 0 < y ->
  let l := Z.log2 x - Z.log2 y in
  let leading := if Py.scaled_den y l <=? Py.scaled_num x l then l else l - 1 in
  Py.scaled_den y leading <= Py.scaled_num x leading ∧
  Py.scaled_num x (leading + 1) < Py.scaled_den y (leading + 1).
Proof.
  intros Hx Hy l leading. subst leading.
  destruct (Z.leb_spec (Py.scaled_den y l) (Py.scaled_num x l)) as [Hle|Hlt].
  - split; [done|]. apply below_power; lia.
  - split; [apply above_power; lia|]. by replace (l - 1 + 1) with l by lia.
Qed.

(** Below [2 ^ 53] the float quotient truncates to the integer quotient. *)
Lemma truediv_exact (a b : Z) :
  0 <= a < 2 ^ 53 -> 0 < b ->
  Py.int <$> Py.truediv a b = Some (a ÷ b).
Proof.
  intros [Ha0 Ha] Hb. unfold Py.truediv.
  destruct (Z.eqb_spec b 0); [lia|].
  destruct (Z.eqb_spec a 0) as [->|Hane]. { simpl. by rewrite Z.quot_0_l by lia. }
  rewrite (Z.abs_eq a), (Z.abs_eq b) by lia.
  assert (Hx : 0 < a) by lia.
  unfold Py.float_exponent.
  pose proof (leading_exponent a b Hx Hb) as Hlead. cbv zeta in Hlead.
  set (leading := if Py.scaled_den b (Z.log2 a - Z.log2 b) <=?
                     Py.scaled_num a (Z.log2 a - Z.log2 b)
                  then Z.log2 a - Z.log2 b else Z.log2 a - Z.log2 b - 1) in *.
  destruct Hlead as [Hlow Hup].
  assert (Hl52 : leading <= 52).
  { destruct (Z_le_gt_dec leading 52) as [|Hbig]; [done|exfalso].
    rewrite scaled_num_nonneg, scaled_den_nonneg in Hlow by lia.
    assert (2 ^ 53 <= 2 ^ leading) by (apply Z.pow_le_mono_r; lia).
    assert (2 ^ leading <= b * 2 ^ leading) by nia. lia. }
  set (e := Z.max (leading - 52) (-1074)).
  assert (He : -1074 <= e <= 0) by lia.
  set (s := - e). assert (Hs : 0 <= s <= 1074) by lia.
  rewrite (scaled_num_neg a e), (scaled_den_neg b e) by lia. fold s.
  assert (Hp : 0 < 2 ^ s) by (apply Z.pow_pos_nonneg; lia).
  pose proof (round_half_even_bounds (a * 2 ^ s) b Hb) as [[Hm1 Hm2] Hm3].
  set (m := Py.round_half_even (a * 2 ^ s) b) in *.
  pose proof (Z.div_mod a b ltac:(lia)) as Hab.
  pose proof (Z.mod_pos_bound a b Hb) as Hr.
  pose proof (Z.div_pos a b ltac:(lia) Hb) as Hk.
  set (k := a / b) in *. set (r := a mod b) in *.
  pose proof (Z.div_mod (a * 2 ^ s) b ltac:(lia)) as Hab'.
  pose proof (Z.mod_pos_bound (a * 2 ^ s) b Hb) as Hr'.
  set (q0 := a * 2 ^ s / b) in *. set (r0 := (a * 2 ^ s) mod b) in *.
  assert (Hq0l : k * 2 ^ s <= q0).
  { unfold q0. apply Z.div_le_lower_bound; [done|]. nia. }
  assert (Hq0u : q0 < (k + 1) * 2 ^ s).
  { unfold q0. apply Z.div_lt_upper_bound; [done|]. nia. }
  assert (Hmu : m < (k + 1) * 2 ^ s).
  { destruct (Z_lt_ge_dec m ((k + 1) * 2 ^ s)) as [|Hbad]; [done|exfalso].
    assert (Hmq : m = q0 + 1) by lia. specialize (Hm3 Hmq).
    assert (Hy : 2 ^ (s + 1) <= b).
    { rewrite Z.pow_add_r by lia. change (2 ^ 1) with 2. nia. }
    destruct (Z_le_gt_dec (-1074) (leading - 52)) as [Hnorm|Hsub].
    - assert (Hse : s = 52 - leading) by lia.
      assert (b < 2 ^ (s + 1)); [|lia].
      destruct (Z_le_gt_dec 0 leading) as [Hlp|Hln].
      + rewrite scaled_num_nonneg, scaled_den_nonneg in Hlow by lia.
        assert (2 ^ 53 = 2 ^ (s + 1) * 2 ^ leading).
        { rewrite <- Z.pow_add_r by lia. f_equal. lia. }
        assert (0 < 2 ^ leading) by (apply Z.pow_pos_nonneg; lia). nia.
      + rewrite scaled_num_neg, scaled_den_neg in Hlow by lia.
        assert (2 ^ (s + 1) = 2 ^ 53 * 2 ^ (- leading)).
        { rewrite <- Z.pow_add_r by lia. f_equal. lia. }
        assert (0 < 2 ^ (- leading)) by (apply Z.pow_pos_nonneg; lia). nia.
    - assert (Hse : s = 1074) by lia.
      rewrite scaled_num_neg, scaled_den_neg in Hup by lia.
      assert (Ht : 2 ^ 1022 <= 2 ^ (- (leading + 1))) by (apply Z.pow_le_mono_r; lia).
      assert (H1 : a * 2 ^ 1022 < b) by nia.
      assert (H2 : 2 ^ s = 2 ^ 1022 * 2 ^ 52).
      { rewrite Hse, <- Z.pow_add_r by lia. done. }
      assert (H3 : 2 ^ 52 + 1 <= 2 ^ s).
      { rewrite Hse. apply Z.le_trans with (2 ^ 53); [done|]. apply Z.pow_le_mono_r; lia. }
      assert (0 < 2 ^ 1022) by (apply Z.pow_pos_nonneg; lia).
      assert (H4 : a * 2 ^ s < b * 2 ^ 52) by nia.
      assert (k = 0).
      { unfold k. apply Z.div_small. split; [done|]. nia. }
      nia. }
  assert (Hno : (0 <=? e) && (2 ^ 1024 <=? m * 2 ^ e) = false).
  { apply andb_false_iff. destruct (Z.leb_spec 0 e) as [He0|]; [right|by left].
    assert (e = 0) as -> by lia. apply Z.leb_gt. change (2 ^ 0) with 1.
    assert (s = 0) as Hs0 by lia. rewrite Hs0 in *. change (2 ^ 0) with 1 in *.
    assert (k < 2 ^ 53) by (unfold k; apply Z.div_lt_upper_bound; nia).
    apply Z.lt_le_trans with (2 ^ 54); [lia|]. apply Z.pow_le_mono_r; lia. }
  rewrite Hno. simpl fmap. f_equal. unfold Py.int. cbn [Qnum Qden].
  rewrite (Z.max_l 0 e) by lia. change (2 ^ 0) with 1.
  rewrite Z.sgn_pos, Z.sgn_pos by lia. rewrite !Z.mul_1_l, Z.mul_1_r.
  fold s. rewrite (Z.max_r 0 s) by lia. rewrite Z2Pos.id by done.
  rewrite !Z.quot_div_nonneg by lia.
  symmetry. apply Z.div_unique with (m - k * 2 ^ s); lia.
Qed.

Lemma truediv_small (a b : Z) :
  0 <= a < 2 ^ 53 -> 0 < b ->
  ∃ q, Py.truediv a b = Some q ∧ Py.int q = a ÷ b.
Proof.
  intros Ha Hb. pose proof (truediv_exact a b Ha Hb) as H.
  destruct (Py.truediv a b) as [q|]; [|done]. injection H as H. by exists q.
Qed.

(** ** Dictionaries *)

Section DictFacts.
Context {V : Type}.
Implicit Types (d : dict V) (k : string) (v : V).

Lemma get_Some_keys d k v : get d k = Some v -> k ∈ keys d.
Proof.
  induction d as [|[k' v'] d IH]; simpl; [done|].
  destruct (decide (k = k')) as [->|Hne]; intros H.
  - apply list_elem_of_here.
  - apply list_elem_of_further. auto.
Qed.

Lemma keys_get_Some d k : k ∈ keys d -> is_Some (get d k).
Proof.
  induction d as [|[k' v'] d IH]; simpl.
  - intros H. by apply not_elem_of_nil in H.
  - intros H. destruct (decide (k = k')) as [->|Hne]; [eauto|].
    apply IH. apply elem_of_cons in H as [?|?]; [done|done].
Qed.

Lemma get_Some_values d k v : get d k = Some v -> v ∈ values d.
Proof.
  induction d as [|[k' v'] d IH]; simpl; [done|].
  destruct (decide (k = k')) as [->|Hne]; intros H.
  - injection H as ->. apply list_elem_of_here.
  - apply list_elem_of_further. auto.
Qed.

Lemma set_fresh d k v : k ∉ keys d -> set k v d = d ++ [(k, v)].
Proof.
  induction d as [|[k' v'] d IH]; simpl; [done|].
  intros H. apply not_elem_of_cons in H as [Hne Hd].
  destruct (decide (k = k')); [done|]. by rewrite IH.
Qed.

Lemma keys_set_present d k v : k ∈ keys d -> keys (set k v d) = keys d.
Proof.
  induction d as [|[k' v'] d IH]; simpl.
  - intros H. by apply not_elem_of_nil in H.
  - intros H. destruct (decide (k = k')) as [->|Hne]; [done|].
    simpl. f_equal. apply IH. apply elem_of_cons in H as [?|?]; done.
Qed.

Lemma Forall_values_set (P : V -> Prop) d k v :
  Forall P (values d) -> P v -> Forall P (values (set k v d)).
Proof.
  induction d as [|[k' v'] d IH]; simpl; intros Hd Hv.
  - by constructor.
  - inversion Hd; subst. destruct (decide (k = k')); constructor; auto.
Qed.
End DictFacts.

Lemma sum_values_set (d : dict Z) k v v' :
  get d k = Some v -> Py.sumZ (values (set k v' d)) = Py.sumZ (values d) - v + v'.
Proof.
  induction d as [|[k0 v0] d IH]; simpl; [done|].
  destruct (decide (k = k0)) as [->|Hne]; intros H.
  - injection H as ->. unfold Py.sumZ. simpl. lia.
  - unfold Py.sumZ in *. simpl. rewrite IH by done. lia.
Qed.

Lemma sumZ_app l1 l2 : Py.sumZ (l1 ++ l2) = Py.sumZ l1 + Py.sumZ l2.
Proof. unfold Py.sumZ. induction l1; simpl; lia. Qed.

(** Comprehensions over distinct keys list their keys in order. *)
Lemma for_each_set_fresh {V} (f : string -> option V) (g : string -> V) ks : ∀ acc : dict V,
  NoDup (keys acc ++ ks) ->
  (∀ k, k ∈ ks -> f k = Some (g k)) ->
  Py.for_each (fun d k => v ← f k; Some (set k v d)) ks acc
  = Some (acc ++ map (fun k => (k, g k)) ks).
Proof.
  induction ks as [|k ks IH]; intros acc Hnd Hf; simpl.
  - by rewrite app_nil_r.
  - rewrite Hf by apply list_elem_of_here. simpl.
    apply NoDup_app in Hnd as (Hacc & Hdisj & Hks).
    apply NoDup_cons in Hks as [Hk Hks].
    rewrite set_fresh. 2:{ intros Hin. apply (Hdisj k Hin). apply list_elem_of_here. }
    rewrite IH.
    + by rewrite <- app_assoc.
    + unfold keys. rewrite map_app. simpl. rewrite <- app_assoc. simpl.
      apply NoDup_app. split; [done|]. split.
      * intros x Hx. apply Hdisj in Hx. done.
      * by apply NoDup_cons.
    + intros k' Hk'. apply Hf. by apply list_elem_of_further.
Qed.

Lemma comprehension_distinct {V} (f : string -> option V) (g : string -> V) ks :
  NoDup ks -> (∀ k, k ∈ ks -> f k = Some (g k)) ->
  comprehension f ks = Some (map (fun k => (k, g k)) ks).
Proof. intros Hnd Hf. unfold comprehension. by rewrite (for_each_set_fresh f g). Qed.

Lemma keys_map_pair {V} (g : string -> V) ks : keys (map (fun k => (k, g k)) ks) = ks.
Proof. unfold keys. induction ks; simpl; congruence. Qed.

Lemma values_map_pair {V} (g : string -> V) ks : values (map (fun k => (k, g k)) ks) = map g ks.
Proof. unfold values. induction ks; simpl; congruence. Qed.

Lemma get_map_pair {V} (g : string -> V) ks k :
  k ∈ ks -> get (map (fun k => (k, g k)) ks) k = Some (g k).
Proof.
  induction ks as [|k' ks IH]; simpl; intros H.
  - by apply not_elem_of_nil in H.
  - destruct (decide (k = k')) as [->|Hne]; [done|].
    apply IH. apply elem_of_cons in H as [?|?]; done.
Qed.

(** ** Selector: the knapsack tables *)

Lemma backtrack_snoc chosen ch candidates c i w :
  (i <= length candidates)%nat ->
  length chosen = S (length candidates) ->
  backtrack (chosen ++ [ch]) (candidates ++ [c]) i w = backtrack chosen candidates i w.
Proof.
  revert w. induction i as [|i IH]; intros w Hi Hlen; [done|].
  simpl. rewrite (lookup_app_l chosen), (lookup_app_l candidates) by lia.
  destruct (chosen !! S i) as [row|]; [|done]. simpl.
  destruct (Py.index row w) as [[|]|]; simpl; [| |done].
  - destruct (candidates !! i) as [c'|]; [|done]. simpl.
    rewrite IH by lia. done.
  - apply IH; lia.
Qed.

Section Knapsack.
Variables (max_items W : Z).
Hypothesis Hmax : 0 <= max_items.

Abbreviation tables_ok := (tables_ok max_items W).

Lemma tables_ok_init :
  tables_ok [replicate (Z.to_nat (W + 1)) (0, 0)] [replicate (Z.to_nat (W + 1)) false] [].
Proof.
  split; [done|]. eexists; split; [done|]. intros w Hw.
  exists 0, 0, []. rewrite lookup_replicate_2 by done. repeat split; try done; lia.
Qed.

Lemma dp_step_ok dp chosen candidates c :
  (0 <= min_cost c)%Q ->
  tables_ok dp chosen candidates ->
  ∃ dp' chosen',
    dp_step max_items W (Some (dp, chosen)) c = Some (dp', chosen') ∧
    tables_ok dp' chosen' (candidates ++ [c]).
Proof.
  intros Hc (Hlen & row & Hlast & Hrow).
  pose proof (cost_units_nonneg c Hc) as Hcu.
  assert (Hcell : ∀ w : nat, (w < Z.to_nat (W + 1))%nat ->
    ∃ s n b sel, dp_cell row c max_items (Z.of_nat w) = Some ((s, n), b) ∧
      0 <= n <= max_items ∧
      (if b then
         ∃ rest, backtrack chosen candidates (length candidates)
                   (Z.of_nat w - cost_units c) = Some rest ∧
                 sel = country c :: rest
       else backtrack chosen candidates (length candidates) (Z.of_nat w) = Some sel) ∧
      Z.of_nat (length sel) = n).
  { intros w Hw. destruct (Hrow w Hw) as (s & n & sel & Hw1 & Hn & Hbt & Hsel).
    unfold dp_cell. rewrite index_nat, Hw1. simpl.
    destruct (Z.leb_spec (cost_units c) (Z.of_nat w)) as [Hle|Hgt].
    - rewrite index_nonneg by lia.
      destruct (Hrow (Z.to_nat (Z.of_nat w - cost_units c))) as (s' & n' & sel' & Hw2 & Hn' & Hbt' & Hsel'); [lia|].
      rewrite Z2Nat.id in Hbt' by lia.
      rewrite Hw2. simpl.
      destruct (Z.ltb_spec n' max_items).
      + destruct (Z.ltb_spec s (s' + score c)).
        * exists (s' + score c), (n' + 1), true, (country c :: sel').
          repeat split; try done; try lia. { eauto. } simpl. lia.
        * exists s, n, false, sel. repeat split; try done; lia.
      + exists s, n, false, sel. repeat split; try done; lia.
    - exists s, n, false, sel. repeat split; try done; lia. }
  assert (Hmap : ∃ cells, mapM (dp_cell row c max_items) (Py.range (W + 1)) = Some cells).
  { apply mapM_is_Some. apply Forall_forall. intros z Hz.
    unfold Py.range in Hz. apply elem_of_seqZ in Hz.
    destruct (Hcell (Z.to_nat z)) as (s & n & b & sel & Hd & _); [lia|].
    rewrite Z2Nat.id in Hd by lia. simpl. by rewrite Hd. }
  destruct Hmap as [cells Hcells].
  exists (dp ++ [cells.*1]), (chosen ++ [cells.*2]). split.
  { unfold dp_step. simpl. rewrite Hlast. simpl. unfold dp_row. by rewrite Hcells. }
  split. { rewrite !length_app. simpl. lia. }
  exists (cells.*1). split; [apply last_snoc|].
  intros w Hw.
  apply mapM_Some_1 in Hcells.
  assert (Hr : Py.range (W + 1) !! w = Some (Z.of_nat w)).
  { unfold Py.range. by rewrite lookup_seqZ_lt by lia. }
  destruct (Forall2_lookup_l _ _ _ _ _ Hcells Hr) as ([cell b] & Hcw & Hdc).
  destruct (Hcell w Hw) as (s & n & b' & sel & Hd & Hn & Hbt & Hsel).
  rewrite Hd in Hdc. injection Hdc as <- <-.
  exists s, n, sel. split. { rewrite list_lookup_fmap, Hcw. done. }
  split; [done|]. split; [|done].
  rewrite length_app. simpl. rewrite Nat.add_1_r. simpl.
  rewrite (lookup_app_r chosen) by lia.
  replace (S (length candidates) - length chosen)%nat with 0%nat by lia.
  simpl. rewrite index_nat, list_lookup_fmap, Hcw. simpl.
  destruct b'.
  - destruct Hbt as (rest & Hrest & ->).
    rewrite (lookup_app_r candidates) by lia. rewrite Nat.sub_diag. simpl.
    rewrite backtrack_snoc by lia. rewrite Hrest. done.
  - rewrite backtrack_snoc by lia. done.
Qed.

Lemma dp_fold_ok rest : ∀ dp chosen candidates,
  Forall (fun c => (0 <= min_cost c)%Q) rest ->
  tables_ok dp chosen candidates ->
  ∃ dp' chosen',
    fold_left (dp_step max_items W) rest (Some (dp, chosen)) = Some (dp', chosen') ∧
    tables_ok dp' chosen' (candidates ++ rest).
Proof.
  induction rest as [|c rest IH]; intros dp chosen candidates Hall Hok.
  - exists dp, chosen. by rewrite app_nil_r.
  - inversion Hall as [|? ? Hc Hrest]; subst.
    destruct (dp_step_ok dp chosen candidates c Hc Hok) as (dp1 & ch1 & Hstep & Hok1).
    destruct (IH dp1 ch1 (candidates ++ [c]) Hrest Hok1) as (dp2 & ch2 & Hfold & Hok2).
    exists dp2, ch2. cbn [fold_left]. rewrite Hstep. split; [done|].
    by rewrite <- app_assoc in Hok2.
Qed.
End Knapsack.

(** ** Allocator *)

(** Truncating each share loses less than one day per destination. *)
Lemma shares_bound (S R : Z) (scores : list Z) :
  0 < S -> 0 <= R -> Forall (fun s => 0 <= s) scores ->
  let shares := Py.sumZ (map (fun s => (R * s) ÷ S) scores) in
  0 <= shares ∧
  S * shares <= R * Py.sumZ scores <= S * shares + Z.of_nat (length scores) * (S - 1).
Proof.
  intros HS HR Hall. unfold Py.sumZ.
  induction Hall as [|s scores Hs Hall IH]; simpl; [lia|].
  rewrite Z.quot_div_nonneg by nia.
  pose proof (Z.div_mod (R * s) S ltac:(lia)) as Hdm.
  pose proof (Z.mod_pos_bound (R * s) S HS) as Hm.
  assert (0 <= (R * s) / S) by (apply Z.div_pos; nia).
  nia.
Qed.

Section Loops.
Abbreviation at_least_min := (Forall (fun v => MIN_DAYS_PER_COUNTRY <= v)).

Lemma assign_minimum_distinct countries total_days :
  NoDup countries ->
  assign_minimum countries total_days
  = Some (map (fun c => (c, MIN_DAYS_PER_COUNTRY)) countries,
          total_days - MIN_DAYS_PER_COUNTRY * Z.of_nat (length countries)).
Proof.
  unfold assign_minimum.
  assert (H : ∀ acc remaining, NoDup (keys acc ++ countries) ->
    Py.for_each (fun '(days, remaining_days) c =>
         Some (set c MIN_DAYS_PER_COUNTRY days, remaining_days - MIN_DAYS_PER_COUNTRY))
      countries (acc, remaining)
    = Some (acc ++ map (fun c => (c, MIN_DAYS_PER_COUNTRY)) countries,
            remaining - MIN_DAYS_PER_COUNTRY * Z.of_nat (length countries))).
  { induction countries as [|c cs IH]; intros acc remaining Hnd.
    - simpl. rewrite app_nil_r. do 2 f_equal. lia.
    - cbn [Py.for_each]. simpl.
      apply NoDup_app in Hnd as (Hacc & Hdisj & Hks).
      apply NoDup_cons in Hks as [Hk Hks].
      rewrite set_fresh. 2:{ intros Hin. apply (Hdisj c Hin). apply list_elem_of_here. }
      rewrite IH.
      + rewrite <- app_assoc. simpl. do 2 f_equal. lia.
      + unfold keys. rewrite map_app. simpl. rewrite <- app_assoc. simpl.
        apply NoDup_app. split; [done|]. split.
        * intros x Hx. apply Hdisj in Hx. done.
        * by apply NoDup_cons. }
  intros Hnd. by rewrite H.
Qed.

(** The proportional pass keeps the keys and adds each destination's
    truncated share. *)
Lemma add_proportional_spec (score_of : string -> Z) all total_score remaining_days :
  0 < total_score -> 0 <= remaining_days ->
  (∀ c, 0 <= score_of c) ->
  (∀ c, c ∈ all -> remaining_days * score_of c < 2 ^ 53) ->
  ∀ countries days,
    countries ⊆ all -> countries ⊆ keys days -> at_least_min (values days) ->
    ∃ days',
      add_proportional (map (fun c => (c, score_of c)) all) total_score remaining_days
        countries days = Some days' ∧
      keys days' = keys days ∧ at_least_min (values days') ∧
      Py.sumZ (values days') =
        Py.sumZ (values days) +
        (if 0 <? remaining_days
         then Py.sumZ (map (fun c => (remaining_days * score_of c) ÷ total_score) countries)
         else 0).
Proof.
  intros HS HR Hscore Hsmall. unfold add_proportional.
  induction countries as [|c cs IH]; intros days Hall Hkeys Hmin.
  - exists days. simpl. repeat split; try done. destruct (0 <? remaining_days); unfold Py.sumZ; simpl; lia.
  - cbn [Py.for_each].
    assert (Hc : c ∈ keys days) by (apply Hkeys, list_elem_of_here).
    assert (Hcs : cs ⊆ keys days) by (intros x Hx; apply Hkeys; by apply list_elem_of_further).
    assert (Hcs' : cs ⊆ all) by (intros x Hx; apply Hall; by apply list_elem_of_further).
    destruct (Z.ltb_spec 0 total_score); [|lia].
    destruct (Z.ltb_spec 0 remaining_days) as [Hpos|Hzero]; simpl.
    + rewrite get_map_pair by (apply Hall, list_elem_of_here). simpl.
      destruct (truediv_small (remaining_days * score_of c) total_score)
        as (q & Hq & Hint); [|done|].
      { split; [specialize (Hscore c); nia|]. apply Hsmall, Hall, list_elem_of_here. }
      rewrite Hq. simpl. rewrite Hint.
      destruct (keys_get_Some days c Hc) as [d Hd]. rewrite Hd. simpl.
      assert (0 <= (remaining_days * score_of c) ÷ total_score).
      { apply Z.quot_pos; [|lia]. specialize (Hscore c). nia. }
      destruct (IH (set c (d + (remaining_days * score_of c) ÷ total_score) days))
        as (days' & Hrun & Hk & Hm & Hsum).
      { done. }
      { by rewrite keys_set_present. }
      { apply Forall_values_set; [done|].
        apply get_Some_values in Hd. rewrite Forall_forall in Hmin.
        specialize (Hmin d Hd). simpl in Hmin. lia. }
      exists days'. split; [done|]. split. { by rewrite Hk, keys_set_present. }
      split; [done|]. rewrite Hsum, (sum_values_set _ _ _ _ Hd).
      unfold Py.sumZ. simpl. lia.
    + destruct (IH days) as (days' & Hrun & Hk & Hm & Hsum); [done..|].
      by exists days'.
Qed.

(** The leftover pass hands out one day at a time, as long as days are
    left and destinations remain. *)
Lemma add_leftover_spec : ∀ sorted_countries days leftover,
  sorted_countries ⊆ keys days -> at_least_min (values days) ->
  ∃ days',
    add_leftover sorted_countries days leftover = Some days' ∧
    keys days' = keys days ∧ at_least_min (values days') ∧
    Py.sumZ (values days') =
      Py.sumZ (values days) + Z.min (Z.max leftover 0) (Z.of_nat (length sorted_countries)).
Proof.
  induction sorted_countries as [|c cs IH]; intros days leftover Hkeys Hmin.
  - exists days. simpl. repeat split; try done. lia.
  - cbn [add_leftover].
    destruct (Z.ltb_spec 0 leftover) as [Hpos|Hnone].
    + assert (Hc : c ∈ keys days) by (apply Hkeys, list_elem_of_here).
      destruct (keys_get_Some days c Hc) as [d Hd]. rewrite Hd. simpl.
      destruct (IH (set c (d + 1) days) (leftover - 1)) as (days' & Hrun & Hk & Hm & Hsum).
      { rewrite keys_set_present by done. intros x Hx. apply Hkeys. by apply list_elem_of_further. }
      { apply Forall_values_set; [done|].
        apply get_Some_values in Hd. rewrite Forall_forall in Hmin.
        specialize (Hmin d Hd). simpl in Hmin. lia. }
      exists days'. split; [done|]. split. { by rewrite Hk, keys_set_present. }
      split; [done|]. rewrite Hsum, (sum_values_set _ _ _ _ Hd).
      cbn [length]. lia.
    + exists days. repeat split; try done. lia.
Qed.
End Loops.

(** Sorting permutes. *)
Lemma insert_perm {A} (ltb : A -> A -> bool) x l : Py.insert ltb x l ≡ₚ x :: l.
Proof.
  induction l as [|y l IH]; simpl; [done|].
  destruct (ltb y x); [|done]. rewrite IH. apply Permutation_swap.
Qed.

Lemma sorted_perm {A} (ltb : A -> A -> bool) l : Py.sorted ltb l ≡ₚ l.
Proof.
  unfold Py.sorted. induction l as [|x l IH]; simpl; [done|].
  by rewrite insert_perm, IH.
Qed.

Lemma sorted_reverse_perm {A} (ltb : A -> A -> bool) l : Py.sorted_reverse ltb l ≡ₚ l.
Proof.
  unfold Py.sorted_reverse.
  rewrite <- Permutation_rev, sorted_perm. symmetry. apply Permutation_rev.
Qed.

Lemma score_of_nonneg data selected c : 0 <= score_of data selected c.
Proof. unfold score_of, interest_overlap. destruct (get data c); lia. Qed.

Lemma sumZ_nonneg l : Forall (fun s => 0 <= s) l -> 0 <= Py.sumZ l.
Proof. unfold Py.sumZ. induction 1; simpl; lia. Qed.

Lemma sumZ_const (v : Z) {A} (l : list A) : Py.sumZ (map (fun _ => v) l) = Z.of_nat (length l) * v.
Proof. unfold Py.sumZ. induction l; simpl length; simpl; lia. Qed.

Lemma total_score_nonneg data selected countries : 0 <= total_score_of data selected countries.
Proof.
  apply sumZ_nonneg, Forall_forall. intros s Hs.
  apply list_elem_of_In, in_map_iff in Hs as (c & <- & _). apply score_of_nonneg.
Qed.

Section Allocation.
Variable countries_data : dict CountryInfo.
Variable selected : gset string.

Lemma interest_scores_known countries :
  NoDup countries -> Forall (known countries_data) countries ->
  comprehension (fun c => calculate_interest_score countries_data c selected) countries
  = Some (map (fun c => (c, score_of countries_data selected c)) countries).
Proof.
  intros Hnd Hk. apply comprehension_distinct; [done|].
  intros c Hc. rewrite Forall_forall in Hk. destruct (Hk c Hc) as [d Hd].
  unfold calculate_interest_score, score_of. by rewrite Hd.
Qed.

(** The keys handed to [sorted] are the destinations themselves. *)
Lemma sort_keys_known (interest_scores days : dict Z) countries :
  countries ⊆ keys interest_scores -> countries ⊆ keys days ->
  ∃ keyed,
    mapM (fun x => s ← get interest_scores x; d ← get days x; Some (x, (s, - d)))
      countries = Some keyed ∧
    map fst keyed = countries.
Proof.
  induction countries as [|c cs IH]; intros Hs Hd.
  - by exists [].
  - destruct IH as (keyed & Hrun & Hfst).
    { intros x Hx. apply Hs. by apply list_elem_of_further. }
    { intros x Hx. apply Hd. by apply list_elem_of_further. }
    destruct (keys_get_Some interest_scores c) as [s Hsc]; [apply Hs, list_elem_of_here|].
    destruct (keys_get_Some days c) as [d Hdc]; [apply Hd, list_elem_of_here|].
    exists ((c, (s, - d)) :: keyed). split; [|simpl; by rewrite Hfst].
    apply mapM_Some_2. constructor.
    + by rewrite Hsc, Hdc.
    + by apply mapM_Some_1.
Qed.

Lemma sorted_countries_perm (keyed : list (string * (Z * Z))) ltb :
  map fst (Py.sorted_reverse ltb keyed) ≡ₚ map fst keyed.
Proof. apply Permutation_map, sorted_reverse_perm. Qed.

Lemma for_each_skip {A S} (body : S -> A -> option S) l s :
  (∀ s x, body s x = Some s) -> Py.for_each body l s = Some s.
Proof. intros H. induction l as [|x l IH]; simpl; [done|]. by rewrite H. Qed.

Lemma add_proportional_none interest_scores total_score remaining_days countries :
  remaining_days <= 0 -> ∀ days,
  add_proportional interest_scores total_score remaining_days countries days = Some days.
Proof.
  intros HR days. unfold add_proportional.
  assert (E : (0 <? remaining_days) = false) by (apply Z.ltb_ge; lia).
  apply for_each_skip. intros s x. by rewrite E, andb_false_r.
Qed.

Lemma add_leftover_none sorted_countries days leftover :
  leftover <= 0 -> add_leftover sorted_countries days leftover = Some days.
Proof.
  intros HL. destruct sorted_countries; [done|]. cbn [add_leftover].
  by destruct (Z.ltb_spec 0 leftover); [lia|].
Qed.

Lemma match_nonempty {A B} (l : list A) (x y : B) :
  l ≠ [] -> match l with [] => x | _ :: _ => y end = y.
Proof. by destruct l. Qed.

Variables (total_days : Z) (route : list string).
Abbreviation countries := (Py.interior route).
Abbreviation n := (Z.of_nat (length (Py.interior route))).
Hypothesis Hne : countries ≠ [].
Hypothesis Hnd : NoDup countries.
Hypothesis Hknown : Forall (known countries_data) countries.

Lemma distribute_days_zero_score :
  total_score_of countries_data selected countries = 0 ->
  distribute_days countries_data total_days route selected
  = Some (map (fun c => (c, Z.max (total_days `div` n) MIN_DAYS_PER_COUNTRY)) countries).
Proof.
  intros Hzero. unfold distribute_days.
  rewrite match_nonempty by done.
  rewrite interest_scores_known by done. simpl.
  rewrite values_map_pair. fold (total_score_of countries_data selected countries).
  rewrite Hzero. simpl. by apply comprehension_distinct.
Qed.

Lemma distribute_days_proportional :
  total_score_of countries_data selected countries ≠ 0 ->
  exact_shares countries_data selected countries (total_days - MIN_DAYS_PER_COUNTRY * n) ->
  ∃ allocation,
    distribute_days countries_data total_days route selected = Some allocation ∧
    keys allocation = countries ∧
    Forall (fun v => MIN_DAYS_PER_COUNTRY <= v) (values allocation) ∧
    (MIN_DAYS_PER_COUNTRY * n <= total_days -> Py.sumZ (values allocation) = total_days) ∧
    (total_days < MIN_DAYS_PER_COUNTRY * n ->
     allocation = map (fun c => (c, MIN_DAYS_PER_COUNTRY)) countries).
Proof.
  intros Hscore Hsmall.
  pose proof (total_score_nonneg countries_data selected countries) as Htot.
  unfold distribute_days.
  rewrite match_nonempty by done.
  rewrite interest_scores_known by done. simpl.
  rewrite values_map_pair. fold (total_score_of countries_data selected countries).
  destruct (Z.eqb_spec (total_score_of countries_data selected countries) 0) as [|_]; [done|].
  rewrite assign_minimum_distinct by done. simpl.
  set (scores := map (fun c => (c, score_of countries_data selected c)) countries).
  set (S := total_score_of countries_data selected countries) in *.
  set (R := total_days - MIN_DAYS_PER_COUNTRY * n).
  set (days1 := map (fun c => (c, MIN_DAYS_PER_COUNTRY)) countries).
  assert (Hk1 : keys days1 = countries) by apply keys_map_pair.
  assert (Hsum1 : Py.sumZ (values days1) = n * MIN_DAYS_PER_COUNTRY).
  { unfold days1. rewrite values_map_pair. apply sumZ_const. }
  assert (Hmin1 : Forall (fun v => MIN_DAYS_PER_COUNTRY <= v) (values days1)).
  { unfold days1. rewrite values_map_pair. apply Forall_forall. intros v Hv.
    apply list_elem_of_In, in_map_iff in Hv as (? & <- & _). lia. }
  assert (Hks : countries ⊆ keys scores) by (unfold scores; by rewrite keys_map_pair).
  destruct (Z_lt_le_dec R 0) as [Hneg|Hpos].
  - (* fewer days than the minimum stays need *)
    rewrite add_proportional_none by lia. simpl.
    destruct (sort_keys_known scores days1 countries) as (keyed & Hkeyed & Hfst);
      [done|by rewrite Hk1|].
    rewrite Hkeyed. simpl.
    rewrite add_leftover_none by (rewrite Hsum1; unfold R in Hneg; lia).
    exists days1. repeat split; try done.
    unfold R in Hneg. lia.
  - destruct (add_proportional_spec (score_of countries_data selected) countries S R)
      with (countries := countries) (days := days1)
      as (days2 & Hrun2 & Hk2 & Hmin2 & Hsum2); try done; try lia.
    { apply score_of_nonneg. } { by rewrite Hk1. }
    fold scores in Hrun2. rewrite Hrun2. simpl.
    destruct (sort_keys_known scores days2 countries) as (keyed & Hkeyed & Hfst);
      [done|by rewrite Hk2, Hk1|].
    rewrite Hkeyed. simpl.
    set (sorted_countries := map fst _).
    assert (Hperm : sorted_countries ≡ₚ countries).
    { unfold sorted_countries. by rewrite sorted_countries_perm, Hfst. }
    destruct (add_leftover_spec sorted_countries days2 (total_days - Py.sumZ (values days2)))
      as (days3 & Hrun3 & Hk3 & Hmin3 & Hsum3); [|done|].
    { rewrite Hk2, Hk1. intros x Hx. by rewrite <- Hperm. }
    exists days3. split; [done|]. split; [by rewrite Hk3, Hk2|]. split; [done|].
    split; [|unfold R in Hpos; lia].
    intros _. rewrite Hsum3, Hsum2, Hsum1.
    rewrite (Permutation_length Hperm).
    pose proof (shares_bound S R (map (score_of countries_data selected) countries)
                  ltac:(lia) Hpos) as Hb.
    rewrite map_map, length_map in Hb.
    fold (total_score_of countries_data selected countries) in Hb. fold S in Hb.
    destruct Hb as [Hb0 Hb].
    { apply Forall_forall. intros s Hs.
      apply list_elem_of_In, in_map_iff in Hs as (c & <- & _). apply score_of_nonneg. }
    set (shares := Py.sumZ _) in *.
    assert (n > 0). { destruct countries; [done|]. simpl length. lia. }
    destruct (Z.ltb_spec 0 R).
    + unfold R in *. nia.
    + unfold R in *. lia.
Qed.
End Allocation.

(** Assignments never lose a key. *)
Lemma keys_set_superset {V} (d : dict V) k v : keys d ⊆ keys (set k v d) ∧ k ∈ keys (set k v d).
Proof.
  destruct (decide (k ∈ keys d)) as [Hin|Hnot].
  - by rewrite keys_set_present.
  - rewrite set_fresh by done. unfold keys. rewrite map_app. simpl. split.
    + intros x Hx. apply elem_of_app. by left.
    + apply elem_of_app. right. apply list_elem_of_here.
Qed.

Lemma for_each_keys {V S} (body : S -> string -> option S) (dict_of : S -> dict V) ks :
  (∀ s k, k ∈ ks -> ∃ s', body s k = Some s' ∧
                        keys (dict_of s) ⊆ keys (dict_of s') ∧ k ∈ keys (dict_of s')) ->
  ∀ s, ∃ s', Py.for_each body ks s = Some s' ∧
             keys (dict_of s) ⊆ keys (dict_of s') ∧ ks ⊆ keys (dict_of s').
Proof.
  induction ks as [|k ks IH]; intros Hbody s.
  - exists s. split; [done|]. split; [done|]. intros x Hx. by apply not_elem_of_nil in Hx.
  - destruct (Hbody s k) as (s1 & H1 & Hsub1 & Hk1); [apply list_elem_of_here|].
    destruct (IH (fun s k Hk => Hbody s k (list_elem_of_further _ _ _ Hk)) s1)
      as (s2 & H2 & Hsub2 & Hks2).
    exists s2. simpl. rewrite H1. simpl. split; [done|]. split.
    + intros x Hx. by apply Hsub2, Hsub1.
    + intros x Hx. apply elem_of_cons in Hx as [->|Hx]; [by apply Hsub2|by apply Hks2].
Qed.

Section Total.
Variable countries_data : dict CountryInfo.
Variable selected : gset string.

Lemma comprehension_keys {V} (f : string -> option V) ks :
  (∀ k, k ∈ ks -> is_Some (f k)) ->
  ∃ d, comprehension f ks = Some d ∧ ks ⊆ keys d.
Proof.
  intros Hf. unfold comprehension.
  destruct (for_each_keys (V := V) (fun d k => v ← f k; Some (set k v d)) (fun d => d) ks)
    with (s := ([] : dict V)) as (d & Hrun & _ & Hks).
  { intros d k Hk. destruct (Hf k Hk) as [v Hv]. exists (set k v d).
    rewrite Hv. split; [done|]. apply keys_set_superset. }
  by exists d.
Qed.

Lemma assign_minimum_remaining countries : ∀ (acc : dict Z) (total_days : Z) days r,
  Py.for_each
    (fun '(days, remaining_days) c =>
       Some (set c MIN_DAYS_PER_COUNTRY days, remaining_days - MIN_DAYS_PER_COUNTRY))
    countries (acc, total_days) = Some (days, r) ->
  r = total_days - MIN_DAYS_PER_COUNTRY * Z.of_nat (length countries).
Proof.
  induction countries as [|c cs IH]; intros acc total_days days r Hrun.
  - injection Hrun as _ <-. simpl. lia.
  - cbn [Py.for_each] in Hrun. simpl in Hrun. apply IH in Hrun.
    rewrite Hrun. cbn [length]. lia.
Qed.

Lemma assign_minimum_keys countries total_days :
  ∃ days,
    assign_minimum countries total_days
    = Some (days, total_days - MIN_DAYS_PER_COUNTRY * Z.of_nat (length countries)) ∧
    countries ⊆ keys days.
Proof.
  unfold assign_minimum.
  destruct (for_each_keys (V := Z)
              (fun '(days, remaining_days) c =>
                 Some (set c MIN_DAYS_PER_COUNTRY days, remaining_days - MIN_DAYS_PER_COUNTRY))
              fst countries) with (s := (([] : dict Z), total_days))
    as ([days r] & Hrun & _ & Hks).
  { intros [d r] k Hk. eexists. split; [done|]. apply keys_set_superset. }
  exists days. split; [|done].
  pose proof (assign_minimum_remaining _ _ _ _ _ Hrun) as Hr. by rewrite <- Hr.
Qed.

Lemma comprehension_get {V} (f : string -> option V) ks : ∀ (acc d : dict V),
  Py.for_each (fun d k => v ← f k; Some (set k v d)) ks acc = Some d ->
  (∀ k v, get acc k = Some v -> f k = Some v) ->
  ∀ k v, get d k = Some v -> f k = Some v.
Proof.
  assert (Hset : ∀ (d : dict V) k v k' v',
            get (set k v d) k' = Some v' -> (k' = k ∧ v' = v) ∨ get d k' = Some v').
  { induction d as [|[k0 v0] d IH]; intros k v k' v'; simpl.
    - destruct (decide (k' = k)) as [->|]; [|done]. intros [= <-]. by left.
    - destruct (decide (k = k0)) as [->|Hne]; simpl.
      + destruct (decide (k' = k0)) as [->|]; [intros [= <-]; by left|]. by right.
      + destruct (decide (k' = k0)) as [->|]; [by right|]. apply IH. }
  induction ks as [|k0 ks IH]; intros acc d Hrun Hacc k v Hget.
  - injection Hrun as <-. by apply Hacc.
  - cbn [Py.for_each] in Hrun. destruct (f k0) as [v0|] eqn:Hf; simpl in Hrun; [|done].
    eapply IH; [exact Hrun| |exact Hget].
    intros k' v' Hg. apply Hset in Hg as [[-> ->]|Hg]; [done|by apply Hacc].
Qed.

Lemma add_proportional_keys interest_scores total_score remaining_days countries :
  countries ⊆ keys interest_scores ->
  (0 < total_score -> 0 < remaining_days ->
   ∀ c s, c ∈ countries -> get interest_scores c = Some s ->
     is_Some (Py.truediv (remaining_days * s) total_score)) ->
  ∀ days, countries ⊆ keys days ->
  ∃ days', add_proportional interest_scores total_score remaining_days countries days
           = Some days' ∧ keys days' = keys days.
Proof.
  intros Hs Hdiv. unfold add_proportional.
  induction countries as [|c cs IH]; intros days Hd; [by exists days|].
  cbn [Py.for_each].
  assert (Hcs : cs ⊆ keys interest_scores).
  { intros x Hx. apply Hs. by apply list_elem_of_further. }
  assert (Hdiv' : 0 < total_score -> 0 < remaining_days ->
            ∀ c s, c ∈ cs -> get interest_scores c = Some s ->
            is_Some (Py.truediv (remaining_days * s) total_score)).
  { intros Ht Hr x s Hx. apply Hdiv; [done|done|]. by apply list_elem_of_further. }
  destruct ((0 <? total_score) && (0 <? remaining_days)) eqn:Hguard.
  - apply andb_true_iff in Hguard as [Ht Hr]. apply Z.ltb_lt in Ht, Hr.
    destruct (keys_get_Some interest_scores c) as [s Hsc]; [apply Hs, list_elem_of_here|].
    destruct (keys_get_Some days c) as [d Hdc]; [apply Hd, list_elem_of_here|].
    destruct (Hdiv Ht Hr c s (list_elem_of_here _ _) Hsc) as [q Hq].
    rewrite Hsc. simpl. rewrite Hq. simpl. rewrite Hdc. simpl.
    set (days1 := set c _ days).
    assert (Hk1 : keys days1 = keys days).
    { apply keys_set_present. apply Hd, list_elem_of_here. }
    destruct (IH Hcs Hdiv' days1) as (days' & Hrun & Hk).
    { rewrite Hk1. intros x Hx. apply Hd. by apply list_elem_of_further. }
    exists days'. split; [done|]. by rewrite Hk.
  - simpl. apply IH; [done|done|]. intros x Hx. apply Hd. by apply list_elem_of_further.
Qed.

Lemma add_leftover_keys : ∀ sorted_countries days leftover,
  sorted_countries ⊆ keys days ->
  is_Some (add_leftover sorted_countries days leftover).
Proof.
  induction sorted_countries as [|c cs IH]; intros days leftover Hd; [by eexists|].
  cbn [add_leftover]. destruct (0 <? leftover); [|by eexists].
  destruct (keys_get_Some days c) as [d Hdc]; [apply Hd, list_elem_of_here|].
  rewrite Hdc. simpl. apply IH. rewrite keys_set_present by apply Hd, list_elem_of_here.
  intros x Hx. apply Hd. by apply list_elem_of_further.
Qed.

(** The allocator raises nothing on destinations of the catalog whose
    shares stay in the range where the float quotient is exact. *)
Lemma distribute_days_known total_days route :
  Forall (known countries_data) (Py.interior route) ->
  exact_shares countries_data selected (Py.interior route)
    (total_days - MIN_DAYS_PER_COUNTRY * Z.of_nat (length (Py.interior route))) ->
  is_Some (distribute_days countries_data total_days route selected).
Proof.
  intros Hk Hsmall. unfold distribute_days.
  destruct (Py.interior route) as [|c0 cs] eqn:Hint; [by eexists|].
  rewrite <- Hint in *. clear Hint c0 cs.
  destruct (comprehension_keys
              (fun c => calculate_interest_score countries_data c selected)
              (Py.interior route)) as (scores & Hscores & Hsk).
  { intros c Hc. rewrite Forall_forall in Hk. destruct (Hk c Hc) as [d Hd].
    unfold calculate_interest_score. rewrite Hd. by eexists. }
  rewrite Hscores. simpl.
  destruct (Z.eqb_spec (Py.sumZ (values scores)) 0) as [|Hscore].
  { destruct (comprehension_keys
                (fun _ => Some (Z.max (total_days `div` Z.of_nat (length (Py.interior route)))
                                      MIN_DAYS_PER_COUNTRY))
                (Py.interior route)) as (days & -> & _); by eexists. }
  destruct (assign_minimum_keys (Py.interior route) total_days) as (days1 & -> & Hk1).
  simpl.
  set (r := total_days - MIN_DAYS_PER_COUNTRY * Z.of_nat (length (Py.interior route))) in *.
  destruct (add_proportional_keys scores (Py.sumZ (values scores)) r (Py.interior route)
              Hsk) with (days := days1) as (days2 & Hrun2 & Hk2); [|done|].
  { intros Hpos Hr c s Hc Hs.
    assert (Hsc : s = score_of countries_data selected c).
    { unfold comprehension in Hscores.
      pose proof (comprehension_get _ _ _ _ Hscores ltac:(done) c s Hs) as Hf.
      unfold calculate_interest_score, score_of in *.
      destruct (get countries_data c); simpl in Hf; [by injection Hf|done]. }
    subst s. pose proof (score_of_nonneg countries_data selected c).
    destruct (truediv_small (r * score_of countries_data selected c)
                (Py.sumZ (values scores))) as (q & -> & _); [|lia|by eexists].
    split; [nia|by apply Hsmall]. }
  rewrite Hrun2. simpl.
  destruct (sort_keys_known scores days2 (Py.interior route)) as (keyed & -> & Hfst);
    [done|by rewrite Hk2|].
  simpl. apply add_leftover_keys. rewrite Hk2.
  intros x Hx. apply Hk1. rewrite <- Hfst.
  by rewrite <- (sorted_countries_perm keyed (fun a b => Py.pair_ltb (snd a) (snd b))).
Qed.
End Total.

Lemma exact_shares_Forall (data : dict CountryInfo) (selected : gset string)
    (stops : list string) (spare : Z) :
  Forall (fun c => spare * score_of data selected c < 2 ^ 53) stops ->
  exact_shares data selected stops spare.
Proof. intros H c Hc. rewrite Forall_forall in H. by apply H. Qed.

(** Nothing is divided when no day is spare. *)
Lemma exact_shares_no_spare (data : dict CountryInfo) (selected : gset string)
    (stops : list string) (spare : Z) :
  spare <= 0 -> exact_shares data selected stops spare.
Proof.
  intros Hs c _. pose proof (score_of_nonneg data selected c).
  assert (0 < 2 ^ 53) by by apply Z.pow_pos_nonneg. nia.
Qed.

(** ** Router *)

Lemma remove_elem x l :
  x ∈ l -> ∃ l', Py.remove x l = Some l' ∧ l ≡ₚ x :: l'.
Proof.
  induction l as [|y l IH]; intros H.
  - by apply not_elem_of_nil in H.
  - simpl. destruct (decide (x = y)) as [->|Hne]; [by exists l|].
    apply elem_of_cons in H as [?|H]; [done|].
    destruct (IH H) as (l' & -> & Hp). exists (y :: l'). split; [done|].
    rewrite Hp. apply Permutation_swap.
Qed.

Lemma foldM_invariant {D A S} (I : S -> Prop) (body : S -> A -> M D S) l :
  (∀ s x cache, x ∈ l -> I s -> ∃ s' cache', body s x cache = Some (s', cache') ∧ I s') ->
  ∀ s cache, I s -> ∃ s' cache', foldM body l s cache = Some (s', cache') ∧ I s'.
Proof.
  induction l as [|x l IH]; intros Hbody s cache Hs.
  - by exists s, cache.
  - destruct (Hbody s x cache) as (s1 & c1 & H1 & Hs1); [apply list_elem_of_here|done|].
    destruct (IH (fun s x c Hx => Hbody s x c (list_elem_of_further _ _ _ Hx)) s1 c1 Hs1)
      as (s2 & c2 & H2 & Hs2).
    exists s2, c2. split; [|done]. simpl. unfold bind. by rewrite H1.
Qed.

Lemma bind_Some {D A B} (m : M D A) (k : A -> M D B) (c : gmap (string * string) D) r :
  bind m k c = Some r -> ∃ a c1, m c = Some (a, c1) ∧ k a c1 = Some r.
Proof. unfold bind. destruct (m c) as [[a c1]|]; [|done]. eauto. Qed.

Lemma lift_Some {D A} (o : option A) (c : gmap (string * string) D) a c' :
  lift o c = Some (a, c') -> o = Some a ∧ c' = c.
Proof. unfold lift. destruct o; [|done]. intros [= -> ->]. done. Qed.

Lemma remove_Some x l l' : Py.remove x l = Some l' -> l ≡ₚ x :: l'.
Proof.
  revert l'. induction l as [|y l IH]; intros l'; simpl; [done|].
  destruct (decide (x = y)) as [->|Hne]; [by intros [= ->]|].
  destruct (Py.remove x l) as [l0|]; simpl; [|done]. intros [= <-].
  rewrite (IH l0 eq_refl). apply Permutation_swap.
Qed.

Lemma foldM_preserves {D A S : Type} (I : S -> gmap (string * string) D -> Prop)
    (body : S -> A -> M D S) (l : list A) :
  (∀ s x c s' c', x ∈ l -> I s c -> body s x c = Some (s', c') -> I s' c') ->
  ∀ s c s' c', I s c -> foldM body l s c = Some (s', c') -> I s' c'.
Proof.
  induction l as [|x l IH]; intros Hbody s c s' c' Hs Hrun.
  - by injection Hrun as <- <-.
  - simpl in Hrun. apply bind_Some in Hrun as (s1 & c1 & H1 & Hrun).
    eapply (IH (fun s x c s' c' Hx => Hbody s x c s' c' (list_elem_of_further _ _ _ Hx)));
      [|exact Hrun].
    eapply Hbody; [apply list_elem_of_here|exact Hs|exact H1].
Qed.

Lemma distances_defined_subseteq {D} (haversine : Q * Q -> Q * Q -> option D)
    (data : dict CountryInfo) (stops stops' : list string) :
  stops' ⊆ stops -> distances_defined haversine data stops ->
  distances_defined haversine data stops'.
Proof.
  intros Hsub Hdef a b ia ib Ha Hb. apply Hdef; by apply Hsub.
Qed.

(** The router on stops of the catalog between which every distance is
    defined: [stops] are those stops. *)
Section Routing.
Context {D : Type}.
Variable haversine_distance : Q * Q -> Q * Q -> option D.
Variable d_zero : D.
Variable d_add : D -> D -> D.
Variable d_ltb : D -> D -> bool.
Variable countries_data : dict CountryInfo.
Variable stops : list string.
Hypothesis Hstops : Forall (known countries_data) stops.
Hypothesis Hdef : distances_defined haversine_distance countries_data stops.

Abbreviation known := (fun x : string => x ∈ stops).
Abbreviation get_distance := (get_distance haversine_distance countries_data).

Lemma get_distance_known (a b : string) (c : gmap (string * string) D) :
  a ∈ stops -> b ∈ stops -> ∃ d c', get_distance a b c = Some (d, c').
Proof.
  intros Ha Hb.
  destruct (proj1 (Forall_forall _ _) Hstops a Ha) as [da Hda].
  destruct (proj1 (Forall_forall _ _) Hstops b Hb) as [db Hdb].
  destruct (Hdef a b da db Ha Hb Hda Hdb) as [d Hd].
  unfold TourOptimizer.get_distance.
  destruct (c !! (a, b)); [eauto|]. destruct (c !! (b, a)); [eauto|].
  rewrite Hda, Hdb. simpl. rewrite Hd. simpl. eauto.
Qed.

Lemma route_distance_loop_known route : ∀ total (c : gmap (string * string) D),
  Forall known route ->
  ∃ d c', route_distance_loop haversine_distance d_add countries_data route total c
          = Some (d, c').
Proof.
  induction route as [|a rest IH]; intros total c Hk; [by eexists _, _|].
  destruct rest as [|b rest']; [by eexists _, _|].
  inversion Hk as [|? ? Ha Hrest]; subst. inversion Hrest as [|? ? Hb _]; subst.
  destruct (get_distance_known a b c Ha Hb) as (d & c1 & Hd).
  cbn [route_distance_loop]. unfold bind. rewrite Hd. apply IH, Hrest.
Qed.

Lemma min_loop_elem current items : ∀ best best_key (c : gmap (string * string) D),
  known current -> Forall known items ->
  ∃ nearest c', min_loop haversine_distance d_ltb countries_data current items best best_key c
                = Some (nearest, c') ∧ nearest ∈ best :: items.
Proof.
  induction items as [|x items IH]; intros best best_key c Hc Hk.
  - exists best, c. split; [done|]. apply list_elem_of_here.
  - inversion Hk as [|? ? Hx Hitems]; subst.
    destruct (get_distance_known current x c Hc Hx) as (k & c1 & Hd).
    cbn [min_loop]. unfold bind. rewrite Hd.
    destruct (d_ltb k best_key).
    + destruct (IH x k c1 Hc Hitems) as (nearest & c' & Hrun & Hin).
      exists nearest, c'. split; [done|]. by apply list_elem_of_further.
    + destruct (IH best best_key c1 Hc Hitems) as (nearest & c' & Hrun & Hin).
      exists nearest, c'. split; [done|].
      apply elem_of_cons in Hin as [->|Hin]; [apply list_elem_of_here|].
      by do 2 apply list_elem_of_further.
Qed.

Lemma nearest_to_elem (current : string) (to_visit : list string)
    (c : gmap (string * string) D) :
  to_visit ≠ [] -> known current -> Forall known to_visit ->
  ∃ nearest c', nearest_to haversine_distance d_ltb countries_data current to_visit c
                = Some (nearest, c') ∧ nearest ∈ to_visit.
Proof.
  intros Hne Hc Hk. destruct to_visit as [|x items]; [done|].
  inversion Hk as [|? ? Hx Hitems]; subst.
  destruct (get_distance_known current x c Hc Hx) as (k & c1 & Hd).
  unfold nearest_to, bind. rewrite Hd. by apply min_loop_elem.
Qed.

(** The construction loop visits every pending destination once. *)
Lemma nn_loop_visits fuel : ∀ to_visit route current (c : gmap (string * string) D),
  (length to_visit <= fuel)%nat -> known current -> Forall known to_visit ->
  ∃ visited c',
    nn_loop haversine_distance d_ltb countries_data fuel to_visit route current c
    = Some (route ++ visited, c') ∧ visited ≡ₚ to_visit.
Proof.
  induction fuel as [|fuel IH]; intros to_visit route current c Hlen Hc Hk.
  - destruct to_visit; [|simpl in Hlen; lia]. exists [], c. by rewrite app_nil_r.
  - destruct to_visit as [|x rest]. { exists [], c. by rewrite app_nil_r. }
    destruct (nearest_to_elem current (x :: rest) c) as (nearest & c1 & Hnear & Hin);
      [done..|].
    destruct (remove_elem nearest (x :: rest) Hin) as (to_visit' & Hrem & Hperm).
    pose proof (Permutation_Forall Hperm Hk) as Hk'.
    inversion Hk' as [|? ? Hn Hk'']; subst.
    destruct (IH to_visit' (route ++ [nearest]) nearest c1) as (visited & c' & Hrun & Hv);
      [|done|done|].
    { apply Permutation_length in Hperm. simpl in Hperm, Hlen. lia. }
    exists (nearest :: visited), c'. split.
    + cbn [nn_loop]. unfold bind, lift.
      rewrite Hnear, Hrem, Hrun. by rewrite <- app_assoc.
    + by rewrite Hperm, Hv.
Qed.

Lemma nearest_neighbor_tsp_route (countries : list string) (home : string)
    (c : gmap (string * string) D) :
  home ∈ stops -> Forall known countries ->
  ∃ visited c',
    nearest_neighbor_tsp haversine_distance d_ltb countries_data countries home c
    = Some (home :: visited ++ [home], c') ∧
    visited ≡ₚ filter (fun x => x ≠ home) countries.
Proof.
  intros Hh Hk. unfold nearest_neighbor_tsp.
  destruct (filter (fun x => x ≠ home) countries) as [|x rest] eqn:Hf.
  { by exists [], c. }
  rewrite <- Hf.
  destruct (nn_loop_visits (length (filter (fun x => x ≠ home) countries))
              (filter (fun x => x ≠ home) countries) [home] home c)
    as (visited & c' & Hrun & Hv); [done|done| |].
  { rewrite Forall_forall in Hk |- *. intros y Hy.
    apply list_elem_of_filter in Hy as [_ Hy]. by apply Hk. }
  exists visited, c'. split; [|done]. unfold bind. by rewrite Hrun.
Qed.
End Routing.

(** Reversing an interior segment keeps both endpoints and permutes the
    interior. *)
Lemma reverse_segment_framed (home : string) (p : list string) (i j : nat) :
  (1 <= i)%nat -> (i <= j)%nat -> (j <= length p)%nat ->
  ∃ p', reverse_segment (home :: p ++ [home]) i j = home :: p' ++ [home] ∧ p' ≡ₚ p.
Proof.
  intros Hi Hij Hj. destruct i as [|i]; [lia|].
  exists (take i p ++ rev (take (j - i) (drop i p)) ++ drop j p). split.
  - unfold reverse_segment. rewrite Nat.add_1_r. cbn [take drop].
    replace (S j - S i)%nat with (j - i)%nat by lia.
    rewrite (take_app_le p) by lia. rewrite !(drop_app_le p) by lia.
    rewrite take_app_le by (rewrite length_drop; lia).
    by rewrite <- !app_assoc.
  - rewrite <- (Permutation_rev (take (j - i) (drop i p))).
    assert (Hd : drop j p = drop (j - i) (drop i p)).
    { rewrite drop_drop. f_equal. lia. }
    by rewrite Hd, !take_drop.
Qed.

Section TwoOpt.
Context {D : Type}.
Variable haversine_distance : Q * Q -> Q * Q -> option D.
Variable d_zero : D.
Variable d_add : D -> D -> D.
Variable d_ltb : D -> D -> bool.
Variable countries_data : dict CountryInfo.
Variable stops : list string.
Hypothesis Hstops : Forall (known countries_data) stops.
Hypothesis Hdef : distances_defined haversine_distance countries_data stops.
Variable home : string.
Variable interior : list string.
Hypothesis Hhome : home ∈ stops.
Hypothesis Hinterior : Forall (fun x => x ∈ stops) interior.

Abbreviation framed := (@framed D home interior).

Lemma framed_known p : p ≡ₚ interior -> Forall (fun x => x ∈ stops) (home :: p ++ [home]).
Proof.
  intros Hp. constructor; [done|]. apply Forall_app. split; [|by constructor].
  symmetry in Hp. exact (Permutation_Forall Hp Hinterior).
Qed.

Lemma try_reversal_framed (i : nat) (st : @two_opt_state D) (j : nat) (c : gmap (string * string) D) :
  (1 <= i)%nat -> (i <= j)%nat -> (j <= length interior)%nat -> framed st ->
  ∃ st' c', try_reversal haversine_distance d_zero d_add d_ltb countries_data i st j c
            = Some (st', c') ∧ framed st'.
Proof.
  intros Hi Hij Hj Hst. destruct st as [[best_route best_distance] improved].
  destruct Hst as (p & Hroute & Hp). simpl in Hroute. subst best_route.
  destruct (reverse_segment_framed home p i j) as (p' & Hrev & Hp'); [lia..| |].
  { by rewrite (Permutation_length Hp). }
  destruct (route_distance_loop_known haversine_distance d_add countries_data stops
              Hstops Hdef (home :: p' ++ [home]) d_zero c) as (d & c' & Hd).
  { apply framed_known. by rewrite Hp'. }
  unfold try_reversal, bind, _route_total_distance. rewrite Hrev, Hd.
  destruct (d_ltb d best_distance).
  - eexists _, _. split; [done|]. exists p'. split; [done|]. by rewrite Hp'.
  - eexists _, _. split; [done|]. by exists p.
Qed.

Lemma framed_length st : framed st -> length (fst (fst st)) = (length interior + 2)%nat.
Proof.
  intros (p & -> & Hp). simpl. rewrite length_app, (Permutation_length Hp). simpl. lia.
Qed.

Lemma inner_loop_framed (st : @two_opt_state D) (i : nat) (c : gmap (string * string) D) :
  (1 <= i)%nat -> framed st ->
  ∃ st' c', inner_loop haversine_distance d_zero d_add d_ltb countries_data st i c
            = Some (st', c') ∧ framed st'.
Proof.
  intros Hi Hst. unfold inner_loop. rewrite (framed_length st Hst).
  apply (foldM_invariant framed); [|done].
  intros s j c0 Hj Hs. apply elem_of_seq in Hj.
  apply try_reversal_framed; [lia..|done].
Qed.

Lemma sweep_framed (st : @two_opt_state D) (c : gmap (string * string) D) :
  framed st ->
  ∃ st' c', sweep haversine_distance d_zero d_add d_ltb countries_data st c
            = Some (st', c') ∧ framed st'.
Proof.
  intros Hst. unfold sweep. apply (foldM_invariant framed); [|done].
  intros s i c0 Hi Hs. apply elem_of_seq in Hi. apply inner_loop_framed; [lia|done].
Qed.

Lemma two_opt_loop_framed iterations_left : ∀ (st : @two_opt_state D) (c : gmap (string * string) D),
  framed st ->
  ∃ p c', two_opt_loop haversine_distance d_zero d_add d_ltb countries_data
            iterations_left st c = Some (home :: p ++ [home], c') ∧ p ≡ₚ interior.
Proof.
  induction iterations_left as [|k IH]; intros [[best_route best_distance] improved] c Hst.
  - destruct Hst as (p & Hroute & Hp). simpl in Hroute. subst. by exists p, c.
  - cbn [two_opt_loop]. destruct improved.
    + destruct (sweep_framed (best_route, best_distance, false) c) as (st' & c1 & Hsw & Hst').
      { destruct Hst as (p & Hroute & Hp). by exists p. }
      unfold bind. rewrite Hsw. by apply IH.
    + destruct Hst as (p & Hroute & Hp). simpl in Hroute. subst. by exists p, c.
Qed.

Lemma two_opt_improve_framed (p : list string) (c : gmap (string * string) D) :
  p ≡ₚ interior ->
  ∃ p' c', two_opt_improve haversine_distance d_zero d_add d_ltb countries_data
             (home :: p ++ [home]) c = Some (home :: p' ++ [home], c') ∧ p' ≡ₚ interior.
Proof.
  intros Hp. unfold two_opt_improve.
  destruct (length (home :: p ++ [home]) <=? 4)%nat; [by exists p, c|].
  destruct (route_distance_loop_known haversine_distance d_add countries_data stops
              Hstops Hdef (home :: p ++ [home]) d_zero c (framed_known p Hp))
    as (d & c1 & Hd).
  unfold bind, _route_total_distance. rewrite Hd.
  apply two_opt_loop_framed. by exists p.
Qed.
End TwoOpt.

(** What the router returns, when it returns: nothing is assumed of the
    catalog or of the distances. *)
Section RouteShape.
Context {D : Type}.
Variable haversine_distance : Q * Q -> Q * Q -> option D.
Variable d_zero : D.
Variable d_add : D -> D -> D.
Variable d_ltb : D -> D -> bool.
Variable countries_data : dict CountryInfo.

Lemma nn_loop_shape fuel : ∀ to_visit route current (c : gmap (string * string) D) r c',
  nn_loop haversine_distance d_ltb countries_data fuel to_visit route current c
  = Some (r, c') ->
  ∃ visited, r = route ++ visited ∧ visited ≡ₚ to_visit.
Proof.
  induction fuel as [|fuel IH]; intros to_visit route current c r c' Hrun.
  - destruct to_visit; [|done]. injection Hrun as <- <-. exists []. by rewrite app_nil_r.
  - destruct to_visit as [|x rest] eqn:Hw.
    { injection Hrun as <- <-. exists []. by rewrite app_nil_r. }
    rewrite <- Hw in *. rewrite Hw in Hrun at 1. cbn [nn_loop] in Hrun. rewrite <- Hw in Hrun.
    apply bind_Some in Hrun as (nearest & c1 & _ & Hrun).
    apply bind_Some in Hrun as (to_visit' & c2 & Hrem & Hrun).
    apply lift_Some in Hrem as [Hrem ->]. apply remove_Some in Hrem.
    apply IH in Hrun as (visited & -> & Hv).
    exists (nearest :: visited). split; [by rewrite <- app_assoc|]. by rewrite Hrem, Hv.
Qed.

(** The construction loop never runs out of iterations: with as many as
    there are pending destinations, it behaves as with any larger
    number. *)
Lemma nn_loop_fuel fuel : ∀ fuel' to_visit route current (c : gmap (string * string) D),
  (length to_visit <= fuel)%nat -> (length to_visit <= fuel')%nat ->
  nn_loop haversine_distance d_ltb countries_data fuel to_visit route current c
  = nn_loop haversine_distance d_ltb countries_data fuel' to_visit route current c.
Proof.
  induction fuel as [|fuel IH]; intros fuel' to_visit route current c Hlen Hlen'.
  - destruct to_visit; [|simpl in Hlen; lia]. by destruct fuel'.
  - destruct to_visit as [|x rest] eqn:Hw. { by destruct fuel'. }
    rewrite <- Hw in *.
    destruct fuel' as [|fuel']; [rewrite Hw in Hlen'; simpl in Hlen'; lia|].
    assert (Hstep : ∀ n,
              nn_loop haversine_distance d_ltb countries_data (S n) to_visit route current c
              = bind (nearest_to haversine_distance d_ltb countries_data current to_visit)
                  (fun nearest =>
                     bind (lift (Py.remove nearest to_visit))
                       (fun to_visit' =>
                          nn_loop haversine_distance d_ltb countries_data n to_visit'
                            (route ++ [nearest]) nearest)) c).
    { intros n. by rewrite Hw. }
    rewrite !Hstep. unfold bind at 1 3.
    destruct (nearest_to _ _ _ current to_visit c) as [[nearest c1]|]; [|done].
    unfold bind, lift. destruct (Py.remove nearest to_visit) as [to_visit'|] eqn:Hrem;
      [|done].
    apply remove_Some, Permutation_length in Hrem. simpl in Hrem. apply IH; lia.
Qed.

Lemma nearest_neighbor_tsp_shape (countries : list string) (home : string)
    (c : gmap (string * string) D) route c' :
  nearest_neighbor_tsp haversine_distance d_ltb countries_data countries home c
  = Some (route, c') ->
  ∃ visited, route = home :: visited ++ [home] ∧
             visited ≡ₚ filter (fun x => x ≠ home) countries.
Proof.
  unfold nearest_neighbor_tsp.
  destruct (filter (fun x => x ≠ home) countries) as [|x rest] eqn:Hf.
  { intros [= <- <-]. by exists []. }
  rewrite <- Hf. intros Hrun.
  apply bind_Some in Hrun as (r & c1 & Hrun & [= <- <-]).
  apply nn_loop_shape in Hrun as (visited & -> & Hv). by exists visited.
Qed.

Section TwoOptShape.
Variable home : string.
Variable interior : list string.

Abbreviation framed := (@framed D home interior).

Lemma try_reversal_shape (i : nat) (st : @two_opt_state D) (j : nat)
    (c : gmap (string * string) D) st' c' :
  (1 <= i)%nat -> (i <= j)%nat -> (j <= length interior)%nat -> framed st ->
  try_reversal haversine_distance d_zero d_add d_ltb countries_data i st j c
  = Some (st', c') ->
  framed st'.
Proof.
  intros Hi Hij Hj Hst Hrun. destruct st as [[best_route best_distance] improved].
  destruct Hst as (p & Hroute & Hp). simpl in Hroute. subst best_route.
  destruct (reverse_segment_framed home p i j) as (p' & Hrev & Hp'); [lia..| |].
  { by rewrite (Permutation_length Hp). }
  cbn [try_reversal] in Hrun. apply bind_Some in Hrun as (d & c1 & _ & Hrun).
  rewrite Hrev in Hrun. destruct (d_ltb d best_distance); injection Hrun as <- <-.
  - exists p'. split; [done|]. by rewrite Hp'.
  - by exists p.
Qed.

Lemma shape_length st : framed st -> length (fst (fst st)) = (length interior + 2)%nat.
Proof.
  intros (p & -> & Hp). simpl. rewrite length_app, (Permutation_length Hp). simpl. lia.
Qed.

Lemma inner_loop_shape (st : @two_opt_state D) (i : nat) (c : gmap (string * string) D)
    st' c' :
  (1 <= i)%nat -> framed st ->
  inner_loop haversine_distance d_zero d_add d_ltb countries_data st i c = Some (st', c') ->
  framed st'.
Proof.
  intros Hi Hst. unfold inner_loop. rewrite (shape_length st Hst).
  apply (foldM_preserves (fun s _ => framed s)); [|done].
  intros s j c0 s0 c0' Hj Hs. apply elem_of_seq in Hj.
  apply try_reversal_shape; [lia..|done].
Qed.

Lemma sweep_shape (st : @two_opt_state D) (c : gmap (string * string) D) st' c' :
  framed st ->
  sweep haversine_distance d_zero d_add d_ltb countries_data st c = Some (st', c') ->
  framed st'.
Proof.
  intros Hst. unfold sweep. rewrite (shape_length st Hst).
  apply (foldM_preserves (fun s _ => framed s)); [|done].
  intros s i c0 s0 c0' Hi Hs. apply elem_of_seq in Hi. apply inner_loop_shape; [lia|done].
Qed.

Lemma two_opt_loop_shape iterations_left :
  ∀ (st : @two_opt_state D) (c : gmap (string * string) D) route c',
  framed st ->
  two_opt_loop haversine_distance d_zero d_add d_ltb countries_data iterations_left st c
  = Some (route, c') ->
  ∃ p, route = home :: p ++ [home] ∧ p ≡ₚ interior.
Proof.
  induction iterations_left as [|k IH];
    intros [[best_route best_distance] improved] c route c' Hst Hrun.
  - injection Hrun as <- <-. exact Hst.
  - cbn [two_opt_loop] in Hrun. destruct improved.
    + apply bind_Some in Hrun as (st' & c1 & Hsw & Hrun).
      eapply IH; [|exact Hrun]. eapply sweep_shape; [|exact Hsw].
      destruct Hst as (p & Hroute & Hp). by exists p.
    + injection Hrun as <- <-. exact Hst.
Qed.

Lemma two_opt_improve_shape (p : list string) (c : gmap (string * string) D) route c' :
  p ≡ₚ interior ->
  two_opt_improve haversine_distance d_zero d_add d_ltb countries_data
    (home :: p ++ [home]) c = Some (route, c') ->
  ∃ p', route = home :: p' ++ [home] ∧ p' ≡ₚ interior.
Proof.
  intros Hp. unfold two_opt_improve.
  destruct (length (home :: p ++ [home]) <=? 4)%nat.
  { intros [= <- <-]. by exists p. }
  intros Hrun. apply bind_Some in Hrun as (d & c1 & _ & Hrun).
  eapply two_opt_loop_shape; [|exact Hrun]. by exists p.
Qed.
End TwoOptShape.

Lemma solve_tsp_shape (countries : list string) (home : string)
    (c : gmap (string * string) D) route c' :
  solve_tsp haversine_distance d_zero d_add d_ltb countries_data countries home c
  = Some (route, c') ->
  ∃ visited, route = home :: visited ++ [home] ∧
             visited ≡ₚ filter (fun x => x ≠ home) countries.
Proof.
  intros Hrun. unfold solve_tsp in Hrun.
  apply bind_Some in Hrun as (initial & c1 & Hnn & Hopt).
  apply nearest_neighbor_tsp_shape in Hnn as (p & -> & Hp).
  eapply two_opt_improve_shape; [exact Hp|exact Hopt].
Qed.

(** Where the distance from home to the only destination cannot be
    computed, the router raises. *)
Lemma solve_tsp_one_raises (x home : string) (ix ih : CountryInfo) :
  x ≠ home ->
  get countries_data home = Some ih -> get countries_data x = Some ix ->
  haversine_distance (coordinates ih) (coordinates ix) = None ->
  solve_tsp haversine_distance d_zero d_add d_ltb countries_data [x] home ∅ = None.
Proof.
  intros Hne Hh Hx Hraise. unfold solve_tsp, nearest_neighbor_tsp, bind.
  rewrite filter_cons, decide_True, filter_nil by done. simpl.
  unfold bind, get_distance. rewrite !lookup_empty, Hh, Hx. simpl. by rewrite Hraise.
Qed.
End RouteShape.

Section SolveTsp.
Context {D : Type}.
Variable haversine_distance : Q * Q -> Q * Q -> option D.
Variable d_zero : D.
Variable d_add : D -> D -> D.
Variable d_ltb : D -> D -> bool.
Variable countries_data : dict CountryInfo.

Lemma solve_tsp_route (countries : list string) (home : string)
    (c : gmap (string * string) D) :
  known countries_data home -> Forall (known countries_data) countries ->
  distances_defined haversine_distance countries_data (home :: countries) ->
  ∃ visited c',
    solve_tsp haversine_distance d_zero d_add d_ltb countries_data countries home c
    = Some (home :: visited ++ [home], c') ∧
    visited ≡ₚ filter (fun x => x ≠ home) countries.
Proof.
  intros Hh Hk Hdef.
  assert (Hstops : Forall (known countries_data) (home :: countries)) by by constructor.
  assert (Hin : Forall (fun x => x ∈ home :: countries) countries).
  { apply Forall_forall. intros y Hy. by apply list_elem_of_further. }
  destruct (nearest_neighbor_tsp_route haversine_distance d_ltb countries_data
              (home :: countries) Hstops Hdef countries home c (list_elem_of_here _ _) Hin)
    as (p & c1 & Hnn & Hp).
  destruct (two_opt_improve_framed haversine_distance d_zero d_add d_ltb countries_data
              (home :: countries) Hstops Hdef
              home (filter (fun x => x ≠ home) countries) (list_elem_of_here _ _))
    with (p := p) (c := c1) as (p' & c' & Hopt & Hp'); [|done|].
  { apply Forall_forall. intros y Hy.
    apply list_elem_of_filter in Hy as [_ Hy]. by apply list_elem_of_further. }
  exists p', c'. split; [|done]. unfold solve_tsp, bind. by rewrite Hnn.
Qed.
End SolveTsp.

(** ** Budget enforcer *)

Lemma ratio_le_refl r : Py.ratio_le r r.
Proof. destruct r; simpl; [apply Qle_refl|done]. Qed.

Lemma ratio_le_trans r1 r2 r3 : Py.ratio_le r1 r2 -> Py.ratio_le r2 r3 -> Py.ratio_le r1 r3.
Proof.
  destruct r1, r2, r3; simpl; try done. apply Qle_trans.
Qed.

Lemma ratio_ltb_true r1 r2 : Py.ratio_ltb r1 r2 = true -> Py.ratio_le r1 r2.
Proof.
  destruct r1, r2; simpl; try done.
  destruct (Qlt_le_dec q q0); [|done]. intros _. by apply Qlt_le_weak.
Qed.

Lemma ratio_ltb_false r1 r2 : Py.ratio_ltb r1 r2 = false -> Py.ratio_le r2 r1.
Proof.
  destruct r1, r2; simpl; try done.
  by destruct (Qlt_le_dec q q0).
Qed.


Section WorstValue.
Variable countries_data : dict CountryInfo.
Variable selected : gset string.

Abbreviation ratio := (ratio_of countries_data selected).
Abbreviation body :=
  (fun '(worst_country, worst_ratio) c =>
     data ← get countries_data c;
     let ratio := value_ratio data selected in
     if Py.ratio_ltb worst_ratio ratio then Some (c, ratio)
     else Some (worst_country, worst_ratio)).

(** The scan keeps the largest ratio seen so far, and the country that
    has it once a positive ratio was met. *)
Lemma worst_scan first countries : ∀ seen worst_country worst_ratio,
  Forall (known countries_data) countries ->
  worst_country ∈ first :: seen ->
  (∀ c, c ∈ seen -> Py.ratio_le (ratio c) worst_ratio) ->
  Py.ratio_le (Py.Finite 0) worst_ratio ->
  worst_ratio = ratio worst_country ∨ worst_ratio = Py.Finite 0 ->
  ∃ worst worst_ratio',
    Py.for_each body countries (worst_country, worst_ratio) = Some (worst, worst_ratio') ∧
    worst ∈ first :: seen ++ countries ∧
    (∀ c, c ∈ seen ++ countries -> Py.ratio_le (ratio c) worst_ratio') ∧
    Py.ratio_le (Py.Finite 0) worst_ratio' ∧
    (worst_ratio' = ratio worst ∨ worst_ratio' = Py.Finite 0).
Proof.
  induction countries as [|c cs IH]; intros seen wc wr Hk Hin Hmax Hpos Hwr.
  - exists wc, wr. rewrite app_nil_r. by repeat split.
  - inversion Hk as [|? ? [d Hd] Hcs]; subst.
    cbn [Py.for_each]. rewrite Hd. simpl.
    assert (Hrc : ratio c = value_ratio d selected) by (unfold ratio_of; by rewrite Hd).
    destruct (Py.ratio_ltb wr (value_ratio d selected)) eqn:Hlt.
    + apply ratio_ltb_true in Hlt.
      destruct (IH (seen ++ [c]) c (value_ratio d selected)) as (w & wr' & Hrun & Hw & Hm & Hp & Hr);
        try done.
      { apply list_elem_of_further, elem_of_app. right. apply list_elem_of_here. }
      { intros x Hx. apply elem_of_app in Hx as [Hx|Hx].
        - eapply ratio_le_trans; [by apply Hmax|done].
        - apply list_elem_of_singleton in Hx as ->. rewrite Hrc. apply ratio_le_refl. }
      { by eapply ratio_le_trans. }
      { by left. }
      exists w, wr'. rewrite <- app_assoc in Hw, Hm. by repeat split.
    + apply ratio_ltb_false in Hlt.
      destruct (IH (seen ++ [c]) wc wr) as (w & wr' & Hrun & Hw & Hm & Hp & Hr); try done.
      { apply elem_of_cons in Hin as [->|Hin]; [apply list_elem_of_here|].
        apply list_elem_of_further, elem_of_app. by left. }
      { intros x Hx. apply elem_of_app in Hx as [Hx|Hx]; [by apply Hmax|].
        apply list_elem_of_singleton in Hx as ->. by rewrite Hrc. }
      exists w, wr'. rewrite <- app_assoc in Hw, Hm. by repeat split.
Qed.

Lemma find_worst_value_elem (countries : list string) :
  countries ≠ [] -> Forall (known countries_data) countries ->
  ∃ worst, _find_worst_value countries_data countries selected = Some worst ∧
           worst ∈ countries.
Proof.
  intros Hne Hk. destruct countries as [|first cs]; [done|].
  destruct (worst_scan first (first :: cs) [] first (Py.Finite 0)) as (w & wr & Hrun & Hw & _);
    try done.
  { apply list_elem_of_here. }
  { intros c Hc. by apply not_elem_of_nil in Hc. }
  { by right. }
  exists w. unfold _find_worst_value. cbn [Py.index]. simpl.
  simpl in Hrun. rewrite Hrun. simpl. split; [done|].
  simpl in Hw. apply elem_of_cons in Hw as [->|Hw]; [apply list_elem_of_here|done].
Qed.

End WorstValue.

Lemma interior_framed {A} (h h' : A) p : Py.interior (h :: p ++ [h']) = p.
Proof.
  unfold Py.interior. simpl. rewrite length_app. simpl.
  rewrite drop_0. replace (length p + 1 - 1)%nat with (length p) by lia.
  by rewrite take_app_length.
Qed.

Lemma interior_subseteq {A} (l : list A) : Py.interior l ⊆ l.
Proof.
  unfold Py.interior. intros x Hx.
  by apply subseteq_take, subseteq_drop in Hx.
Qed.

Lemma for_each_is_Some {A S} (body : S -> A -> option S) l s :
  (∀ s x, x ∈ l -> is_Some (body s x)) -> is_Some (Py.for_each body l s).
Proof.
  revert s. induction l as [|x l IH]; intros s H; [by eexists|].
  simpl. destruct (H s x) as [s' Hs']; [apply list_elem_of_here|].
  rewrite Hs'. simpl. apply IH. intros s0 y Hy. apply H. by apply list_elem_of_further.
Qed.

Section Costs.
Variable countries_data : dict CountryInfo.

Lemma calculate_country_cost_known c days :
  known countries_data c -> is_Some (calculate_country_cost countries_data c days).
Proof. intros [d Hd]. unfold calculate_country_cost. rewrite Hd. by eexists. Qed.

Lemma calculate_total_cost_known route days_distribution :
  Forall (known countries_data) route ->
  is_Some (calculate_total_cost countries_data route days_distribution).
Proof.
  intros Hk. unfold calculate_total_cost.
  match goal with |- is_Some (Py.for_each ?f ?l ?a ≫= _) =>
    destruct (for_each_is_Some f l a) as [visited Hv] end.
  { intros acc x Hx. rewrite Forall_forall in Hk.
    destruct (calculate_country_cost_known x
                (get_default days_distribution x MIN_DAYS_PER_COUNTRY)) as [cc Hcc].
    { by apply Hk, interior_subseteq. }
    simpl. rewrite Hcc. by eexists. }
  rewrite Hv. simpl.
  destruct (length route) as [|[|n]] eqn:Hlen; [by eexists..|].
  unfold Py.index.
  destruct (Z.leb_spec 0 (-2)); [lia|].
  rewrite Hlen.
  destruct (Z.leb_spec (- Z.of_nat (S (S n))) (-2)); [|lia].
  destruct (lookup_lt_is_Some_2 route (Z.to_nat (Z.of_nat (S (S n)) + -2)))
    as [last_visited Hlast]; [lia|].
  rewrite Hlast. simpl.
  rewrite Forall_forall in Hk. destruct (Hk last_visited) as [d Hd].
  { by eapply list_elem_of_lookup_2. }
  rewrite Hd. by eexists.
Qed.

End Costs.

Section Enforcer.
Context {D : Type}.
Variable haversine_distance : Q * Q -> Q * Q -> option D.
Variable d_zero : D.
Variable d_add : D -> D -> D.
Variable d_ltb : D -> D -> bool.
Variable countries_data : dict CountryInfo.
Variable home_country : string.
Variable budget : Q.
Variable selected : gset string.

Abbreviation iterate :=
  (enforce_iteration haversine_distance d_zero d_add d_ltb countries_data
     home_country budget selected).
Abbreviation loop fuel :=
  (enforce_loop haversine_distance d_zero d_add d_ltb countries_data
     fuel home_country budget selected).

(** What is known once an iteration has run. *)
Lemma enforce_iteration_inv (working : list string) (warnings : list warning)
    (c : gmap (string * string) D) it c' :
  iterate working warnings c = Some (it, c') ->
  ∃ route days total_cost,
    solve_tsp haversine_distance d_zero d_add d_ltb countries_data working home_country c
      = Some (route, c') ∧
    distribute_days countries_data
      (Z.max (Z.of_nat (length working) * MIN_DAYS_PER_COUNTRY) 1) route selected
      = Some days ∧
    calculate_total_cost countries_data route days = Some total_cost ∧
    ((Qle_bool total_cost budget = true ∧ it = Return working warnings days) ∨
     (Qle_bool total_cost budget = false ∧ (length working <= 1)%nat ∧
      it = Return [] (warnings ++ [Insufficient budget total_cost]) []) ∨
     (Qle_bool total_cost budget = false ∧ (1 < length working)%nat ∧
      ∃ worst removed working',
        _find_worst_value countries_data working selected = Some worst ∧
        calculate_country_cost countries_data worst MIN_DAYS_PER_COUNTRY = Some removed ∧
        Py.remove worst working = Some working' ∧
        it = Continue working' (warnings ++ [Removed worst (total removed)]))).
Proof.
  unfold enforce_iteration. intros H.
  apply bind_Some in H as (route & c1 & Hroute & H).
  apply bind_Some in H as (days & c2 & Hdays & H). apply lift_Some in Hdays as [Hdays ->].
  apply bind_Some in H as (cost & c3 & Hcost & H). apply lift_Some in Hcost as [Hcost ->].
  destruct (Qle_bool cost budget) eqn:Hle.
  { injection H as <- <-. exists route, days, cost. repeat split; try done. by left. }
  destruct (Nat.leb_spec (length working) 1) as [Hlen|Hlen].
  { injection H as <- <-. exists route, days, cost. repeat split; try done.
    right. left. done. }
  apply bind_Some in H as (worst & c4 & Hworst & H). apply lift_Some in Hworst as [Hworst ->].
  apply bind_Some in H as (removed & c5 & Hrem & H). apply lift_Some in Hrem as [Hrem ->].
  apply bind_Some in H as (working' & c6 & Hw & H). apply lift_Some in Hw as [Hw ->].
  injection H as <- <-. exists route, days, cost. repeat split; try done.
  right. right. repeat split; try done. by exists worst, removed, working'.
Qed.

(** An iteration runs on destinations of the catalog, none of them the
    home country, between which every distance is defined: the stay is
    two days per destination, so the allocator divides nothing. *)
Lemma enforce_iteration_runs (working : list string) (warnings : list warning)
    (c : gmap (string * string) D) :
  known countries_data home_country ->
  Forall (known countries_data) working ->
  home_country ∉ working ->
  distances_defined haversine_distance countries_data (home_country :: working) ->
  ∃ it c', iterate working warnings c = Some (it, c').
Proof.
  intros Hh Hk Hhome Hdef.
  destruct (solve_tsp_route haversine_distance d_zero d_add d_ltb countries_data
              working home_country c Hh Hk Hdef) as (visited & c1 & Hroute & Hperm).
  assert (Hfilter : filter (fun x => x ≠ home_country) working = working).
  { clear -Hhome. induction working as [|x l IH]; [done|].
    rewrite filter_cons. destruct (decide (x ≠ home_country)) as [_|Heq].
    - f_equal. apply IH. intros Hin. apply Hhome. by apply list_elem_of_further.
    - exfalso. apply Hhome. apply dec_stable in Heq. subst. apply list_elem_of_here. }
  rewrite Hfilter in Hperm.
  assert (Hvk : Forall (known countries_data) visited).
  { symmetry in Hperm. exact (Permutation_Forall Hperm Hk). }
  set (route := home_country :: visited ++ [home_country]) in *.
  destruct (distribute_days_known countries_data selected
              (Z.max (Z.of_nat (length working) * MIN_DAYS_PER_COUNTRY) 1) route)
    as [days Hdays].
  { unfold route. by rewrite interior_framed. }
  { unfold route. rewrite interior_framed. intros x Hx.
    rewrite (Permutation_length Hperm).
    assert (Hpos : (0 < length working)%nat).
    { rewrite <- (Permutation_length Hperm). destruct visited; [|simpl; lia].
      by apply not_elem_of_nil in Hx. }
    replace (Z.max (Z.of_nat (length working) * MIN_DAYS_PER_COUNTRY) 1
             - MIN_DAYS_PER_COUNTRY * Z.of_nat (length working)) with 0
      by (unfold MIN_DAYS_PER_COUNTRY; lia).
    rewrite Z.mul_0_l. by apply Z.pow_pos_nonneg. }
  destruct (calculate_total_cost_known countries_data route days) as [cost Hcost].
  { unfold route. constructor; [done|]. apply Forall_app. split; [done|]. by constructor. }
  unfold enforce_iteration, bind, lift. rewrite Hroute, Hdays, Hcost.
  destruct (Qle_bool cost budget); [by eexists _, _|].
  destruct (Nat.leb_spec (length working) 1) as [Hlen|Hlen]; [by eexists _, _|].
  destruct (find_worst_value_elem countries_data selected working) as (worst & Hworst & Hin);
    [intros ->; simpl in Hlen; lia|done|].
  rewrite Hworst.
  rewrite Forall_forall in Hk.
  destruct (calculate_country_cost_known countries_data worst MIN_DAYS_PER_COUNTRY (Hk _ Hin))
    as [removed Hrem].
  rewrite Hrem.
  destruct (remove_elem worst working Hin) as (working' & Hw & _). rewrite Hw.
  by eexists _, _.
Qed.

(** One step of the loop on a non-empty working set. *)
Lemma enforce_loop_step (fuel : nat) (working : list string) (warnings : list warning)
    (c : gmap (string * string) D) :
  working ≠ [] ->
  loop (S fuel) working warnings c =
    match iterate working warnings c with
    | Some (Return final warnings' days, c1) => Some ((final, warnings', days), c1)
    | Some (Continue working' warnings', c1) => loop fuel working' warnings' c1
    | None => None
    end.
Proof.
  intros Hne. destruct working as [|x rest] eqn:Hw; [done|]. rewrite <- Hw.
  rewrite Hw at 1. cbn [enforce_loop]. rewrite <- Hw. unfold bind.
  destruct (iterate working warnings c) as [[[final ws days|working' ws] c1]|]; done.
Qed.

(** An iteration that goes on has removed one destination. *)
Lemma enforce_iteration_shrinks (working : list string) (warnings : list warning)
    (c : gmap (string * string) D) working' warnings' c' :
  iterate working warnings c = Some (Continue working' warnings', c') ->
  ∃ worst, working ≡ₚ worst :: working'.
Proof.
  intros Hit.
  apply enforce_iteration_inv in Hit as (r & d & tc & _ & _ & _ & [[_ [=]]|[[_ [_ [=]]]|H]]).
  destruct H as (_ & _ & worst & removed & w' & _ & _ & Hrem & [= -> ->]).
  exists worst. by apply remove_Some.
Qed.

(** The loop never runs out of iterations: with as many as there are
    destinations, it behaves as with any larger number. *)
Lemma enforce_loop_fuel fuel : ∀ fuel' (working : list string) (warnings : list warning)
    (c : gmap (string * string) D),
  (length working <= fuel)%nat -> (length working <= fuel')%nat ->
  loop fuel working warnings c = loop fuel' working warnings c.
Proof.
  induction fuel as [|fuel IH]; intros fuel' working warnings c Hlen Hlen'.
  - destruct working; [|simpl in Hlen; lia]. by destruct fuel'.
  - destruct working as [|x rest] eqn:Hw. { by destruct fuel'. }
    rewrite <- Hw in *. destruct fuel' as [|fuel']; [rewrite Hw in Hlen'; simpl in Hlen'; lia|].
    rewrite !enforce_loop_step by (by rewrite Hw).
    destruct (iterate working warnings c) as [[[final ws days|working' ws] c1]|] eqn:Hit;
      [done| |done].
    apply enforce_iteration_shrinks in Hit as [worst Hperm].
    apply Permutation_length in Hperm. simpl in Hperm. apply IH; lia.
Qed.

Lemma enforce_loop_terminates fuel : ∀ (working : list string) (warnings : list warning)
    (c : gmap (string * string) D),
  (length working <= fuel)%nat ->
  known countries_data home_country ->
  Forall (known countries_data) working ->
  home_country ∉ working ->
  distances_defined haversine_distance countries_data (home_country :: working) ->
  ∃ result c', loop fuel working warnings c = Some (result, c').
Proof.
  induction fuel as [|fuel IH]; intros working warnings c Hlen Hh Hk Hhome Hdef.
  - destruct working; [by eexists _, _|simpl in Hlen; lia].
  - destruct working as [|x rest] eqn:Hw; [by eexists _, _|]. rewrite <- Hw in *.
    destruct (enforce_iteration_runs working warnings c Hh Hk Hhome Hdef) as (it & c1 & Hit).
    rewrite enforce_loop_step by (by rewrite Hw). rewrite Hit.
    destruct it as [final ws days|working' ws]; [by eexists _, _|].
    apply enforce_iteration_shrinks in Hit as [worst Hperm].
    assert (Hsub : working' ⊆ working).
    { intros y Hy. rewrite Hperm. by apply list_elem_of_further. }
    apply IH.
    + apply Permutation_length in Hperm. simpl in Hperm. lia.
    + done.
    + pose proof (Permutation_Forall Hperm Hk) as Hk'. by inversion Hk'.
    + intros Hin. by apply Hhome, Hsub.
    + eapply distances_defined_subseteq; [|exact Hdef].
      intros y Hy. apply elem_of_cons in Hy as [->|Hy]; [apply list_elem_of_here|].
      by apply list_elem_of_further, Hsub.
Qed.
End Enforcer.

(** ** Budget enforcer: what the loop returns *)

Lemma remove_sublist x l l' : Py.remove x l = Some l' -> l' `sublist_of` l.
Proof.
  revert l'. induction l as [|y l IH]; intros l'; simpl; [done|].
  destruct (decide (x = y)) as [->|Hne].
  - intros [= <-]. by apply sublist_cons.
  - destruct (Py.remove x l) as [l0|]; simpl; [|done]. intros [= <-].
    apply sublist_skip. by apply IH.
Qed.

Lemma removed_countries_app ws1 ws2 :
  removed_countries (ws1 ++ ws2) = removed_countries ws1 ++ removed_countries ws2.
Proof. unfold removed_countries. apply flat_map_app. Qed.

Section EnforcerOutcome.
Context {D : Type}.
Variable haversine_distance : Q * Q -> Q * Q -> option D.
Variable d_zero : D.
Variable d_add : D -> D -> D.
Variable d_ltb : D -> D -> bool.
Variable countries_data : dict CountryInfo.
Variable home_country : string.
Variable budget : Q.
Variable selected : gset string.

Abbreviation solve :=
  (solve_tsp haversine_distance d_zero d_add d_ltb countries_data).
Abbreviation loop fuel :=
  (enforce_loop haversine_distance d_zero d_add d_ltb countries_data
     fuel home_country budget selected).

(** The result of the loop: the destinations kept are what is left of
    the working set after the removals the new warnings report; a set
    that is kept has passed the budget check, and nothing is kept only
    after a single destination has failed it. *)
Lemma enforce_loop_outcome (fuel : nat) :
  ∀ (working : list string) (warnings : list warning) (c : gmap (string * string) D)
    final warnings' days c',
    loop fuel working warnings c = Some ((final, warnings', days), c') ->
    ∃ ws, warnings' = warnings ++ ws ∧
      final `sublist_of` working ∧
      ((working = [] ∧ final = [] ∧ ws = [] ∧ days = []) ∨
       (final ≠ [] ∧
        removed_countries ws ++ final ≡ₚ working ∧
        length (removed_countries ws) = length ws ∧
        ∃ c0 route cost,
          solve final home_country c0 = Some (route, c') ∧
          distribute_days countries_data
            (Z.max (Z.of_nat (length final) * MIN_DAYS_PER_COUNTRY) 1) route selected
          = Some days ∧
          calculate_total_cost countries_data route days = Some cost ∧
          (cost <= budget)%Q) ∨
       (final = [] ∧ days = [] ∧
        ∃ ws0 last c0 route days0 cost,
          ws = ws0 ++ [Insufficient budget cost] ∧
          length (removed_countries ws0) = length ws0 ∧
          removed_countries ws0 ++ [last] ≡ₚ working ∧
          solve [last] home_country c0 = Some (route, c') ∧
          distribute_days countries_data
            (Z.max (Z.of_nat (length [last]) * MIN_DAYS_PER_COUNTRY) 1) route selected
          = Some days0 ∧
          calculate_total_cost countries_data route days0 = Some cost ∧
          (budget < cost)%Q)).
Proof.
  induction fuel as [|fuel IH]; intros working warnings c final warnings' days c' Hrun.
  - destruct working; [|done]. injection Hrun as <- <- <- <-.
    exists []. rewrite app_nil_r. split; [done|]. split; [done|]. by left.
  - destruct working as [|x rest] eqn:Hw.
    { injection Hrun as <- <- <- <-.
      exists []. rewrite app_nil_r. split; [done|]. split; [done|]. by left. }
    rewrite <- Hw in *. assert (Hne : working ≠ []) by (by rewrite Hw). clear Hw.
    assert (Hstep : loop (S fuel) working warnings c
              = bind (enforce_iteration haversine_distance d_zero d_add d_ltb
                        countries_data home_country budget selected working warnings)
                  (fun it => match it with
                             | Return final warnings' days => ret (final, warnings', days)
                             | Continue working' warnings' => loop fuel working' warnings'
                             end) c).
    { by destruct working. }
    rewrite Hstep in Hrun. clear Hstep.
    apply bind_Some in Hrun as (it & c1 & Hit & Hrun).
    apply enforce_iteration_inv in Hit
      as (route & days1 & cost & Hroute & Hdays & Hcost & Hcases).
    destruct Hcases as [[Hle ->]|[(Hgt & Hlen & ->)|(Hgt & Hlen & Hrest)]].
    + injection Hrun as <- <- <- <-.
      exists []. rewrite app_nil_r. split; [done|]. split; [done|].
      right. left. split; [done|]. split; [done|]. split; [done|].
      exists c, route, cost. repeat split; try done. by apply Qle_bool_iff.
    + injection Hrun as <- <- <- <-.
      exists [Insufficient budget cost]. split; [done|]. split; [apply sublist_nil_l|].
      right. right. split; [done|]. split; [done|].
      destruct working as [|last [|? ?]]; [done| |simpl in Hlen; lia].
      exists [], last, c, route, days1, cost. repeat split; try done.
      apply Qnot_le_lt. intros Hle. apply Qle_bool_iff in Hle. congruence.
    + destruct Hrest as (worst & removed & working' & Hworst & Hremoved & Hrem & ->).
      apply IH in Hrun as (ws & -> & Hsub & Hcases).
      exists (Removed worst (total removed) :: ws).
      split; [by rewrite <- app_assoc|].
      split; [etrans; [exact Hsub|by eapply remove_sublist]|].
      apply remove_Some in Hrem as Hperm.
      right. destruct Hcases as [(-> & -> & -> & ->)|[Hkept|Hnone]].
      * exfalso. apply Permutation_length in Hperm. simpl in Hperm. lia.
      * left. destruct Hkept as (Hfin & Hacc & Hcount & Hfit).
        split; [done|]. split; [by simpl; rewrite Hperm, Hacc|].
        split; [simpl; by rewrite Hcount|]. done.
      * right. destruct Hnone as (-> & -> & ws0 & last & c0 & r0 & d0 & cost0 & -> & Hcount
                                   & Hacc & Hfit).
        split; [done|]. split; [done|].
        exists (Removed worst (total removed) :: ws0), last, c0, r0, d0, cost0.
        split; [done|]. split; [simpl; by rewrite Hcount|].
        split; [by simpl; rewrite Hperm, Hacc|]. done.
Qed.

End EnforcerOutcome.

(** ** Distances *)

Lemma sin_half_diff_sq (x y : R) : (sin ((x - y) / 2) ^ 2 = sin ((y - x) / 2) ^ 2)%R.
Proof.
  replace ((x - y) / 2)%R with (- ((y - x) / 2))%R by lra.
  rewrite sin_neg. ring.
Qed.

Lemma haversine_symmetric (A B : R * R) : Haversine.haversine_distance A B = Haversine.haversine_distance B A.
Proof.
  unfold Haversine.haversine_distance. cbv zeta.
  rewrite (sin_half_diff_sq (Haversine.radians (fst B)) (Haversine.radians (fst A))).
  rewrite (sin_half_diff_sq (Haversine.radians (snd B)) (Haversine.radians (snd A))).
  rewrite (Rmult_comm (cos (Haversine.radians (fst A))) (cos (Haversine.radians (fst B)))).
  reflexivity.
Qed.

Lemma haversine_self (A : R * R) : Haversine.haversine_distance A A = 0%R.
Proof.
  unfold Haversine.haversine_distance. cbv zeta.
  rewrite !Rminus_diag. replace (0 / 2)%R with 0%R by lra.
  rewrite sin_0.
  replace (0 ^ 2 + cos (Haversine.radians (fst A)) * cos (Haversine.radians (fst A)) * 0 ^ 2)%R with 0%R by ring.
  rewrite Rminus_0_r, sqrt_0, sqrt_1.
  unfold Haversine.atan2. destruct (Rlt_dec 0 1) as [_|H]; [|lra].
  replace (0 / 1)%R with 0%R by lra. rewrite atan_0. ring.
Qed.

Section Cache.
Context {D : Type}.
Variable haversine : Q * Q -> Q * Q -> option D.
Variable countries_data : dict CountryInfo.
Hypothesis haversine_sym : ∀ x y, haversine x y = haversine y x.

Lemma one_orientation_empty : one_orientation (∅ : gmap (string * string) D).
Proof. intros a b _ [d Hd]. by rewrite lookup_empty in Hd. Qed.

Lemma get_distance_one_orientation (a b : string) (c : gmap (string * string) D) d c' :
  one_orientation c ->
  get_distance haversine countries_data a b c = Some (d, c') ->
  one_orientation c'.
Proof.
  intros Hc. unfold get_distance.
  destruct (c !! (a, b)) eqn:Hab; [by intros [= _ <-]|].
  destruct (c !! (b, a)) eqn:Hba; [by intros [= _ <-]|].
  destruct (get countries_data a) as [ia|]; [|done].
  destruct (get countries_data b) as [ib|]; [|done].
  simpl. destruct (haversine (coordinates ia) (coordinates ib)) as [dist|]; [|done].
  simpl. intros [= _ <-]. intros x y Hxy Hs.
  destruct (decide ((a, b) = (x, y))) as [[= -> ->]|Hne].
  - rewrite lookup_insert_ne by congruence. done.
  - rewrite lookup_insert_ne in Hs by done.
    destruct (decide ((a, b) = (y, x))) as [[= -> ->]|Hne'].
    + rewrite Hba in Hs. by destruct Hs.
    + rewrite lookup_insert_ne by done. by apply Hc.
Qed.

Lemma get_distance_symmetric (a b : string) (c : gmap (string * string) D) :
  one_orientation c ->
  fst <$> get_distance haversine countries_data a b c
  = fst <$> get_distance haversine countries_data b a c.
Proof.
  intros Hc. unfold get_distance.
  destruct (decide (a = b)) as [->|Hne]; [done|].
  destruct (c !! (a, b)) eqn:Hab.
  - by rewrite (Hc a b Hne) by (rewrite Hab; eauto).
  - destruct (c !! (b, a)) eqn:Hba; [done|].
    destruct (get countries_data a) as [ia|], (get countries_data b) as [ib|];
      simpl; try done.
    rewrite (haversine_sym (coordinates ib) (coordinates ia)).
    by destruct (haversine (coordinates ia) (coordinates ib)).
Qed.

(** Once a pair has been asked for, both orders give the value first
    returned. *)
Lemma get_distance_then_reverse (a b : string) (c : gmap (string * string) D) d c' :
  one_orientation c ->
  get_distance haversine countries_data a b c = Some (d, c') ->
  get_distance haversine countries_data b a c' = Some (d, c').
Proof.
  intros Hc. unfold get_distance.
  destruct (decide (a = b)) as [->|Hne].
  { destruct (c !! (b, b)) eqn:Hbb; [intros [= <- <-]; by rewrite Hbb|].
    destruct (get countries_data b) as [ib|]; [|done]. simpl.
    destruct (haversine (coordinates ib) (coordinates ib)) as [dist|]; [|done].
    simpl. intros [= <- <-]. by rewrite lookup_insert_eq. }
  destruct (c !! (a, b)) eqn:Hab.
  - intros [= <- <-]. rewrite (Hc a b Hne) by (rewrite Hab; eauto). by rewrite Hab.
  - destruct (c !! (b, a)) eqn:Hba; [intros [= <- <-]; by rewrite Hba|].
    destruct (get countries_data a) as [ia|], (get countries_data b) as [ib|];
      simpl; try done.
    destruct (haversine (coordinates ia) (coordinates ib)) as [dist|]; [|done].
    simpl. intros [= <- <-]. rewrite lookup_insert_ne by congruence.
    by rewrite Hba, lookup_insert_eq.
Qed.
End Cache.

(** * The properties of the specification *)

(** ** Allocator *)

(** C1: in the zero-total-score branch the days handed out need not add
    up to the trip length.  The precondition holds (7 days, 2 stops, 2 days
    minimum each), neither stop matches an interest, and [distribute_days]
    gives each stop [7 // 2 = 3] days: 6 days in all, not 7.  The
    proportional branch of the same function hands the remainder out in
    its leftover pass ([distribute_days_allocation] below). *)
Theorem zero_score_allocation_loses_days :
  MIN_DAYS_PER_COUNTRY * Z.of_nat (length (Py.interior Scenario.route_EF)) <= 7 ∧
  ∃ allocation,
    distribute_days Scenario.world 7 Scenario.route_EF Scenario.one_tag = Some allocation ∧
    Py.sumZ (values allocation) ≠ 7.
Proof.
  split; [by vm_compute|].
  eexists. split; [vm_compute; reflexivity|]. by vm_compute.
Qed.

(** What the allocator does under its precondition.  For a route with a
    non-empty interior of distinct, known destinations and [total_days] at
    least two days per stop, with shares in the range where the float
    quotient is exact, [distribute_days] returns a mapping over the
    interior in which every value is at least the minimum stay.  When some
    destination matches an interest the values sum to [total_days]
    exactly; when none does, every destination gets [total_days // count]
    and the values sum to [total_days - total_days % count]. *)
Lemma distribute_days_allocation (countries_data : dict CountryInfo)
    (selected : gset string) (total_days : Z) (route : list string)
    (Hne : Py.interior route ≠ [])
    (Hnd : NoDup (Py.interior route))
    (Hknown : Forall (known countries_data) (Py.interior route))
    (Hdays : MIN_DAYS_PER_COUNTRY * Z.of_nat (length (Py.interior route)) <= total_days)
    (Hexact : exact_shares countries_data selected (Py.interior route)
                (total_days - MIN_DAYS_PER_COUNTRY * Z.of_nat (length (Py.interior route)))) :
  ∃ allocation,
    distribute_days countries_data total_days route selected = Some allocation ∧
    keys allocation = Py.interior route ∧
    Forall (fun v => MIN_DAYS_PER_COUNTRY <= v) (values allocation) ∧
    (total_score_of countries_data selected (Py.interior route) ≠ 0 ->
     Py.sumZ (values allocation) = total_days) ∧
    (total_score_of countries_data selected (Py.interior route) = 0 ->
     Forall (fun v => v = total_days `div` Z.of_nat (length (Py.interior route)))
       (values allocation) ∧
     Py.sumZ (values allocation)
     = total_days - total_days `mod` Z.of_nat (length (Py.interior route))).
Proof.
  assert (Hn : 0 < Z.of_nat (length (Py.interior route))).
  { destruct (Py.interior route); [done|]. simpl length. lia. }
  destruct (decide (total_score_of countries_data selected (Py.interior route) = 0))
    as [Hzero|Hscore].
  - eexists. split; [by apply distribute_days_zero_score|].
    assert (Hbase : Z.max (total_days `div` Z.of_nat (length (Py.interior route)))
                      MIN_DAYS_PER_COUNTRY
                    = total_days `div` Z.of_nat (length (Py.interior route))).
    { apply Z.max_l. apply Z.div_le_lower_bound; [done|].
      unfold MIN_DAYS_PER_COUNTRY in *. lia. }
    rewrite Hbase, keys_map_pair, values_map_pair. split; [done|].
    split.
    { apply Forall_forall. intros v Hv.
      apply list_elem_of_In, in_map_iff in Hv as (? & <- & _).
      apply Z.div_le_lower_bound; [done|]. unfold MIN_DAYS_PER_COUNTRY in *. lia. }
    split; [done|]. intros _. split.
    { apply Forall_forall. intros v Hv.
      by apply list_elem_of_In, in_map_iff in Hv as (? & <- & _). }
    rewrite sumZ_const.
    pose proof (Z.div_mod total_days (Z.of_nat (length (Py.interior route)))). lia.
  - destruct (distribute_days_proportional countries_data selected total_days route
                Hne Hnd Hknown Hscore Hexact)
      as (allocation & Hrun & Hkeys & Hmin & Hsum & _).
    exists allocation. repeat split; try done. by intros _; apply Hsum.
Qed.

Example distribute_days_allocation_example :
  ∃ allocation,
    distribute_days Scenario.world 12 Scenario.route_ABC Scenario.two_tags
      = Some allocation ∧
    keys allocation = Py.interior Scenario.route_ABC ∧
    Forall (fun v => MIN_DAYS_PER_COUNTRY <= v) (values allocation) ∧
    (total_score_of Scenario.world Scenario.two_tags (Py.interior Scenario.route_ABC) ≠ 0 ->
     Py.sumZ (values allocation) = 12) ∧
    (total_score_of Scenario.world Scenario.two_tags (Py.interior Scenario.route_ABC) = 0 ->
     Forall (fun v => v = 12 `div` Z.of_nat (length (Py.interior Scenario.route_ABC)))
       (values allocation) ∧
     Py.sumZ (values allocation)
     = 12 - 12 `mod` Z.of_nat (length (Py.interior Scenario.route_ABC))).
Proof.
  apply (distribute_days_allocation Scenario.world Scenario.two_tags 12 Scenario.route_ABC).
  - by vm_compute.
  - apply (bool_decide_unpack _). vm_compute. exact I.
  - repeat constructor; by vm_compute; eexists.
  - by vm_compute.
  - apply exact_shares_Forall. repeat constructor; by vm_compute.
Qed.

(** C8, against the claim as stated: with 3 days for 2 stops the allocator
    raises nothing; it returns a mapping, which hands out 4 days. *)
Lemma underflow_returns_a_mapping :
  3 < MIN_DAYS_PER_COUNTRY * Z.of_nat (length (Py.interior Scenario.route_AB)) ∧
  ∃ allocation,
    distribute_days Scenario.world 3 Scenario.route_AB Scenario.one_tag = Some allocation ∧
    3 < Py.sumZ (values allocation).
Proof.
  split; [by vm_compute|].
  eexists. split; [vm_compute; reflexivity|]. by vm_compute.
Qed.

(** C8, amended: when [total_days] is less than two days per stop, for a
    non-empty interior of distinct, known destinations, [distribute_days]
    raises no error: it returns the mapping that gives every interior
    destination exactly the minimum stay, whose sum, two days per stop,
    exceeds [total_days]. *)
Theorem distribute_days_underflow (countries_data : dict CountryInfo)
    (selected : gset string) (total_days : Z) (route : list string)
    (Hne : Py.interior route ≠ [])
    (Hnd : NoDup (Py.interior route))
    (Hknown : Forall (known countries_data) (Py.interior route))
    (Hshort : total_days < MIN_DAYS_PER_COUNTRY * Z.of_nat (length (Py.interior route))) :
  distribute_days countries_data total_days route selected
  = Some (map (fun c => (c, MIN_DAYS_PER_COUNTRY)) (Py.interior route)) ∧
  total_days
  < Py.sumZ (values (map (fun c => (c, MIN_DAYS_PER_COUNTRY)) (Py.interior route))).
Proof.
  assert (Hn : 0 < Z.of_nat (length (Py.interior route))).
  { destruct (Py.interior route); [done|]. simpl length. lia. }
  split.
  - destruct (decide (total_score_of countries_data selected (Py.interior route) = 0))
      as [Hzero|Hscore].
    + rewrite distribute_days_zero_score by done.
      rewrite Z.max_r; [done|].
      assert (total_days `div` Z.of_nat (length (Py.interior route)) < MIN_DAYS_PER_COUNTRY);
        [|lia].
      apply Z.div_lt_upper_bound; [done|]. lia.
    + assert (Hnone : exact_shares countries_data selected (Py.interior route)
                (total_days - MIN_DAYS_PER_COUNTRY * Z.of_nat (length (Py.interior route)))).
      { apply exact_shares_no_spare. lia. }
      destruct (distribute_days_proportional countries_data selected total_days route
                  Hne Hnd Hknown Hscore Hnone)
        as (allocation & Hrun & _ & _ & _ & Hexact).
      by rewrite Hrun, Hexact.
  - rewrite values_map_pair, sumZ_const. lia.
Qed.

Lemma distribute_days_underflow_witness :
  distribute_days Scenario.world 3 Scenario.route_AB Scenario.one_tag
  = Some (map (fun c => (c, MIN_DAYS_PER_COUNTRY)) (Py.interior Scenario.route_AB)) ∧
  3 < Py.sumZ (values (map (fun c => (c, MIN_DAYS_PER_COUNTRY))
                         (Py.interior Scenario.route_AB))).
Proof.
  apply (distribute_days_underflow Scenario.world Scenario.one_tag 3 Scenario.route_AB).
  - by vm_compute.
  - apply (bool_decide_unpack _). vm_compute. exact I.
  - repeat constructor; by vm_compute; eexists.
  - by vm_compute.
Defined.

(** ** Selector *)

(** The greedy path picks candidates in sorted order, whatever the sums
    round to; where the sums are exact, what it picks never costs more
    than the budget. *)
Lemma total_min_cost_snoc (picked : list candidate) (c : candidate) :
  (total_min_cost (picked ++ [c]) == total_min_cost picked + min_cost c)%Q.
Proof.
  unfold total_min_cost. induction picked as [|x l IH]; simpl; [ring|].
  rewrite IH. ring.
Qed.

Lemma running_total_snoc (float_add : Q -> Q -> Q) (picked : list candidate)
    (c : candidate) :
  running_total float_add (picked ++ [c])
  = float_add (running_total float_add picked) (min_cost c).
Proof. unfold running_total. by rewrite map_app, fold_left_app. Qed.

Lemma greedy_loop_picks (float_add : Q -> Q -> Q) (budget : Q) (max_items : Z) :
  ∀ (sorted_candidates picked : list candidate) (total_cost : Q),
    ∃ extra,
      extra `sublist_of` sorted_candidates ∧
      greedy_loop float_add sorted_candidates budget max_items (map country picked)
        total_cost
      = map country (picked ++ extra) ∧
      (running_total float_add picked = total_cost ->
       picked = [] ∨ (total_cost <= budget)%Q ->
       picked ++ extra = [] ∨ (running_total float_add (picked ++ extra) <= budget)%Q) ∧
      ((∀ x y, float_add x y == x + y)%Q ->
       (total_min_cost picked == total_cost)%Q ->
       picked = [] ∨ (total_cost <= budget)%Q ->
       picked ++ extra = [] ∨ (total_min_cost (picked ++ extra) <= budget)%Q).
Proof.
  induction sorted_candidates as [|c rest IH]; intros picked total_cost.
  - exists []. rewrite app_nil_r. split; [done|]. split; [done|]. split.
    + intros Hsum [->|Hle]; [by left|]. right. by rewrite Hsum.
    + intros _ Hsum [->|Hle]; [by left|]. right. by rewrite Hsum.
  - cbn [greedy_loop].
    destruct (max_items <=? Z.of_nat (length (map country picked))).
    { exists []. rewrite app_nil_r. split; [apply sublist_nil_l|]. split; [done|]. split.
      - intros Hsum [->|Hle]; [by left|]. right. by rewrite Hsum.
      - intros _ Hsum [->|Hle]; [by left|]. right. by rewrite Hsum. }
    destruct (Qle_bool (float_add total_cost (min_cost c)) budget) eqn:Hfit.
    + destruct (IH (picked ++ [c]) (float_add total_cost (min_cost c)))
        as (extra & Hsub & Hrun & Hround & Hok).
      exists (c :: extra). rewrite <- app_assoc in Hrun, Hround, Hok.
      rewrite (map_app country picked [c]) in Hrun.
      split; [by apply sublist_skip|]. split; [done|]. split.
      * intros Hsum _. apply Hround.
        -- by rewrite running_total_snoc, Hsum.
        -- right. by apply Qle_bool_iff.
      * intros Hexact Hsum _. apply Hok; [done| |].
        -- by rewrite total_min_cost_snoc, Hsum, Hexact.
        -- right. by apply Qle_bool_iff.
    + destruct (IH picked total_cost) as (extra & Hsub & Hrun & Hround & Hok).
      exists extra. split; [by apply sublist_cons|]. done.
Qed.

Lemma greedy_select_picks (float_add : Q -> Q -> Q) (candidates : list candidate)
    (budget : Q) (max_items : Z) :
  ∃ picked,
    picked `sublist_of` Py.sorted greedy_ltb candidates ∧
    Py.sorted greedy_ltb candidates ≡ₚ candidates ∧
    _greedy_select float_add candidates budget max_items = map country picked ∧
    (picked = [] ∨ (running_total float_add picked <= budget)%Q) ∧
    ((∀ x y, float_add x y == x + y)%Q ->
     picked = [] ∨ (total_min_cost picked <= budget)%Q).
Proof.
  destruct (greedy_loop_picks float_add budget max_items
              (Py.sorted greedy_ltb candidates) [] 0%Q)
    as (picked & Hsub & Hrun & Hround & Hok).
  exists picked. split; [done|]. split; [apply sorted_perm|]. split; [done|]. split.
  - apply Hround; [done|by left].
  - intros Hexact. apply Hok; [done|done|by left].
Qed.

(** C2: the knapsack path is not optimal.  With three candidates of cost
    10 and scores 1, 1, 5, a working budget of 30.5 and at most 2
    destinations, it returns the two candidates of score 1, although the
    pair of scores 1 and 5 fits the budget and the count. *)
Theorem knapsack_select_misses_optimum :
  build_candidates Scenario.ties Scenario.ties Scenario.five_tags Scenario.home
  = Some Scenario.tie_candidates ∧
  ∃ selection,
    (∀ float_add,
       select_countries Scenario.ties float_add Scenario.five_tags 2 Scenario.home 45
       = Some selection) ∧
    _knapsack_select Scenario.tie_candidates (45 * BUDGET_SAFETY_MARGIN - 10) 2
    = Some selection ∧
    total_interest (selected_candidates Scenario.tie_candidates selection) = 2 ∧
    Scenario.cheaper_and_better `sublist_of` Scenario.tie_candidates ∧
    (total_min_cost Scenario.cheaper_and_better <= 45 * BUDGET_SAFETY_MARGIN - 10)%Q ∧
    Z.of_nat (length Scenario.cheaper_and_better) <= 2 ∧
    total_interest Scenario.cheaper_and_better = 6 ∧
    ¬ optimal_selection Scenario.tie_candidates (45 * BUDGET_SAFETY_MARGIN - 10) 2 selection.
Proof.
  split; [vm_compute; reflexivity|].
  assert (Hsub : Scenario.cheaper_and_better `sublist_of` Scenario.tie_candidates).
  { unfold Scenario.cheaper_and_better, Scenario.tie_candidates.
    apply sublist_skip, sublist_cons, sublist_skip, sublist_nil. }
  eexists. split; [intros float_add; vm_compute; reflexivity|].
  split; [vm_compute; reflexivity|].
  split; [vm_compute; reflexivity|].
  split; [done|]. split; [by vm_compute|]. split; [by vm_compute|].
  split; [vm_compute; reflexivity|].
  intros Hopt. specialize (Hopt Scenario.cheaper_and_better Hsub).
  assert (H : 6 <= 2); [|lia]. apply Hopt; by vm_compute.
Qed.

(** C6: the knapsack path can select more than the working budget pays
    for.  Costs are truncated to units of 10, so two destinations of
    minimum cost 19 count as 1 unit each and both fit a working budget of
    27 (2 units), although together they cost 38. *)
Theorem select_countries_exceeds_working_budget :
  ∃ selection costs max_return_cost,
    (∀ float_add,
       select_countries Scenario.coarse float_add Scenario.one_tag 3 Scenario.home 40
       = Some selection) ∧
    mapM (minimum_cost Scenario.coarse) selection = Some costs ∧
    Py.max_Q (map avg_travel_cost (values Scenario.coarse)) = Some max_return_cost ∧
    (40 * BUDGET_SAFETY_MARGIN - max_return_cost < foldr Qplus 0 costs)%Q.
Proof.
  eexists _, _, _. split; [intros float_add; vm_compute; reflexivity|].
  split; [vm_compute; reflexivity|]. split; [vm_compute; reflexivity|].
  by vm_compute.
Qed.

(** C7, against the claim as stated: asked for at most 2 destinations, the
    knapsack path selects 2, not at most 1. *)
Lemma knapsack_select_fills_max_count :
  ∃ candidates selection,
    build_candidates Scenario.coarse Scenario.coarse Scenario.one_tag Scenario.home
    = Some candidates ∧
    (length candidates <= 50)%nat ∧
    (∀ float_add,
       select_countries Scenario.coarse float_add Scenario.one_tag 2 Scenario.home 40
       = Some selection) ∧
    ¬ (Z.of_nat (length selection) <= 2 - 1).
Proof.
  eexists _, _. split; [vm_compute; reflexivity|]. split; [simpl; lia|].
  split; [intros float_add; vm_compute; reflexivity|]. simpl. lia.
Qed.

(** C7, amended: for every candidate list with non-negative costs and
    every [max_count >= 0], the knapsack path returns a selection of at
    most [max_count] destinations; no slot is held back, the guard is
    [prev_count < max_items]. *)
Theorem knapsack_select_at_most_max_count (candidates : list candidate) (budget : Q)
    (max_items : Z)
    (Hmax : 0 <= max_items)
    (Hall : Forall (fun c => (0 <= min_cost c)%Q) candidates) :
  ∃ selected, _knapsack_select candidates budget max_items = Some selected ∧
    Z.of_nat (length selected) <= max_items.
Proof.
  unfold _knapsack_select.
  set (W := Py.int (budget / granularity)).
  destruct (Z.leb_spec W 0) as [HW|HW]. { exists []. split; [done|simpl; lia]. }
  destruct (dp_fold_ok max_items W candidates _ _ [] Hall (tables_ok_init max_items W Hmax))
    as (dp & chosen & Hfold & Hlen & row & Hlast & Hrow).
  unfold dp_tables. rewrite Hfold. simpl.
  destruct (Hrow (Z.to_nat W)) as (s & n & sel & _ & Hn & Hbt & Hsel); [lia|].
  rewrite Z2Nat.id in Hbt by lia. exists sel. split; [done|lia].
Qed.

Lemma knapsack_select_at_most_max_count_witness :
  ∃ selected,
    _knapsack_select Scenario.tie_candidates 30 2 = Some selected ∧
    Z.of_nat (length selected) <= 2.
Proof.
  apply (knapsack_select_at_most_max_count Scenario.tie_candidates 30 2).
  - lia.
  - repeat constructor; by vm_compute.
Defined.

(** ** Router *)

Lemma filter_all {A} (P : A -> Prop) `{∀ x, Decision (P x)} (l : list A) :
  Forall P l -> filter P l = l.
Proof.
  induction 1 as [|x l Hx Hl IH]; [done|].
  rewrite filter_cons. destruct (decide (P x)); [|done]. by rewrite IH.
Qed.

(** C4: for [k] distinct destinations other than home and any cache,
    whenever [solve_tsp] returns, the route has length [k + 2], goes from
    home to home, and its interior is a duplicate-free rearrangement of
    the destinations; it returns when home and the destinations are in the
    catalog and the distance between every two of them can be computed;
    for no destination at all it returns [[home; home]].  The distance
    computation is the one thing that can make it raise: where the
    distance from home to a single destination cannot be computed, as
    between (-12, 169) and (12, -11) with the float formula, [solve_tsp]
    raises too. *)
Theorem solve_tsp_route_valid {D : Type} (haversine_distance : Q * Q -> Q * Q -> option D)
    (d_zero : D) (d_add : D -> D -> D) (d_ltb : D -> D -> bool)
    (countries_data : dict CountryInfo) (countries : list string) (home : string)
    (c : gmap (string * string) D) :
  (NoDup countries ->
   home ∉ countries ->
   (∀ route c',
      solve_tsp haversine_distance d_zero d_add d_ltb countries_data countries home c
      = Some (route, c') ->
      ∃ interior,
        route = home :: interior ++ [home] ∧
        length route = (length countries + 2)%nat ∧
        Py.interior route = interior ∧
        interior ≡ₚ countries ∧
        NoDup interior ∧
        home ∉ interior) ∧
   (known countries_data home ->
    Forall (known countries_data) countries ->
    distances_defined haversine_distance countries_data (home :: countries) ->
    is_Some
      (solve_tsp haversine_distance d_zero d_add d_ltb countries_data countries home c))) ∧
  solve_tsp haversine_distance d_zero d_add d_ltb countries_data [] home c
  = Some ([home; home], c) ∧
  (∀ (x : string) (ih ix : CountryInfo),
     x ≠ home ->
     get countries_data home = Some ih ->
     get countries_data x = Some ix ->
     haversine_distance (coordinates ih) (coordinates ix) = None ->
     solve_tsp haversine_distance d_zero d_add d_ltb countries_data [x] home ∅ = None).
Proof.
  split; [|split; [done|]].
  - intros Hnd Hnh. split.
    + intros route c' Hrun. apply solve_tsp_shape in Hrun as (interior & -> & Hperm).
      rewrite filter_all in Hperm.
      2:{ apply Forall_forall. intros x Hx ->. done. }
      exists interior. split; [done|]. split.
      { simpl. rewrite length_app, (Permutation_length Hperm). simpl. lia. }
      split; [apply interior_framed|]. split; [done|].
      split; by rewrite Hperm.
    + intros Hhome Hknown Hdef.
      destruct (solve_tsp_route haversine_distance d_zero d_add d_ltb countries_data
                  countries home c Hhome Hknown Hdef) as (interior & c' & Hrun & _).
      rewrite Hrun. by eexists.
  - intros x ih ix. apply solve_tsp_one_raises.
Qed.

Lemma solve_tsp_route_valid_witness :
  (∃ route c',
     solve_tsp Scenario.flat_distance 0%Q Qplus Scenario.Qltb Scenario.world
       Scenario.six_stops Scenario.home ∅ = Some (route, c') ∧
     ∃ interior,
       route = Scenario.home :: interior ++ [Scenario.home] ∧
       length route = (length Scenario.six_stops + 2)%nat ∧
       Py.interior route = interior ∧
       interior ≡ₚ Scenario.six_stops ∧
       NoDup interior ∧
       Scenario.home ∉ interior) ∧
  solve_tsp Scenario.raising_distance 0%Q Qplus Scenario.Qltb Scenario.antipodes
    [Scenario.cheapest_stop] Scenario.home ∅ = None.
Proof.
  split.
  - destruct (proj1 (solve_tsp_route_valid Scenario.flat_distance 0%Q Qplus Scenario.Qltb
                       Scenario.world Scenario.six_stops Scenario.home ∅))
      as [Hshape Hruns].
    + apply (bool_decide_unpack _). vm_compute. exact I.
    + apply (bool_decide_unpack _). vm_compute. exact I.
    + destruct Hruns as [[route c'] Hrun].
      * by vm_compute; eexists.
      * repeat constructor; by vm_compute; eexists.
      * intros a b ia ib _ _ _ _. by eexists.
      * exists route, c'. split; [exact Hrun|]. exact (Hshape route c' Hrun).
  - eapply (proj2 (proj2 (solve_tsp_route_valid Scenario.raising_distance 0%Q Qplus
                            Scenario.Qltb Scenario.antipodes [] Scenario.home ∅))).
    + by vm_compute.
    + vm_compute; reflexivity.
    + vm_compute; reflexivity.
    + vm_compute; reflexivity.
Defined.

(** ** Budget enforcer *)

(** C3: an iteration of the enforcer's loop accepts the working set when
    its cost is within the budget.  When the cost exceeds the budget and
    more than one destination is left, it removes one destination and goes
    on with one fewer; when a single destination is left, it returns the
    empty result with the warning that states the cost that could not be
    met.  Started on [initial_count] destinations, the loop needs no more
    than [initial_count] iterations: with that many it behaves as with any
    larger number.  What it returns is a set that passed the budget check
    after one removal per new warning, or nothing after the last
    destination failed the check; and it returns on destinations of the
    catalog, other than home, between which every distance can be
    computed. *)
Theorem enforce_budget_shrinks_and_terminates {D : Type}
    (haversine_distance : Q * Q -> Q * Q -> option D)
    (d_zero : D) (d_add : D -> D -> D) (d_ltb : D -> D -> bool)
    (countries_data : dict CountryInfo) (home_country : string) (budget : Q)
    (selected : gset string) (countries : list string) :
  (∀ (working : list string) (warnings : list warning) (c : gmap (string * string) D)
     it c',
     working ≠ [] ->
     enforce_iteration haversine_distance d_zero d_add d_ltb countries_data
       home_country budget selected working warnings c = Some (it, c') ->
     ∃ route days total_cost,
       solve_tsp haversine_distance d_zero d_add d_ltb countries_data working
         home_country c = Some (route, c') ∧
       distribute_days countries_data
         (Z.max (Z.of_nat (length working) * MIN_DAYS_PER_COUNTRY) 1) route selected
       = Some days ∧
       calculate_total_cost countries_data route days = Some total_cost ∧
       (((total_cost <= budget)%Q ∧ it = Return working warnings days) ∨
        ((budget < total_cost)%Q ∧ length working = 1%nat ∧
         it = Return [] (warnings ++ [Insufficient budget total_cost]) []) ∨
        ((budget < total_cost)%Q ∧ (1 < length working)%nat ∧
         ∃ worst removed_cost working',
           it = Continue working' (warnings ++ [Removed worst removed_cost]) ∧
           Py.remove worst working = Some working' ∧
           S (length working') = length working))) ∧
  (∀ (fuel : nat) (c : gmap (string * string) D),
     (length countries <= fuel)%nat ->
     enforce_loop haversine_distance d_zero d_add d_ltb countries_data fuel
       home_country budget selected countries [] c
     = enforce_budget haversine_distance d_zero d_add d_ltb countries_data
         countries home_country budget selected c) ∧
  (∀ (c : gmap (string * string) D) final warnings days c',
     enforce_budget haversine_distance d_zero d_add d_ltb countries_data
       countries home_country budget selected c = Some ((final, warnings, days), c') ->
     (length warnings <= length countries)%nat ∧
     ((countries = [] ∧ final = [] ∧ warnings = [] ∧ days = []) ∨
      (final ≠ [] ∧
       removed_countries warnings ++ final ≡ₚ countries ∧
       length (removed_countries warnings) = length warnings ∧
       ∃ c0 route cost,
         solve_tsp haversine_distance d_zero d_add d_ltb countries_data final
           home_country c0 = Some (route, c') ∧
         distribute_days countries_data
           (Z.max (Z.of_nat (length final) * MIN_DAYS_PER_COUNTRY) 1) route selected
         = Some days ∧
         calculate_total_cost countries_data route days = Some cost ∧
         (cost <= budget)%Q) ∨
      (final = [] ∧ days = [] ∧
       ∃ removals last c0 route days0 cost,
         warnings = removals ++ [Insufficient budget cost] ∧
         length (removed_countries removals) = length removals ∧
         removed_countries removals ++ [last] ≡ₚ countries ∧
         solve_tsp haversine_distance d_zero d_add d_ltb countries_data [last]
           home_country c0 = Some (route, c') ∧
         distribute_days countries_data
           (Z.max (Z.of_nat (length [last]) * MIN_DAYS_PER_COUNTRY) 1) route selected
         = Some days0 ∧
         calculate_total_cost countries_data route days0 = Some cost ∧
         (budget < cost)%Q))) ∧
  (known countries_data home_country ->
   Forall (known countries_data) countries ->
   home_country ∉ countries ->
   distances_defined haversine_distance countries_data (home_country :: countries) ->
   ∀ c : gmap (string * string) D,
     is_Some (enforce_budget haversine_distance d_zero d_add d_ltb countries_data
                countries home_country budget selected c)).
Proof.
  split; [|split; [|split]].
  - intros working warnings c it c' Hne Hit.
    apply enforce_iteration_inv in Hit
      as (route & days & cost & Hroute & Hdays & Hcost & Hcases).
    exists route, days, cost. repeat split; try done.
    destruct Hcases as [[Hle ->]|[(Hgt & Hlen & ->)|(Hgt & Hlen & Hrest)]].
    + left. split; [|done]. by apply Qle_bool_iff.
    + right. left. split.
      { apply Qnot_le_lt. intros Hle. apply Qle_bool_iff in Hle. congruence. }
      split; [|done]. destruct working as [|? [|? ?]]; simpl in *; [done|done|lia].
    + right. right. split.
      { apply Qnot_le_lt. intros Hle. apply Qle_bool_iff in Hle. congruence. }
      split; [done|].
      destruct Hrest as (worst & removed & working' & _ & _ & Hrem & ->).
      exists worst, (total removed), working'. split; [done|]. split; [done|].
      apply remove_Some, Permutation_length in Hrem. by simpl in Hrem.
  - intros fuel c Hfuel. unfold enforce_budget. by apply enforce_loop_fuel.
  - intros c final warnings days c' Hrun. unfold enforce_budget in Hrun.
    apply enforce_loop_outcome in Hrun as (ws & Hws & _ & Hcases).
    simpl in Hws. subst ws.
    destruct Hcases as [(-> & -> & -> & ->)|[Hkept|Hnone]].
    + split; [done|]. by left.
    + destruct Hkept as (Hfin & Hacc & Hcount & Hfit). split.
      * rewrite <- Hcount, <- (Permutation_length Hacc), length_app. lia.
      * right. left. done.
    + destruct Hnone as (-> & -> & ws0 & last & c0 & r0 & d0 & cost0 & -> & Hcount
                         & Hacc & Hfit). split.
      * rewrite <- (Permutation_length Hacc), !length_app, Hcount. simpl. lia.
      * right. right. split; [done|]. split; [done|].
        by exists ws0, last, c0, r0, d0, cost0.
  - intros Hhome Hknown Hnh Hdef c. unfold enforce_budget.
    destruct (enforce_loop_terminates haversine_distance d_zero d_add d_ltb countries_data
                home_country budget selected (length countries) countries [] c)
      as (result & c' & Hrun); [done..|].
    rewrite Hrun. by eexists.
Qed.

Lemma enforce_budget_shrinks_and_terminates_witness :
  is_Some (enforce_budget Scenario.flat_distance 0%Q Qplus Scenario.Qltb Scenario.world
             Scenario.three_stops Scenario.home 100 Scenario.four_tags ∅).
Proof.
  refine (proj2 (proj2 (proj2 (enforce_budget_shrinks_and_terminates
            Scenario.flat_distance 0%Q Qplus Scenario.Qltb Scenario.world
            Scenario.home 100 Scenario.four_tags Scenario.three_stops))) _ _ _ _ ∅).
  - by vm_compute; eexists.
  - repeat constructor; by vm_compute; eexists.
  - apply (bool_decide_unpack _). vm_compute. exact I.
  - intros a b ia ib _ _ _ _. by eexists.
Defined.



(** C10: for the route [[home; home]] and any day allocation,
    [calculate_total_cost] is home's one-way travel cost: nothing is
    visited, and the return leg is charged for the second-to-last element,
    which is home. *)
Theorem trivial_route_cost (countries_data : dict CountryInfo) (home : string)
    (days_distribution : dict Z) (data : CountryInfo)
    (Hhome : get countries_data home = Some data) :
  ∃ total_cost,
    calculate_total_cost countries_data [home; home] days_distribution = Some total_cost ∧
    (total_cost == avg_travel_cost data)%Q.
Proof.
  exists (0 + avg_travel_cost data)%Q. split.
  - unfold calculate_total_cost. cbn.
    change (- Z.of_nat 2 <=? -2) with true.
    change (Z.to_nat (Z.of_nat 2 + -2)) with 0%nat. simpl. by rewrite Hhome.
  - ring.
Qed.

Lemma trivial_route_cost_witness :
  ∃ total_cost,
    calculate_total_cost Scenario.world [Scenario.home; Scenario.home] [] = Some total_cost ∧
    (total_cost == avg_travel_cost (Scenario.destination 10 0 [] 0 0))%Q.
Proof.
  apply (trivial_route_cost Scenario.world Scenario.home []
           (Scenario.destination 10 0 [] 0 0)).
  vm_compute. reflexivity.
Defined.

(** ** Distances *)

(** C9: the haversine distance is symmetric and vanishes on equal
    coordinates, and [get_distance] gives the same value for both orders
    of a pair: asked in either order on the same cache, and asked in the
    reverse order afterwards.  The cache never holds both orders of a pair,
    which is true of the empty cache and is kept by [get_distance]. *)
Theorem distance_symmetric (countries_data : dict CountryInfo)
    (c : gmap (string * string) R)
    (Hcache : one_orientation c) :
  (∀ A B : R * R, Haversine.haversine_distance A B = Haversine.haversine_distance B A) ∧
  (∀ A : R * R, Haversine.haversine_distance A A = 0%R) ∧
  (∀ a b : string,
     fst <$> get_distance Haversine.of_catalog countries_data a b c
     = fst <$> get_distance Haversine.of_catalog countries_data b a c) ∧
  (∀ (a b : string) d c',
     get_distance Haversine.of_catalog countries_data a b c = Some (d, c') ->
     one_orientation c' ∧
     get_distance Haversine.of_catalog countries_data b a c' = Some (d, c')) ∧
  one_orientation (∅ : gmap (string * string) R).
Proof.
  split; [apply haversine_symmetric|]. split; [apply haversine_self|].
  split; [|split].
  - intros a b. apply get_distance_symmetric; [|done].
    intros x y. unfold Haversine.of_catalog. f_equal. apply haversine_symmetric.
  - intros a b d c' Hrun. split.
    + exact (get_distance_one_orientation _ _ a b c d c' Hcache Hrun).
    + exact (get_distance_then_reverse _ _ a b c d c' Hcache Hrun).
  - apply one_orientation_empty.
Qed.

Lemma distance_symmetric_witness :
  fst <$> get_distance Haversine.of_catalog Scenario.world
            Scenario.cheapest_stop Scenario.dearest_stop ∅
  = fst <$> get_distance Haversine.of_catalog Scenario.world
              Scenario.dearest_stop Scenario.cheapest_stop ∅.
Proof.
  exact (proj1 (proj2 (proj2 (distance_symmetric Scenario.world ∅ one_orientation_empty)))
           Scenario.cheapest_stop Scenario.dearest_stop).
Defined.

(** ** The scenarios of the specification *)

(** Equal-score fallback: three destinations without any interest overlap
    and 9 days give 3 days each. *)
Example equal_score_fallback :
  total_score_of Scenario.world Scenario.one_tag (Py.interior Scenario.route_CEF) = 0 ∧
  (values <$> distribute_days Scenario.world 9 Scenario.route_CEF Scenario.one_tag)
  = Some [3; 3; 3].
Proof. split; vm_compute; reflexivity. Qed.

(** Tight budget removal: with minimum costs 500, 800, 1200, scores 1, 4, 1
    and a budget of 1700, the enforcer drops the stop of cost 1200 and
    keeps the other two. *)
Example tight_budget_removal :
  (fst <$> enforce_budget Scenario.flat_distance 0%Q Qplus Scenario.Qltb Scenario.world
             Scenario.three_stops Scenario.home 1700 Scenario.four_tags ∅)
  = Some (Scenario.kept_stops, [Removed Scenario.dearest_stop 1200],
          map (fun c => (c, 2)) (rev Scenario.kept_stops)).
Proof. vm_compute. reflexivity. Qed.

(** * Further supporting lemmas *)

(** ** Distances without the cache *)

Section CacheTransparency.
Context {D : Type}.
Variable haversine : Q * Q -> Q * Q -> option D.
Variable d_zero : D.
Variable d_add : D -> D -> D.
Variable d_ltb : D -> D -> bool.
Variable countries_data : dict CountryInfo.
Hypothesis haversine_sym : ∀ x y, haversine x y = haversine y x.

Abbreviation sound := (cache_sound haversine countries_data).
Abbreviation dist := (distance_of haversine countries_data).

Lemma distance_of_sym (a b : string) : dist a b = dist b a.
Proof.
  unfold distance_of.
  destruct (get countries_data a), (get countries_data b); simpl; try done.
Qed.

Lemma cache_sound_empty : sound ∅.
Proof. intros a b d Hd. by rewrite lookup_empty in Hd. Qed.

(** With a sound cache [get_distance] answers as if there were no
    cache, and leaves a sound cache. *)
Lemma get_distance_transparent (a b : string) (c : gmap (string * string) D) :
  sound c ->
  match get_distance haversine countries_data a b c with
  | Some (d, c') => dist a b = Some d ∧ sound c' ∧ c ⊆ c'
  | None => dist a b = None
  end.
Proof.
  intros Hc. unfold get_distance.
  destruct (c !! (a, b)) as [d|] eqn:Hab. { split; [by apply Hc|done]. }
  destruct (c !! (b, a)) as [d|] eqn:Hba.
  { split; [|done]. rewrite distance_of_sym. by apply Hc. }
  unfold distance_of.
  destruct (get countries_data a) as [ia|] eqn:Ha; [|done].
  destruct (get countries_data b) as [ib|] eqn:Hb; [|done].
  simpl. destruct (haversine (coordinates ia) (coordinates ib)) as [dist|] eqn:Hd0; [|done].
  simpl. split; [done|]. split.
  - intros x y d Hd. destruct (decide ((a, b) = (x, y))) as [[= <- <-]|Hne].
    + rewrite lookup_insert_eq in Hd. injection Hd as <-.
      unfold distance_of. by rewrite Ha, Hb.
    + rewrite lookup_insert_ne in Hd by done. by apply Hc.
  - by apply insert_subseteq.
Qed.

Lemma route_distance_loop_cons (a b : string) (rest : list string) (total : D) :
  route_distance_loop haversine d_add countries_data (a :: b :: rest) total
  = bind (get_distance haversine countries_data a b)
      (fun d => route_distance_loop haversine d_add countries_data (b :: rest)
                  (d_add total d)).
Proof. done. Qed.

Lemma route_length_cons (a b : string) (rest : list string) (total : D) :
  route_length haversine d_add countries_data (a :: b :: rest) total
  = d ← dist a b; route_length haversine d_add countries_data (b :: rest) (d_add total d).
Proof. done. Qed.

Lemma route_distance_loop_transparent (route : list string) :
  ∀ (total : D) (c : gmap (string * string) D),
    sound c ->
    match route_distance_loop haversine d_add countries_data route total c with
    | Some (d, c') =>
        route_length haversine d_add countries_data route total = Some d ∧
        sound c' ∧ c ⊆ c'
    | None => route_length haversine d_add countries_data route total = None
    end.
Proof.
  induction route as [|a rest IH]; intros total c Hc; [by repeat split|].
  destruct rest as [|b rest']; [by repeat split|].
  rewrite route_distance_loop_cons, route_length_cons. unfold bind.
  pose proof (get_distance_transparent a b c Hc) as Hg.
  destruct (get_distance haversine countries_data a b c) as [[d c1]|].
  - destruct Hg as (-> & Hc1 & Hsub).
    specialize (IH (d_add total d) c1 Hc1).
    destruct (route_distance_loop _ _ _ (b :: rest') _ c1) as [[d' c']|]; [|exact IH].
    destruct IH as (? & ? & ?). repeat split; try done. by etrans.
  - by rewrite Hg.
Qed.
End CacheTransparency.

Section Greedy.
Context {D : Type}.
Variable haversine : Q * Q -> Q * Q -> option D.
Variable d_zero : D.
Variable d_add : D -> D -> D.
Variable d_ltb : D -> D -> bool.
Variable countries_data : dict CountryInfo.
Hypothesis haversine_sym : ∀ x y, haversine x y = haversine y x.
Hypothesis ltb_irrefl : ∀ x, d_ltb x x = false.
Hypothesis ltb_trans : ∀ x y z, d_ltb x y = true -> d_ltb y z = true -> d_ltb x z = true.

Abbreviation sound := (cache_sound haversine countries_data).
Abbreviation dist := (distance_of haversine countries_data).

Lemma get_distance_Some (a b : string) (c : gmap (string * string) D) d c' :
  sound c -> get_distance haversine countries_data a b c = Some (d, c') ->
  dist a b = Some d ∧ sound c'.
Proof.
  intros Hc Hrun. pose proof (get_distance_transparent haversine countries_data
                                haversine_sym a b c Hc) as H.
  rewrite Hrun in H. by destruct H as (? & ? & _).
Qed.

Lemma min_loop_nearest (current : string) (items : list string) :
  ∀ (seen : list string) (best : string) (best_key : D) (c : gmap (string * string) D)
    nearest c',
    sound c -> dist current best = Some best_key -> best ∈ seen ->
    (∀ x dx, x ∈ seen -> dist current x = Some dx -> d_ltb dx best_key = false) ->
    min_loop haversine d_ltb countries_data current items best best_key c
    = Some (nearest, c') ->
    sound c' ∧ nearest ∈ seen ++ items ∧
    ∃ dn, dist current nearest = Some dn ∧
      ∀ x dx, x ∈ seen ++ items -> dist current x = Some dx -> d_ltb dx dn = false.
Proof.
  induction items as [|y items IH]; intros seen best best_key c nearest c' Hc Hbest Hin Hmin Hrun.
  - injection Hrun as <- <-. rewrite app_nil_r. split; [done|]. split; [done|].
    by exists best_key.
  - cbn [min_loop] in Hrun. apply bind_Some in Hrun as (k & c1 & Hk & Hrun).
    apply get_distance_Some in Hk as [Hk Hc1]; [|done].
    replace (seen ++ y :: items) with ((seen ++ [y]) ++ items) by by rewrite <- app_assoc.
    destruct (d_ltb k best_key) eqn:Hlt.
    + eapply (IH (seen ++ [y]) y k); [done|done| | |exact Hrun].
      * apply elem_of_app. right. apply list_elem_of_here.
      * intros x dx Hx Hdx. apply elem_of_app in Hx as [Hx|Hx].
        -- destruct (d_ltb dx k) eqn:Hxk; [|done].
           rewrite <- (Hmin x dx Hx Hdx). symmetry. by eapply ltb_trans.
        -- apply list_elem_of_singleton in Hx as ->. rewrite Hk in Hdx.
           injection Hdx as <-. apply ltb_irrefl.
    + eapply (IH (seen ++ [y]) best best_key); [done|done| | |exact Hrun].
      * apply elem_of_app. by left.
      * intros x dx Hx Hdx. apply elem_of_app in Hx as [Hx|Hx]; [by eapply Hmin|].
        apply list_elem_of_singleton in Hx as ->. rewrite Hk in Hdx. by injection Hdx as <-.
Qed.

Lemma nearest_to_nearest (current : string) (to_visit : list string)
    (c : gmap (string * string) D) nearest c' :
  sound c ->
  nearest_to haversine d_ltb countries_data current to_visit c = Some (nearest, c') ->
  sound c' ∧ nearest ∈ to_visit ∧
  ∃ dn, dist current nearest = Some dn ∧
    ∀ x dx, x ∈ to_visit -> dist current x = Some dx -> d_ltb dx dn = false.
Proof.
  intros Hc Hrun. destruct to_visit as [|y items]; [done|].
  cbn [nearest_to] in Hrun. apply bind_Some in Hrun as (k & c1 & Hk & Hrun).
  apply get_distance_Some in Hk as [Hk Hc1]; [|done].
  eapply (min_loop_nearest current items [y] y k c1) in Hrun; try done.
  - apply list_elem_of_here.
  - intros x dx Hx Hdx. apply list_elem_of_singleton in Hx as ->.
    rewrite Hk in Hdx. injection Hdx as <-. apply ltb_irrefl.
Qed.

Lemma nn_loop_nearest (fuel : nat) :
  ∀ (to_visit route : list string) (current : string) (c : gmap (string * string) D)
    result c',
    sound c ->
    nn_loop haversine d_ltb countries_data fuel to_visit route current c
    = Some (result, c') ->
    sound c' ∧
    ∃ visited, result = route ++ visited ∧ visited ≡ₚ to_visit ∧
               nearest_chain haversine d_ltb countries_data current visited.
Proof.
  induction fuel as [|fuel IH]; intros to_visit route current c result c' Hc Hrun.
  - destruct to_visit; [|done]. injection Hrun as <- <-. split; [done|].
    exists []. by rewrite app_nil_r.
  - destruct to_visit as [|y rest].
    { injection Hrun as <- <-. split; [done|]. exists []. by rewrite app_nil_r. }
    cbn [nn_loop] in Hrun. apply bind_Some in Hrun as (nearest & c1 & Hnear & Hrun).
    apply bind_Some in Hrun as (to_visit' & c2 & Hrem & Hrun).
    apply lift_Some in Hrem as [Hrem ->].
    apply nearest_to_nearest in Hnear as (Hc1 & Hin & dn & Hdn & Hmin); [|done].
    apply remove_Some in Hrem.
    apply IH in Hrun as (Hc' & visited & -> & Hperm & Hchain); [|done].
    split; [done|]. exists (nearest :: visited). split; [by rewrite <- app_assoc|].
    split; [by rewrite Hrem, Hperm|]. split; [|done].
    intros x dx dn' Hx Hdx Hdn'. rewrite Hdn in Hdn'. injection Hdn' as <-.
    apply (Hmin x dx); [|done]. rewrite Hrem. apply list_elem_of_further. by rewrite <- Hperm.
Qed.

Lemma nearest_neighbor_tsp_nearest (countries : list string) (home : string)
    (c : gmap (string * string) D) route c' :
  sound c ->
  nearest_neighbor_tsp haversine d_ltb countries_data countries home c = Some (route, c') ->
  sound c' ∧
  ∃ visited, route = home :: visited ++ [home] ∧
             visited ≡ₚ filter (fun x => x ≠ home) countries ∧
             nearest_chain haversine d_ltb countries_data home visited.
Proof.
  intros Hc. unfold nearest_neighbor_tsp.
  destruct (filter (fun x => x ≠ home) countries) as [|y rest] eqn:Hf.
  { intros [= <- <-]. split; [done|]. by exists []. }
  rewrite <- Hf. intros Hrun. apply bind_Some in Hrun as (r & c1 & Hloop & Hret).
  injection Hret as <- <-.
  apply nn_loop_nearest in Hloop as (Hc' & visited & -> & Hperm & Hchain); [|done].
  split; [done|]. by exists visited.
Qed.

(** *** 2-opt *)

Lemma route_total_distance_Some (route : list string) (c : gmap (string * string) D) d c' :
  sound c ->
  _route_total_distance haversine d_zero d_add countries_data route c = Some (d, c') ->
  route_length haversine d_add countries_data route d_zero = Some d ∧ sound c'.
Proof.
  intros Hc Hrun.
  pose proof (route_distance_loop_transparent haversine d_add countries_data haversine_sym
                route d_zero c Hc) as H.
  unfold _route_total_distance in Hrun. rewrite Hrun in H. by destruct H as (? & ? & _).
Qed.

End Greedy.

Section TwoOptLength.
Context {D : Type}.
Variable haversine : Q * Q -> Q * Q -> option D.
Variable d_zero : D.
Variable d_add : D -> D -> D.
Variable d_ltb : D -> D -> bool.
Variable countries_data : dict CountryInfo.
Hypothesis haversine_sym : ∀ x y, haversine x y = haversine y x.
Hypothesis ltb_trans : ∀ x y z, d_ltb x y = true -> d_ltb y z = true -> d_ltb x z = true.
Variable route0 : list string.
Variable d0 : D.
Hypothesis Hroute0 : route_length haversine d_add countries_data route0 d_zero = Some d0.

Abbreviation sound := (cache_sound haversine countries_data).
Abbreviation improving :=
  (improving haversine d_zero d_add d_ltb countries_data route0 d0).

Lemma try_reversal_improving (i : nat) (st : @two_opt_state D) (j : nat)
    (c : gmap (string * string) D) st' c' :
  improving st c ->
  try_reversal haversine d_zero d_add d_ltb countries_data i st j c = Some (st', c') ->
  improving st' c'.
Proof.
  destruct st as [[best_route best_distance] improved]. intros (Hc & Hlen & Hbest) Hrun.
  cbn [try_reversal] in Hrun. apply bind_Some in Hrun as (nd & c1 & Hnd & Hrun).
  apply (route_total_distance_Some haversine d_zero d_add countries_data haversine_sym) in Hnd as [Hnd Hc1]; [|done].
  simpl in *. destruct (d_ltb nd best_distance) eqn:Hlt; injection Hrun as <- <-.
  - split; [done|]. split; [done|]. right. simpl.
    destruct Hbest as [->|Hbest].
    + rewrite Hroute0 in Hlen. by injection Hlen as ->.
    + by eapply ltb_trans.
  - by repeat split.
Qed.

Lemma sweep_improving (st : @two_opt_state D) (c : gmap (string * string) D) st' c' :
  improving st c ->
  sweep haversine d_zero d_add d_ltb countries_data st c = Some (st', c') ->
  improving st' c'.
Proof.
  unfold sweep. apply foldM_preserves.
  intros s i c1 s1 c1' _. unfold inner_loop. apply foldM_preserves.
  intros s2 j c2 s2' c2' _. apply try_reversal_improving.
Qed.

Lemma two_opt_loop_improving (iterations_left : nat) :
  ∀ (st : @two_opt_state D) (c : gmap (string * string) D) route c',
    improving st c ->
    two_opt_loop haversine d_zero d_add d_ltb countries_data iterations_left st c
    = Some (route, c') ->
    sound c' ∧
    (route = route0 ∨
     ∃ d, route_length haversine d_add countries_data route d_zero = Some d ∧
          d_ltb d d0 = true).
Proof.
  induction iterations_left as [|k IH];
    intros [[best_route best_distance] improved] c route c' Hst Hrun.
  - injection Hrun as <- <-. destruct Hst as (Hc & Hlen & [?|?]); [by split; [|left]|].
    split; [done|]. right. by exists best_distance.
  - cbn [two_opt_loop] in Hrun. destruct improved.
    + apply bind_Some in Hrun as (st' & c1 & Hsw & Hrun).
      eapply IH; [|exact Hrun]. eapply sweep_improving; [|exact Hsw].
      destruct Hst as (? & ? & ?). by repeat split.
    + injection Hrun as <- <-. destruct Hst as (Hc & Hlen & [?|?]); [by split; [|left]|].
      split; [done|]. right. by exists best_distance.
Qed.
End TwoOptLength.

Section TwoOptResult.
Context {D : Type}.
Variable haversine : Q * Q -> Q * Q -> option D.
Variable d_zero : D.
Variable d_add : D -> D -> D.
Variable d_ltb : D -> D -> bool.
Variable countries_data : dict CountryInfo.
Hypothesis haversine_sym : ∀ x y, haversine x y = haversine y x.
Hypothesis ltb_trans : ∀ x y z, d_ltb x y = true -> d_ltb y z = true -> d_ltb x z = true.

Lemma two_opt_improve_improving (route : list string) (c : gmap (string * string) D)
    route' c' :
  cache_sound haversine countries_data c ->
  two_opt_improve haversine d_zero d_add d_ltb countries_data route c = Some (route', c') ->
  cache_sound haversine countries_data c' ∧
  (route' = route ∨
   ∃ d0 d, route_length haversine d_add countries_data route d_zero = Some d0 ∧
           route_length haversine d_add countries_data route' d_zero = Some d ∧
           d_ltb d d0 = true).
Proof.
  intros Hc. unfold two_opt_improve.
  destruct (length route <=? 4)%nat. { intros [= <- <-]. split; [done|by left]. }
  intros Hrun. apply bind_Some in Hrun as (d0 & c1 & Hd0 & Hrun).
  apply (route_total_distance_Some haversine d_zero d_add countries_data haversine_sym)
    in Hd0 as [Hd0 Hc1]; [|done].
  apply (two_opt_loop_improving haversine d_zero d_add d_ltb countries_data
           haversine_sym ltb_trans route d0 Hd0) in Hrun as (Hc' & Hres).
  - split; [done|]. destruct Hres as [->|(d & Hd & Hlt)]; [by left|].
    right. by exists d0, d.
  - split; [done|]. split; [done|]. by left.
Qed.
End TwoOptResult.

Lemma for_each_None {A S} (body : S -> A -> option S) (l : list A) (x : A) :
  x ∈ l -> (∀ s, body s x = None) -> ∀ s, Py.for_each body l s = None.
Proof.
  intros Hx Hnone. induction l as [|y l IH]; intros s.
  - by apply not_elem_of_nil in Hx.
  - simpl. apply elem_of_cons in Hx as [<-|Hx]; [by rewrite Hnone|].
    destruct (body s y); simpl; [by apply IH|done].
Qed.

Section AllocatorErrors.
Variable countries_data : dict CountryInfo.
Variable selected : gset string.

Lemma distribute_days_unknown (total_days : Z) (route : list string) (c : string) :
  c ∈ Py.interior route -> ¬ known countries_data c ->
  distribute_days countries_data total_days route selected = None.
Proof.
  intros Hc Hunknown. unfold distribute_days.
  destruct (Py.interior route) as [|c0 cs] eqn:Hint.
  { by apply not_elem_of_nil in Hc. }
  rewrite <- Hint in *.
  assert (Hscores : comprehension
            (fun c => calculate_interest_score countries_data c selected)
            (Py.interior route) = None).
  { unfold comprehension. apply (for_each_None _ _ c Hc).
    intros d. unfold calculate_interest_score.
    destruct (get countries_data c) eqn:Hg; [|done]. exfalso. apply Hunknown. by eexists. }
  by rewrite Hscores.
Qed.

(** On distinct destinations of the catalog the allocator returns when
    no share is beyond the floats. *)
Lemma distribute_days_runs (total_days : Z) (route : list string) :
  NoDup (Py.interior route) ->
  Forall (known countries_data) (Py.interior route) ->
  (0 < total_score_of countries_data selected (Py.interior route) ->
   0 < total_days - MIN_DAYS_PER_COUNTRY * Z.of_nat (length (Py.interior route)) ->
   ∀ c, c ∈ Py.interior route ->
     is_Some (Py.truediv
                ((total_days - MIN_DAYS_PER_COUNTRY * Z.of_nat (length (Py.interior route)))
                 * score_of countries_data selected c)
                (total_score_of countries_data selected (Py.interior route)))) ->
  is_Some (distribute_days countries_data total_days route selected).
Proof.
  intros Hnd Hk Hdiv. unfold distribute_days.
  destruct (Py.interior route) as [|c0 cs] eqn:Hint; [by eexists|].
  rewrite <- Hint in *. clear Hint c0 cs.
  rewrite interest_scores_known by done. simpl.
  rewrite values_map_pair. fold (total_score_of countries_data selected (Py.interior route)).
  destruct (Z.eqb_spec (total_score_of countries_data selected (Py.interior route)) 0)
    as [|Hscore].
  { rewrite (comprehension_distinct _ (fun _ => Z.max (total_days `div`
               Z.of_nat (length (Py.interior route))) MIN_DAYS_PER_COUNTRY)) by done.
    by eexists. }
  rewrite assign_minimum_distinct by done. simpl.
  set (scores := map (fun c => (c, score_of countries_data selected c)) (Py.interior route)).
  set (days1 := map (fun c => (c, MIN_DAYS_PER_COUNTRY)) (Py.interior route)).
  assert (Hk1 : keys days1 = Py.interior route) by apply keys_map_pair.
  assert (Hks : Py.interior route ⊆ keys scores) by (unfold scores; by rewrite keys_map_pair).
  destruct (add_proportional_keys scores
              (total_score_of countries_data selected (Py.interior route))
              (total_days - MIN_DAYS_PER_COUNTRY * Z.of_nat (length (Py.interior route)))
              (Py.interior route) Hks) with (days := days1) as (days2 & Hrun2 & Hk2).
  { intros Hpos Hr c s Hc Hs. unfold scores in Hs. rewrite get_map_pair in Hs by done.
    injection Hs as <-. by apply Hdiv. }
  { by rewrite Hk1. }
  rewrite Hrun2. simpl.
  destruct (sort_keys_known scores days2 (Py.interior route)) as (keyed & -> & Hfst);
    [done|by rewrite Hk2, Hk1|].
  simpl. apply add_leftover_keys. rewrite Hk2, Hk1.
  intros x Hx. rewrite <- Hfst.
  by rewrite <- (sorted_countries_perm keyed (fun a b => Py.pair_ltb (snd a) (snd b))).
Qed.

(** A share beyond the floats makes the allocator raise. *)
Lemma distribute_days_overflow (total_days : Z) (route : list string) (c : string) :
  NoDup (Py.interior route) ->
  Forall (known countries_data) (Py.interior route) ->
  0 < total_score_of countries_data selected (Py.interior route) ->
  0 < total_days - MIN_DAYS_PER_COUNTRY * Z.of_nat (length (Py.interior route)) ->
  c ∈ Py.interior route ->
  Py.truediv
    ((total_days - MIN_DAYS_PER_COUNTRY * Z.of_nat (length (Py.interior route)))
     * score_of countries_data selected c)
    (total_score_of countries_data selected (Py.interior route)) = None ->
  distribute_days countries_data total_days route selected = None.
Proof.
  intros Hnd Hk Hpos Hspare Hc Hnone. unfold distribute_days.
  destruct (Py.interior route) as [|c0 cs] eqn:Hint; [by apply not_elem_of_nil in Hc|].
  rewrite <- Hint in *. clear Hint c0 cs.
  rewrite interest_scores_known by done. simpl.
  rewrite values_map_pair. fold (total_score_of countries_data selected (Py.interior route)).
  destruct (Z.eqb_spec (total_score_of countries_data selected (Py.interior route)) 0)
    as [Hz|_]; [lia|].
  rewrite assign_minimum_distinct by done. simpl.
  unfold add_proportional. rewrite (for_each_None _ _ c Hc); [done|].
  intros days.
  destruct (Z.ltb_spec 0 (total_score_of countries_data selected (Py.interior route)));
    [|lia].
  destruct (Z.ltb_spec 0 (total_days - MIN_DAYS_PER_COUNTRY
                                       * Z.of_nat (length (Py.interior route)))); [|lia].
  simpl. rewrite get_map_pair by done. simpl. by rewrite Hnone.
Qed.

Lemma distribute_days_raises_iff (total_days : Z) (route : list string) :
  NoDup (Py.interior route) ->
  distribute_days countries_data total_days route selected = None
  ↔ (∃ c, c ∈ Py.interior route ∧ ¬ known countries_data c) ∨
    (0 < total_score_of countries_data selected (Py.interior route) ∧
     0 < total_days - MIN_DAYS_PER_COUNTRY * Z.of_nat (length (Py.interior route)) ∧
     ∃ c, c ∈ Py.interior route ∧
       Py.truediv
         ((total_days - MIN_DAYS_PER_COUNTRY * Z.of_nat (length (Py.interior route)))
          * score_of countries_data selected c)
         (total_score_of countries_data selected (Py.interior route)) = None).
Proof.
  intros Hnd.
  set (spare := total_days - MIN_DAYS_PER_COUNTRY * Z.of_nat (length (Py.interior route))).
  set (T := total_score_of countries_data selected (Py.interior route)).
  destruct (decide (Forall (known countries_data) (Py.interior route))) as [Hall|Hnot].
  2:{ apply not_Forall_Exists in Hnot; [|apply _]. apply Exists_exists in Hnot.
      destruct Hnot as (c & Hc & Hk). split.
      - intros _. left. by exists c.
      - intros _. by eapply distribute_days_unknown. }
  split.
  - intros Hnone. right.
    destruct (decide (0 < T)) as [HT|HT]; cycle 1.
    { destruct (distribute_days_runs total_days route Hnd Hall) as [a Ha]; [|congruence].
      intros HT'. by destruct HT. }
    destruct (decide (0 < spare)) as [Hs|Hs]; cycle 1.
    { destruct (distribute_days_runs total_days route Hnd Hall) as [a Ha]; [|congruence].
      intros _ Hs'. by destruct Hs. }
    split; [done|]. split; [done|].
    destruct (decide (Forall (fun c => is_Some (Py.truediv
                (spare * score_of countries_data selected c) T)) (Py.interior route)))
      as [Hdiv|Hdiv].
    { destruct (distribute_days_runs total_days route Hnd Hall) as [a Ha]; [|congruence].
      intros _ _ c Hc. rewrite Forall_forall in Hdiv. by apply Hdiv. }
    apply not_Forall_Exists in Hdiv; [|apply _]. apply Exists_exists in Hdiv.
    destruct Hdiv as (c & Hc & Hn). exists c. split; [done|].
    fold spare. fold T.
    destruct (Py.truediv (spare * score_of countries_data selected c) T) as [q|] eqn:E;
      [|done].
    exfalso. apply Hn. rewrite E. by eexists.
  - intros [(c & Hc & Hk)|(HT & Hs & c & Hc & Hnone)].
    + by eapply distribute_days_unknown.
    + by eapply distribute_days_overflow.
Qed.
End AllocatorErrors.

(** ** Allocator: the passes in closed form *)

Lemma set_map_pair {V} (g : string -> V) (ks : list string) (k : string) (v : V) :
  NoDup ks -> k ∈ ks ->
  set k v (map (fun c => (c, g c)) ks)
  = map (fun c => (c, if decide (c = k) then v else g c)) ks.
Proof.
  induction ks as [|k' ks IH]; intros Hnd Hin.
  - by apply not_elem_of_nil in Hin.
  - apply NoDup_cons in Hnd as [Hk' Hnd]. simpl.
    destruct (decide (k = k')) as [->|Hne].
    + rewrite decide_True by done. f_equal.
      apply map_ext_in. intros c Hc%list_elem_of_In.
      rewrite decide_False; [done|]. by intros ->.
    + rewrite decide_False by done. f_equal. apply IH; [done|].
      apply elem_of_cons in Hin as [?|?]; done.
Qed.

(** A loop that rewrites one entry per key. *)
Lemma for_each_pointwise (body : dict Z -> string -> option (dict Z))
    (f : string -> Z -> Z) (all : list string) :
  NoDup all ->
  (∀ g k, k ∈ all ->
     body (map (fun c => (c, g c)) all) k
     = Some (set k (f k (g k)) (map (fun c => (c, g c)) all))) ->
  ∀ ks g, NoDup ks -> ks ⊆ all ->
    Py.for_each body ks (map (fun c => (c, g c)) all)
    = Some (map (fun c => (c, if decide (c ∈ ks) then f c (g c) else g c)) all).
Proof.
  intros Hall Hbody. induction ks as [|k ks IH]; intros g Hnd Hsub.
  - cbn [Py.for_each]. apply (f_equal Some), map_ext. intros c. cbv beta.
    rewrite decide_False; [done|]. apply not_elem_of_nil.
  - apply NoDup_cons in Hnd as [Hk Hnd].
    assert (Hkall : k ∈ all) by (apply Hsub, list_elem_of_here).
    cbn [Py.for_each]. rewrite Hbody by done. simpl.
    rewrite set_map_pair by done.
    rewrite (IH (fun c => if decide (c = k) then f k (g k) else g c)); [|done|].
    2:{ intros x Hx. apply Hsub. by apply list_elem_of_further. }
    apply (f_equal Some), map_ext. intros c.
    destruct (decide (c = k)) as [->|Hne].
    + rewrite decide_False by done. rewrite decide_True; [done|apply list_elem_of_here].
    + destruct (decide (c ∈ ks)) as [Hin|Hnin].
      * rewrite decide_True; [done|by apply list_elem_of_further].
      * rewrite decide_False; [done|]. intros [?|?]%elem_of_cons; done.
Qed.

Lemma add_proportional_closed (score : string -> Z) (all : list string)
    (total_score remaining_days : Z) (g : string -> Z) :
  NoDup all -> 0 < total_score ->
  (∀ c, c ∈ all -> 0 <= score c) ->
  (∀ c, c ∈ all -> remaining_days * score c < 2 ^ 53) ->
  add_proportional (map (fun c => (c, score c)) all) total_score remaining_days all
    (map (fun c => (c, g c)) all)
  = Some (map (fun c => (c, g c + if 0 <? remaining_days
                                   then (remaining_days * score c) ÷ total_score
                                   else 0)) all).
Proof.
  intros Hnd HS Hnn Hsmall. destruct (Z.ltb_spec 0 remaining_days) as [HR|HR].
  - unfold add_proportional.
    rewrite (for_each_pointwise _
               (fun c d => d + (remaining_days * score c) ÷ total_score) all Hnd).
    + apply (f_equal Some), map_ext_in. intros c Hc%list_elem_of_In. by rewrite decide_True.
    + intros g' k Hk.
      replace (0 <? total_score) with true by (symmetry; apply Z.ltb_lt; lia).
      replace (0 <? remaining_days) with true by (symmetry; apply Z.ltb_lt; lia).
      simpl. rewrite !get_map_pair by done. simpl.
      destruct (truediv_small (remaining_days * score k) total_score) as (q & -> & Hq);
        [|done|].
      { specialize (Hnn k Hk). specialize (Hsmall k Hk). nia. }
      simpl. by rewrite Hq.
    + done.
    + done.
  - rewrite add_proportional_none by done. apply (f_equal Some).
    apply map_ext. intros c. f_equal. lia.
Qed.

Lemma add_leftover_take : ∀ (sorted_countries : list string) (days : dict Z) (leftover : Z),
  add_leftover sorted_countries days leftover
  = Py.for_each (fun days c => d ← get days c; Some (set c (d + 1) days))
      (take (Z.to_nat leftover) sorted_countries) days.
Proof.
  induction sorted_countries as [|c rest IH]; intros days leftover.
  - by rewrite take_nil.
  - cbn [add_leftover]. destruct (Z.ltb_spec 0 leftover) as [HL|HL].
    + replace (Z.to_nat leftover) with (S (Z.to_nat (leftover - 1))) by lia.
      cbn [take Py.for_each]. destruct (get days c) as [d|]; simpl; [|done].
      apply IH.
    + replace (Z.to_nat leftover) with 0%nat by lia. done.
Qed.

Lemma add_leftover_closed (sorted_countries all : list string) (g : string -> Z)
    (leftover : Z) :
  NoDup all -> sorted_countries ≡ₚ all ->
  add_leftover sorted_countries (map (fun c => (c, g c)) all) leftover
  = Some (map (fun c => (c, if decide (c ∈ take (Z.to_nat leftover) sorted_countries)
                            then g c + 1 else g c)) all).
Proof.
  intros Hnd Hperm. rewrite add_leftover_take.
  apply (for_each_pointwise _ (fun _ d => d + 1) all Hnd).
  - intros g' k Hk. by rewrite get_map_pair.
  - eapply sublist_NoDup; [|apply sublist_take]. by rewrite Hperm.
  - intros x Hx. rewrite <- Hperm. by apply (subseteq_take (Z.to_nat leftover)).
Qed.

Lemma mapM_map {A B} (f : A -> option B) (g : A -> B) (l : list A) :
  (∀ x, x ∈ l -> f x = Some (g x)) -> mapM f l = Some (map g l).
Proof.
  intros H. apply mapM_Some_2. induction l as [|x l IH]; simpl; constructor.
  - apply H, list_elem_of_here.
  - apply IH. intros y Hy. apply H. by apply list_elem_of_further.
Qed.

(** ** [sorted]: the result is ordered *)

Section SortedOrder.
Context {A : Type} (ltb : A -> A -> bool).
Hypothesis ltb_asym : ∀ x y, ltb x y = true -> ltb y x = false.
Hypothesis ltb_negtrans : ∀ x y z, ltb x y = false -> ltb y z = false -> ltb x z = false.

(** No element is strictly below one that precedes it. *)
Abbreviation ascending := (StronglySorted (fun x y => ltb y x = false)).
Abbreviation descending := (StronglySorted (fun x y => ltb x y = false)).

Lemma insert_ascending x l : ascending l -> ascending (Py.insert ltb x l).
Proof.
  induction l as [|y l IH]; intros Hs; simpl.
  - repeat constructor.
  - apply StronglySorted_inv in Hs as [Hs Hy].
    destruct (ltb y x) eqn:E.
    + constructor; [by apply IH|].
      apply Forall_forall. intros z Hz.
      rewrite insert_perm in Hz. apply elem_of_cons in Hz as [->|Hz].
      * by apply ltb_asym.
      * rewrite Forall_forall in Hy. by apply Hy.
    + constructor; [by constructor|].
      constructor; [done|].
      apply Forall_forall. intros z Hz. rewrite Forall_forall in Hy.
      apply (ltb_negtrans z y x); [by apply Hy|done].
Qed.

Lemma sorted_ascending l : ascending (Py.sorted ltb l).
Proof.
  unfold Py.sorted. induction l as [|x l IH]; simpl; [constructor|].
  by apply insert_ascending.
Qed.

Lemma rev_descending l : ascending l -> descending (rev l).
Proof.
  induction 1 as [|x l Hs IH Hx]; simpl; [constructor|].
  apply StronglySorted_app_2; [|done|repeat constructor].
  intros y z Hy Hz. apply list_elem_of_singleton in Hz as ->.
  rewrite Forall_forall in Hx. apply Hx.
  by apply list_elem_of_In, in_rev, list_elem_of_In in Hy.
Qed.

Lemma sorted_reverse_descending l : descending (Py.sorted_reverse ltb l).
Proof. apply rev_descending, sorted_ascending. Qed.

(** What a prefix of a descending list contains: with an element, every
    element strictly above it. *)
Lemma descending_prefix l n x y :
  descending l -> x ∈ take n l -> y ∈ l -> ltb x y = true -> y ∈ take n l.
Proof.
  intros Hs Hx Hy Hlt.
  rewrite <- (take_drop n l) in Hs, Hy.
  apply elem_of_app in Hy as [Hy|Hy]; [done|].
  pose proof (StronglySorted_app_1_elem_of _ _ _ x y Hs Hx Hy) as Hc.
  simpl in Hc. congruence.
Qed.
End SortedOrder.

Lemma pair_ltb_asym (k1 k2 : Z * Z) : Py.pair_ltb k1 k2 = true -> Py.pair_ltb k2 k1 = false.
Proof.
  unfold Py.pair_ltb. destruct k1 as [a1 b1], k2 as [a2 b2]. simpl.
  destruct (Z.ltb_spec a1 a2), (Z.eqb_spec a1 a2), (Z.ltb_spec b1 b2),
    (Z.ltb_spec a2 a1), (Z.eqb_spec a2 a1), (Z.ltb_spec b2 b1); simpl; try done; lia.
Qed.

Lemma pair_ltb_negtrans (k1 k2 k3 : Z * Z) :
  Py.pair_ltb k1 k2 = false -> Py.pair_ltb k2 k3 = false -> Py.pair_ltb k1 k3 = false.
Proof.
  unfold Py.pair_ltb. destruct k1 as [a1 b1], k2 as [a2 b2], k3 as [a3 b3]. simpl.
  destruct (Z.ltb_spec a1 a2), (Z.eqb_spec a1 a2), (Z.ltb_spec b1 b2),
    (Z.ltb_spec a2 a3), (Z.eqb_spec a2 a3), (Z.ltb_spec b2 b3),
    (Z.ltb_spec a1 a3), (Z.eqb_spec a1 a3), (Z.ltb_spec b1 b3); simpl; try done; lia.
Qed.

Lemma score_le_total data selected (countries : list string) (c : string) :
  c ∈ countries -> score_of data selected c <= total_score_of data selected countries.
Proof.
  unfold total_score_of, Py.sumZ. induction countries as [|x l IH]; intros Hc.
  - by apply not_elem_of_nil in Hc.
  - simpl. pose proof (score_of_nonneg data selected x).
    pose proof (total_score_nonneg data selected l) as Hl.
    unfold total_score_of, Py.sumZ in Hl.
    apply elem_of_cons in Hc as [->|Hc]; [lia|]. specialize (IH Hc). lia.
Qed.

Section AllocatorShape.
Variable countries_data : dict CountryInfo.
Variable selected : gset string.
Variables (total_days : Z) (route : list string).
Hypothesis Hnd : NoDup (Py.interior route).
Hypothesis Hknown : Forall (known countries_data) (Py.interior route).

Abbreviation stops := (Py.interior route).
Abbreviation score := (score_of countries_data selected).
Abbreviation total := (total_score_of countries_data selected (Py.interior route)).
Abbreviation spare :=
  (total_days - MIN_DAYS_PER_COUNTRY * Z.of_nat (length (Py.interior route))).
Abbreviation share c :=
  (MIN_DAYS_PER_COUNTRY + if 0 <? spare then (spare * score c) ÷ total else 0).
Hypothesis Hexact : exact_shares countries_data selected (Py.interior route) spare.

(** The proportional branch in closed form, where the shares are exact:
    every destination gets its minimum stay plus its truncated share, and
    the destinations of a set [T] one day more; [T] is closed under "has a
    higher score". *)
Lemma distribute_days_closed :
  total ≠ 0 ->
  ∃ T : list string,
    distribute_days countries_data total_days route selected
    = Some (map (fun c => (c, if decide (c ∈ T) then share c + 1 else share c)) stops) ∧
    (∀ a b, a ∈ T -> b ∈ stops -> score a < score b -> b ∈ T) ∧
    (total_days <= Py.sumZ (map (fun c => share c) stops) -> T = []).
Proof.
  intros Hscore.
  pose proof (total_score_nonneg countries_data selected stops) as Htot.
  assert (Hne : stops ≠ []).
  { intros E. rewrite E in Hscore. by apply Hscore. }
  unfold distribute_days.
  rewrite match_nonempty by done.
  rewrite interest_scores_known by done. simpl.
  rewrite values_map_pair. fold (total_score_of countries_data selected stops).
  destruct (Z.eqb_spec total 0) as [|_]; [done|].
  rewrite assign_minimum_distinct by done. simpl.
  rewrite (add_proportional_closed score stops total spare
             (fun _ => MIN_DAYS_PER_COUNTRY));
    [|done|lia|intros c _; apply score_of_nonneg|exact Hexact].
  simpl.
  rewrite (mapM_map _ (fun x => (x, (score x, - share x)))).
  2:{ intros x Hx. by rewrite !get_map_pair. }
  simpl.
  set (ltb := fun a b : string * (Z * Z) => Py.pair_ltb (snd a) (snd b)).
  set (keyed := map (fun x => (x, (score x, - share x))) stops).
  set (leftover := total_days - Py.sumZ _).
  assert (Hperm : map fst (Py.sorted_reverse ltb keyed) ≡ₚ stops).
  { rewrite sorted_countries_perm. unfold keyed. rewrite map_map. simpl. by rewrite map_id. }
  rewrite (add_leftover_closed _ stops (fun c => share c) leftover Hnd Hperm).
  eexists. split; [reflexivity|]. split.
  2:{ intros Hle. unfold leftover. rewrite values_map_pair.
      replace (Z.to_nat _) with 0%nat by lia. done. }
  intros a b Ha Hb Hlt.
  rewrite <- fmap_take in Ha |- *.
  apply list_elem_of_fmap in Ha as ([a' ka] & -> & Ha). simpl in Hlt.
  assert (Hka : ka = (score a', - share a')).
  { apply (subseteq_take (Z.to_nat leftover)) in Ha.
    rewrite sorted_reverse_perm in Ha. unfold keyed in Ha.
    apply list_elem_of_fmap in Ha as (x & [= -> ->] & _). done. }
  subst ka.
  apply list_elem_of_fmap. exists (b, (score b, - share b)). split; [done|].
  apply (descending_prefix ltb) with (x := (a', (score a', - share a'))).
  - apply sorted_reverse_descending.
    + intros x y. apply pair_ltb_asym.
    + intros x y z. apply pair_ltb_negtrans.
  - done.
  - rewrite sorted_reverse_perm. unfold keyed. apply list_elem_of_fmap. by exists b.
  - unfold ltb, Py.pair_ltb. simpl. apply orb_true_iff. left. by apply Z.ltb_lt.
Qed.

Lemma share_monotone a b : 0 < total -> score a <= score b -> share a <= share b.
Proof.
  intros HS Hle. destruct (Z.ltb_spec 0 spare) as [HR|HR]; [|lia].
  apply Z.add_le_mono_l. apply Z.quot_le_mono; [done|]. nia.
Qed.

Lemma distribute_days_monotone_aux allocation a b da db :
  distribute_days countries_data total_days route selected = Some allocation ->
  get allocation a = Some da -> get allocation b = Some db ->
  score a < score b -> da <= db.
Proof.
  intros Hrun Ha Hb Hlt.
  pose proof (total_score_nonneg countries_data selected stops) as Htot.
  destruct (decide (total = 0)) as [Hzero|Hscore].
  - exfalso.
    destruct (decide (stops = [])) as [Hnil|Hne].
    { unfold distribute_days in Hrun. rewrite Hnil in Hrun. by injection Hrun as <-. }
    rewrite (distribute_days_zero_score countries_data selected total_days route
               Hne Hnd Hknown Hzero) in Hrun.
    injection Hrun as <-.
    apply get_Some_keys in Hb. rewrite keys_map_pair in Hb.
    pose proof (score_le_total countries_data selected stops b Hb).
    pose proof (score_of_nonneg countries_data selected a). lia.
  - destruct (distribute_days_closed Hscore) as (T & Hrun2 & Hup & _).
    rewrite Hrun in Hrun2. injection Hrun2 as ->.
    assert (Hain : a ∈ stops) by (apply get_Some_keys in Ha; by rewrite keys_map_pair in Ha).
    assert (Hbin : b ∈ stops) by (apply get_Some_keys in Hb; by rewrite keys_map_pair in Hb).
    rewrite get_map_pair in Ha, Hb by done.
    injection Ha as <-. injection Hb as <-.
    pose proof (share_monotone a b ltac:(lia) ltac:(lia)).
    destruct (decide (a ∈ T)) as [HaT|HaT].
    + rewrite decide_True by (by apply (Hup a b)). lia.
    + destruct (decide (b ∈ T)); lia.
Qed.

End AllocatorShape.

(** ** Selector: what the backtracking loop returns *)

Lemma dp_cell_chosen prev c max_items w cell :
  dp_cell prev c max_items w = Some (cell, true) -> cost_units c <= w.
Proof.
  unfold dp_cell. destruct (Py.index prev w) as [keep|]; simpl; [|done].
  destruct (Z.leb_spec (cost_units c) w); [done|]. by intros [= _ ?].
Qed.

Lemma chosen_affordable_init n : chosen_affordable [replicate n false] [].
Proof. intros i w row c Hrow. by rewrite lookup_cons_ne_0, lookup_nil in Hrow. Qed.

Lemma dp_step_affordable max_items W dp chosen candidates c dp' chosen' :
  length chosen = S (length candidates) ->
  chosen_affordable chosen candidates ->
  dp_step max_items W (Some (dp, chosen)) c = Some (dp', chosen') ->
  length chosen' = S (length (candidates ++ [c])) ∧
  chosen_affordable chosen' (candidates ++ [c]).
Proof.
  intros Hlen Hok Hstep. unfold dp_step in Hstep. simpl in Hstep.
  destruct (last dp) as [prev|]; simpl in Hstep; [|done].
  unfold dp_row in Hstep.
  destruct (mapM (dp_cell prev c max_items) (Py.range (W + 1))) as [cells|] eqn:Hcells;
    simpl in Hstep; [|done].
  injection Hstep as <- <-.
  split. { rewrite !length_app. simpl. lia. }
  intros i w row c0 Hrow Hw Hc0.
  destruct (decide (i < length candidates)%nat) as [Hi|Hi].
  - rewrite lookup_app_l in Hrow by lia. rewrite lookup_app_l in Hc0 by lia.
    by eapply Hok.
  - apply lookup_lt_Some in Hc0 as Hi'. rewrite length_app in Hi'. simpl in Hi'.
    assert (i = length candidates) as -> by lia.
    rewrite lookup_app_r in Hrow by lia.
    replace (S (length candidates) - length chosen)%nat with 0%nat in Hrow by lia.
    injection Hrow as <-.
    rewrite lookup_app_r, Nat.sub_diag in Hc0 by lia. injection Hc0 as <-.
    rewrite list_lookup_fmap in Hw.
    destruct (cells !! w) as [[cell b]|] eqn:Hcw; simpl in Hw; [|done].
    injection Hw as ->.
    apply mapM_Some_1 in Hcells.
    destruct (Forall2_lookup_r _ _ _ _ _ Hcells Hcw) as (z & Hz & Hcell).
    unfold Py.range in Hz. apply lookup_seqZ in Hz as [-> _].
    apply dp_cell_chosen in Hcell. lia.
Qed.

Lemma dp_fold_affordable max_items W rest : ∀ dp chosen candidates dp' chosen',
  length chosen = S (length candidates) ->
  chosen_affordable chosen candidates ->
  fold_left (dp_step max_items W) rest (Some (dp, chosen)) = Some (dp', chosen') ->
  chosen_affordable chosen' (candidates ++ rest).
Proof.
  induction rest as [|c rest IH]; intros dp chosen candidates dp' chosen' Hlen Hok Hrun.
  - injection Hrun as <- <-. by rewrite app_nil_r.
  - cbn [fold_left] in Hrun.
    destruct (dp_step max_items W (Some (dp, chosen)) c) as [[dp1 ch1]|] eqn:Hstep.
    + apply (dp_step_affordable _ _ _ _ candidates) in Hstep as [Hlen1 Hok1]; [|done..].
      replace (candidates ++ c :: rest) with ((candidates ++ [c]) ++ rest)
        by (by rewrite <- app_assoc).
      by eapply IH.
    + exfalso. clear -Hrun. induction rest as [|x rest IH]; [done|]. by apply IH.
Qed.

(** The selection names distinct candidates, latest first, and pays for
    each of them in budget units. *)
Lemma backtrack_items chosen candidates :
  chosen_affordable chosen candidates ->
  ∀ (i : nat) (w : Z) sel,
    0 <= w ->
    backtrack chosen candidates i w = Some sel ->
    ∃ items, sel = map country items ∧
             items `sublist_of` rev (take i candidates) ∧
             Py.sumZ (map cost_units items) <= w.
Proof.
  intros Hok. induction i as [|i IH]; intros w sel Hw Hrun.
  - injection Hrun as <-. exists []. split; [done|]. split; [apply sublist_nil_l|].
    unfold Py.sumZ. simpl. lia.
  - cbn [backtrack] in Hrun.
    destruct (chosen !! S i) as [row|] eqn:Hrow; simpl in Hrun; [|done].
    rewrite index_nonneg in Hrun by done.
    destruct (row !! Z.to_nat w) as [b|] eqn:Hb; simpl in Hrun; [|done].
    destruct b.
    + destruct (candidates !! i) as [c|] eqn:Hc; simpl in Hrun; [|done].
      pose proof (Hok i (Z.to_nat w) row c Hrow Hb Hc) as Hcu.
      destruct (backtrack chosen candidates i (w - cost_units c)) as [rest|] eqn:Hrest;
        simpl in Hrun; [|done].
      injection Hrun as <-.
      apply IH in Hrest as (items & -> & Hsub & Hsum); [|lia].
      exists (c :: items). split; [done|]. split.
      * rewrite (take_S_r _ _ c) by done. rewrite rev_app_distr. simpl.
        by apply sublist_skip.
      * unfold Py.sumZ in *. simpl. lia.
    + apply IH in Hrun as (items & -> & Hsub & Hsum); [|done].
      exists items. split; [done|]. split; [|done].
      destruct (candidates !! i) as [c|] eqn:Hc.
      * rewrite (take_S_r _ _ c) by done. rewrite rev_app_distr. simpl.
        by apply sublist_cons.
      * apply lookup_ge_None in Hc. rewrite take_ge in Hsub |- * by lia. done.
Qed.

(** A minimum cost is less than one budget unit above its truncation. *)
Lemma min_cost_below_next_unit (c : candidate) :
  (0 <= min_cost c)%Q -> (min_cost c < inject_Z (10 * (cost_units c + 1)))%Q.
Proof.
  intros Hc. unfold cost_units, Py.int, granularity.
  destruct (min_cost c) as [n d]. unfold Qle in Hc. simpl in *.
  unfold Qlt. simpl.
  rewrite Pos2Z.inj_mul. rewrite Z.mul_1_r in *.
  pose proof (Z.quot_rem' n (Z.pos d * 10)) as Hqr.
  pose proof (Z.rem_bound_pos n (Z.pos d * 10) ltac:(lia) ltac:(lia)) as Hr.
  nia.
Qed.

Lemma int_le_self (x : Q) : (0 <= x)%Q -> (inject_Z (Py.int x) <= x)%Q.
Proof.
  intros Hx. unfold Py.int. destruct x as [n d]. unfold Qle in *. simpl in *.
  pose proof (Z.quot_rem' n (Z.pos d)) as Hqr.
  pose proof (Z.rem_bound_pos n (Z.pos d) ltac:(lia) ltac:(lia)) as Hr.
  nia.
Qed.

Lemma total_min_cost_units (items : list candidate) :
  Forall (fun c => (0 <= min_cost c)%Q) items ->
  (total_min_cost items
   <= inject_Z (10 * Py.sumZ (map cost_units items) + 10 * Z.of_nat (length items)))%Q.
Proof.
  unfold total_min_cost, Py.sumZ. induction 1 as [|c items Hc Hall IH]; [done|].
  cbn [map foldr length]. pose proof (min_cost_below_next_unit c Hc) as Hlt.
  apply Qlt_le_weak in Hlt.
  replace (10 * (cost_units c + foldr Z.add 0 (map cost_units items))
           + 10 * Z.of_nat (S (length items)))
    with (10 * (cost_units c + 1)
          + (10 * foldr Z.add 0 (map cost_units items) + 10 * Z.of_nat (length items)))
    by lia.
  rewrite inject_Z_plus. by apply Qplus_le_compat.
Qed.

Lemma total_min_cost_units_strict (items : list candidate) :
  items ≠ [] ->
  Forall (fun c => (0 <= min_cost c)%Q) items ->
  (total_min_cost items
   < inject_Z (10 * Py.sumZ (map cost_units items) + 10 * Z.of_nat (length items)))%Q.
Proof.
  intros Hne Hall. destruct Hall as [|c items Hc Hall]; [done|].
  pose proof (total_min_cost_units items Hall) as Hrest.
  pose proof (min_cost_below_next_unit c Hc) as Hlt.
  unfold total_min_cost, Py.sumZ in *. cbn [map foldr length].
  replace (10 * (cost_units c + foldr Z.add 0 (map cost_units items))
           + 10 * Z.of_nat (S (length items)))
    with (10 * (cost_units c + 1)
          + (10 * foldr Z.add 0 (map cost_units items) + 10 * Z.of_nat (length items)))
    by lia.
  rewrite inject_Z_plus. by apply Qplus_lt_le_compat.
Qed.

Lemma sublist_Forall {A} (P : A -> Prop) (l1 l2 : list A) :
  l1 `sublist_of` l2 -> Forall P l2 -> Forall P l1.
Proof.
  intros Hsub Hall. rewrite Forall_forall in Hall |- *. intros x Hx.
  apply Hall. by eapply elem_of_sublist.
Qed.

(** The knapsack path, as a whole. *)
Lemma knapsack_select_items (candidates : list candidate) (budget : Q) (max_items : Z) :
  0 <= max_items ->
  Forall (fun c => (0 <= min_cost c)%Q) candidates ->
  ∃ items,
    _knapsack_select candidates budget max_items = Some (map country items) ∧
    items `sublist_of` rev candidates ∧
    Z.of_nat (length items) <= max_items ∧
    Py.sumZ (map cost_units items) <= Z.max 0 (Py.int (budget / granularity)) ∧
    (items = [] ∨
     (total_min_cost items < budget + inject_Z (10 * Z.of_nat (length items)))%Q).
Proof.
  intros Hmax Hall. unfold _knapsack_select.
  set (W := Py.int (budget / granularity)).
  destruct (Z.leb_spec W 0) as [HW|HW].
  { exists []. split; [done|]. split; [apply sublist_nil_l|]. split; [simpl; lia|].
    split; [unfold Py.sumZ; simpl; lia|by left]. }
  destruct (dp_fold_ok max_items W candidates _ _ [] Hall (tables_ok_init max_items W Hmax))
    as (dp & chosen & Hfold & Hlen & row & Hlast & Hrow).
  unfold dp_tables. rewrite Hfold. simpl.
  assert (Hok : chosen_affordable chosen candidates).
  { change candidates with ([] ++ candidates).
    eapply dp_fold_affordable; [|apply chosen_affordable_init|exact Hfold]. done. }
  cbn [app] in Hlen, Hrow.
  destruct (Hrow (Z.to_nat W)) as (s & n & sel & _ & Hn & Hbt & Hsel); [lia|].
  rewrite Z2Nat.id in Hbt by lia.
  destruct (backtrack_items chosen candidates Hok (length candidates) W sel ltac:(lia) Hbt)
    as (items & -> & Hsub & Hsum).
  rewrite firstn_all in Hsub. rewrite length_map in Hsel.
  exists items. split; [done|]. split; [done|]. split; [lia|]. split; [lia|].
  destruct (decide (items = [])) as [?|Hne]; [by left|right].
  assert (Hnn : Forall (fun c => (0 <= min_cost c)%Q) items).
  { eapply sublist_Forall; [exact Hsub|]. by apply Forall_rev. }
  eapply Qlt_le_trans; [by apply total_min_cost_units_strict|].
  rewrite inject_Z_plus. apply Qplus_le_compat; [|apply Qle_refl].
  assert (Hb : (0 <= budget / granularity)%Q).
  { destruct (Qlt_le_dec (budget / granularity) 0) as [Hneg|]; [|done].
    exfalso. unfold W, Py.int in HW. destruct (budget / granularity)%Q as [p q].
    unfold Qlt in Hneg. simpl in *.
    pose proof (Z.quot_le_upper_bound p (Z.pos q) 0 ltac:(lia) ltac:(lia)). lia. }
  pose proof (int_le_self _ Hb) as Hint. fold W in Hint.
  apply Qle_trans with (inject_Z (10 * W)).
  { rewrite <- Zle_Qle. lia. }
  rewrite inject_Z_mult.
  apply Qle_trans with (inject_Z 10 * (budget / granularity))%Q.
  { apply Qmult_le_l; [done|exact Hint]. }
  apply Qle_lteq. right. unfold granularity. change (inject_Z 10) with 10%Q. field.
Qed.

(** ** Selector: candidates and the two paths *)

Section Candidates.
Variable countries_data : dict CountryInfo.
Variable selected : gset string.
Variable home_country : string.

Abbreviation eligible := (eligible countries_data selected home_country).
Abbreviation candidate_of := (candidate_of countries_data selected).

Lemma interest_score_known (c : string) :
  known countries_data c ->
  interest_score countries_data c selected = Some (score_of countries_data selected c).
Proof. intros [d Hd]. unfold interest_score, score_of. by rewrite Hd. Qed.

Lemma minimum_cost_known (c : string) :
  known countries_data c ->
  minimum_cost countries_data c = Some (min_cost_of countries_data c).
Proof. intros [d Hd]. unfold min_cost_of, minimum_cost. by rewrite Hd. Qed.

(** The candidates are the eligible keys, in catalog order. *)
Lemma build_candidates_eligible (items : dict CountryInfo) :
  keys items ⊆ keys countries_data ->
  build_candidates countries_data items selected home_country
  = Some (map candidate_of (filter eligible (keys items))).
Proof.
  induction items as [|[c info] items IH]; intros Hsub; [done|].
  assert (Hc : known countries_data c).
  { apply keys_get_Some, Hsub, list_elem_of_here. }
  assert (Hrest : keys items ⊆ keys countries_data).
  { intros x Hx. apply Hsub. by apply list_elem_of_further. }
  specialize (IH Hrest).
  cbn [build_candidates keys map fst]. fold (keys items).
  destruct (decide (c = home_country)) as [->|Hne].
  { rewrite filter_cons_False; [done|]. by intros [? _]. }
  rewrite interest_score_known by done. simpl.
  destruct (Z.ltb_spec 0 (score_of countries_data selected c)) as [Hpos|Hzero].
  - rewrite minimum_cost_known by done. simpl. rewrite IH. simpl.
    rewrite filter_cons_True; [done|]. by split.
  - rewrite filter_cons_False; [done|]. intros [_ ?]. lia.
Qed.

Lemma min_cost_of_nonneg (c : string) :
  valid countries_data c -> (0 <= min_cost_of countries_data c)%Q.
Proof.
  intros (d & Hd & Ht & Ha). unfold min_cost_of, minimum_cost. rewrite Hd. simpl.
  apply Qle_trans with (0 + 0 * inject_Z MIN_DAYS_PER_COUNTRY)%Q; [by vm_compute|].
  apply Qplus_le_compat; [done|]. by apply Qmult_le_compat_r.
Qed.

Lemma candidates_nonneg (ks : list string) :
  Forall (valid countries_data) ks ->
  Forall (fun c => (0 <= min_cost c)%Q) (map candidate_of (filter eligible ks)).
Proof.
  intros Hv. apply Forall_forall. intros c Hc.
  apply list_elem_of_fmap in Hc as (k & -> & Hk). simpl.
  apply list_elem_of_filter in Hk as [_ Hk]. rewrite Forall_forall in Hv.
  by apply min_cost_of_nonneg, Hv.
Qed.

End Candidates.

Lemma greedy_loop_count (float_add : Q -> Q -> Q) (budget : Q) (max_items : Z) :
  ∀ (sorted_candidates : list candidate) (picked : list string) (total_cost : Q),
    Z.of_nat (length (greedy_loop float_add sorted_candidates budget max_items picked
                        total_cost))
    <= Z.max (Z.of_nat (length picked)) max_items.
Proof.
  induction sorted_candidates as [|c rest IH]; intros picked total_cost; cbn [greedy_loop].
  - lia.
  - destruct (Z.leb_spec max_items (Z.of_nat (length picked))) as [Hfull|Hroom]; [lia|].
    destruct (Qle_bool (float_add total_cost (min_cost c)) budget).
    + specialize (IH (picked ++ [country c]) (float_add total_cost (min_cost c))).
      rewrite length_app in IH. simpl in IH. lia.
    + specialize (IH picked total_cost). lia.
Qed.

Lemma max_Q_is_Some (l : list Q) : l ≠ [] -> is_Some (Py.max_Q l).
Proof. destruct l; [done|]. by eexists. Qed.

Section Selection.
Variable countries_data : dict CountryInfo.
Variable float_add : Q -> Q -> Q.
Variable selected : gset string.
Variable home_country : string.
Hypothesis Hvalid : Forall (valid countries_data) (keys countries_data).

Abbreviation candidates :=
  (map (candidate_of countries_data selected)
     (filter (eligible countries_data selected home_country) (keys countries_data))).

(** Whatever path is taken, the selection names some of the candidates,
    each at most once, and no more of them than asked for. *)
Lemma select_countries_items (num_countries : Z) (budget : Q) :
  0 <= num_countries ->
  ∃ items,
    select_countries countries_data float_add selected num_countries home_country budget
    = Some (map country items) ∧
    items ⊆+ candidates ∧
    Z.of_nat (length items) <= num_countries.
Proof.
  intros Hnum. unfold select_countries.
  rewrite build_candidates_eligible by done. simpl.
  destruct candidates as [|c0 cs] eqn:Hcands.
  { exists []. split; [done|]. split; [done|simpl; lia]. }
  rewrite <- Hcands.
  rewrite (mapM_map _ (fun c => match get countries_data c with
                                | Some d => avg_travel_cost d | None => 0%Q end)).
  2:{ intros c Hc. apply keys_get_Some in Hc as [d Hd]. by rewrite Hd. }
  simpl.
  destruct (max_Q_is_Some
              (map (fun c => match get countries_data c with
                             | Some d => avg_travel_cost d | None => 0%Q end)
                 (keys countries_data))) as [m Hm].
  { destruct (keys countries_data); [done|done]. }
  rewrite Hm. simpl.
  destruct (Qle_bool (budget * BUDGET_SAFETY_MARGIN - m) 0).
  { exists []. split; [done|]. split; [apply submseteq_nil_l|simpl; lia]. }
  destruct (length candidates <=? 50)%nat.
  - destruct (knapsack_select_items candidates (budget * BUDGET_SAFETY_MARGIN - m)
                num_countries Hnum) as (items & Hrun & Hsub & Hcount & _).
    { by apply candidates_nonneg. }
    exists items. split; [done|]. split; [|done].
    apply sublist_submseteq in Hsub. by rewrite <- Permutation_rev in Hsub.
  - destruct (greedy_select_picks float_add candidates (budget * BUDGET_SAFETY_MARGIN - m)
                num_countries) as (picked & Hsub & Hperm & Hrun & _ & _).
    exists picked. split; [by rewrite Hrun|]. split.
    + apply sublist_submseteq in Hsub. by rewrite Hperm in Hsub.
    + pose proof (greedy_loop_count float_add (budget * BUDGET_SAFETY_MARGIN - m)
                    num_countries (Py.sorted greedy_ltb candidates) [] 0%Q) as Hc.
      fold (_greedy_select float_add candidates (budget * BUDGET_SAFETY_MARGIN - m)
              num_countries) in Hc.
      rewrite Hrun, length_map in Hc. simpl in Hc. lia.
Qed.

Lemma select_countries_selection (num_countries : Z) (budget : Q) :
  0 <= num_countries ->
  ∃ selection,
    select_countries countries_data float_add selected num_countries home_country budget
    = Some selection ∧
    selection ⊆+ filter (eligible countries_data selected home_country) (keys countries_data) ∧
    Z.of_nat (length selection) <= num_countries.
Proof.
  intros Hnum.
  destruct (select_countries_items num_countries budget Hnum) as (items & Hrun & Hsub & Hlen).
  exists (map country items). split; [done|]. split; [|by rewrite length_map].
  apply (fmap_submseteq country) in Hsub.
  rewrite <- list_fmap_compose in Hsub. simpl in Hsub.
  by rewrite list_fmap_id in Hsub.
Qed.

End Selection.

(** ** Costs *)



Section TripCosts.
Variable countries_data : dict CountryInfo.

Abbreviation travel c :=
  (match get countries_data c with Some d => avg_travel_cost d | None => 0%Q end).
Abbreviation nightly c :=
  (match get countries_data c with Some d => avg_accommodation_cost d | None => 0%Q end).


End TripCosts.

(** ** Allocator: exactly the minimum stays *)

Lemma distribute_days_two_each (countries_data : dict CountryInfo) (selected : gset string)
    (route : list string) :
  Py.interior route ≠ [] ->
  NoDup (Py.interior route) ->
  Forall (known countries_data) (Py.interior route) ->
  distribute_days countries_data
    (MIN_DAYS_PER_COUNTRY * Z.of_nat (length (Py.interior route))) route selected
  = Some (map (fun c => (c, MIN_DAYS_PER_COUNTRY)) (Py.interior route)).
Proof.
  intros Hne Hnd Hk.
  assert (Hn : 0 < Z.of_nat (length (Py.interior route))).
  { destruct (Py.interior route); [done|]. simpl length. lia. }
  destruct (decide (total_score_of countries_data selected (Py.interior route) = 0))
    as [Hzero|Hscore].
  - rewrite distribute_days_zero_score by done.
    rewrite Z.div_mul by lia. done.
  - assert (Hexact : exact_shares countries_data selected (Py.interior route)
              (MIN_DAYS_PER_COUNTRY * Z.of_nat (length (Py.interior route))
               - MIN_DAYS_PER_COUNTRY * Z.of_nat (length (Py.interior route)))).
    { apply exact_shares_no_spare. lia. }
    destruct (distribute_days_closed countries_data selected
                (MIN_DAYS_PER_COUNTRY * Z.of_nat (length (Py.interior route))) route
                Hnd Hk Hexact Hscore) as (T & Hrun & _ & HT).
    rewrite Hrun. rewrite Z.sub_diag in *. simpl in HT.
    rewrite HT.
    2:{ rewrite (sumZ_const (MIN_DAYS_PER_COUNTRY + 0)). unfold MIN_DAYS_PER_COUNTRY. lia. }
    apply (f_equal Some), map_ext. intros c. cbv beta.
    rewrite decide_False by apply not_elem_of_nil. simpl. done.
Qed.

(** The same for the number of days the enforcer asks for. *)
Lemma distribute_days_minimum_stays_aux (countries_data : dict CountryInfo)
    (selected : gset string) (route : list string) :
  Py.interior route ≠ [] ->
  NoDup (Py.interior route) ->
  Forall (known countries_data) (Py.interior route) ->
  distribute_days countries_data
    (Z.max (Z.of_nat (length (Py.interior route)) * MIN_DAYS_PER_COUNTRY) 1) route selected
  = Some (map (fun c => (c, MIN_DAYS_PER_COUNTRY)) (Py.interior route)).
Proof.
  intros Hne Hnd Hknown.
  replace (Z.max _ 1)
    with (MIN_DAYS_PER_COUNTRY * Z.of_nat (length (Py.interior route))).
  - by apply distribute_days_two_each.
  - destruct (Py.interior route); [done|]. simpl length. unfold MIN_DAYS_PER_COUNTRY. lia.
Qed.

(** ** Budget enforcer: which destination is the worst *)


Section FirstWorst.
Variable countries_data : dict CountryInfo.
Variable selected : gset string.

Abbreviation ratio := (ratio_of countries_data selected).
Abbreviation body :=
  (fun '(worst_country, worst_ratio) c =>
     data ← get countries_data c;
     let ratio := value_ratio data selected in
     if Py.ratio_ltb worst_ratio ratio then Some (c, ratio)
     else Some (worst_country, worst_ratio)).



End FirstWorst.

(** ** The planning pipeline *)

Lemma sublist_full {A} (l1 l2 : list A) :
  l1 `sublist_of` l2 -> (length l2 <= length l1)%nat -> l1 = l2.
Proof.
  induction 1 as [|x l1 l2 Hsub IH|x l1 l2 Hsub IH]; intros Hlen; [done| |].
  - f_equal. apply IH. simpl in Hlen. lia.
  - apply sublist_length in Hsub. simpl in Hlen. lia.
Qed.

Lemma submseteq_NoDup {A} (l k : list A) : l ⊆+ k -> NoDup k -> NoDup l.
Proof.
  intros Hsub Hnd. apply submseteq_Permutation in Hsub as [k' Hk'].
  rewrite Hk' in Hnd. by apply NoDup_app in Hnd as [? _].
Qed.

Lemma total_score_positive data selected (countries : list string) :
  countries ≠ [] ->
  Forall (fun c => 0 < score_of data selected c) countries ->
  total_score_of data selected countries ≠ 0.
Proof.
  intros Hne Hall. destruct Hall as [|c cs Hc Hcs]; [done|].
  pose proof (score_le_total data selected (c :: cs) c (list_elem_of_here _ _)). lia.
Qed.

Lemma exact_shares_mono (data : dict CountryInfo) (selected : gset string)
    (stops stops' : list string) (spare spare' : Z) :
  stops' ⊆ stops -> spare' <= spare ->
  exact_shares data selected stops spare -> exact_shares data selected stops' spare'.
Proof.
  intros Hsub Hle H c Hc. specialize (H c (Hsub c Hc)).
  pose proof (score_of_nonneg data selected c). nia.
Qed.

Section Pipeline.
Import Itinerary.
Context {D : Type}.
Variable haversine_distance : Q * Q -> Q * Q -> option D.
Variable d_zero : D.
Variable d_add : D -> D -> D.
Variable d_ltb : D -> D -> bool.
Variable countries_data : dict CountryInfo.
Variable float_add : Q -> Q -> Q.
Variable home_country : string.
Variable interests : gset string.
Hypothesis Hkeys : NoDup (keys countries_data).
Hypothesis Hvalid : Forall (valid countries_data) (keys countries_data).

Abbreviation eligible := (eligible countries_data interests home_country).
Abbreviation plan :=
  (generate_itinerary haversine_distance d_zero d_add d_ltb countries_data float_add
     home_country).

(** A set of destinations the pipeline may route: distinct eligible
    keys of the catalog. *)
Abbreviation routable stops :=
  (NoDup stops ∧ Forall eligible stops ∧ Forall (known countries_data) stops).

Lemma routable_submseteq (l : list string) :
  l ⊆+ filter eligible (keys countries_data) -> routable l.
Proof.
  intros Hsub. split; [|split].
  - eapply submseteq_NoDup; [exact Hsub|]. by apply NoDup_filter.
  - apply Forall_forall. intros x Hx.
    eapply elem_of_submseteq in Hx; [|exact Hsub]. by apply list_elem_of_filter in Hx as [? _].
  - apply Forall_forall. intros x Hx.
    eapply elem_of_submseteq in Hx; [|exact Hsub]. apply list_elem_of_filter in Hx as [_ Hx].
    by apply keys_get_Some.
Qed.

Lemma routable_sublist (l k : list string) : l `sublist_of` k -> routable k -> routable l.
Proof.
  intros Hsub (Hnd & He & Hk). split; [|split].
  - by eapply sublist_NoDup.
  - by eapply sublist_Forall.
  - by eapply sublist_Forall.
Qed.

Lemma routable_perm (l k : list string) : l ≡ₚ k -> routable k -> routable l.
Proof. intros Hp (Hnd & He & Hk). split; [|split]; by rewrite Hp. Qed.

Lemma routable_keys (l : list string) : routable l -> l ⊆ keys countries_data.
Proof.
  intros (_ & _ & Hk) x Hx. rewrite Forall_forall in Hk.
  destruct (Hk x Hx) as [d Hd]. by eapply get_Some_keys.
Qed.

(** Allocating the days of a round trip through a routable set, and
    costing it. *)
Lemma allocate (p : list string) (total_days : Z) :
  known countries_data home_country ->
  p ≠ [] -> routable p ->
  MIN_DAYS_PER_COUNTRY * Z.of_nat (length p) <= total_days ->
  exact_shares countries_data interests p
    (total_days - MIN_DAYS_PER_COUNTRY * Z.of_nat (length p)) ->
  ∃ days cost,
    distribute_days countries_data total_days (home_country :: p ++ [home_country]) interests
    = Some days ∧
    keys days = p ∧
    Forall (fun v => MIN_DAYS_PER_COUNTRY <= v) (values days) ∧
    Py.sumZ (values days) = total_days ∧
    calculate_total_cost countries_data (home_country :: p ++ [home_country]) days
    = Some cost.
Proof.
  intros Hhome Hne (Hnd & He & Hk) Hdays Hexact.
  assert (Hint : Py.interior (home_country :: p ++ [home_country]) = p)
    by apply interior_framed.
  destruct (distribute_days_allocation countries_data interests total_days
              (home_country :: p ++ [home_country]))
    as (days & Hd & Hkd & Hmin & Hsum & _); try by rewrite Hint.
  rewrite Hint in Hkd, Hsum.
  destruct (calculate_total_cost_known countries_data (home_country :: p ++ [home_country])
              days) as [cost Hcost].
  { constructor; [done|]. apply Forall_app. split; [done|by constructor]. }
  exists days, cost. repeat split; try done.
  apply Hsum. apply total_score_positive; [done|].
  eapply Forall_impl; [exact He|]. by intros x [_ ?].
Qed.

(** The route through a routable set, when the router returns one. *)
Lemma route_result (stops : list string) (c : gmap (string * string) D) route c' :
  routable stops ->
  solve_tsp haversine_distance d_zero d_add d_ltb countries_data stops home_country c
  = Some (route, c') ->
  ∃ p, route = home_country :: p ++ [home_country] ∧ p ≡ₚ stops.
Proof.
  intros (Hnd & He & Hk) Hrun. apply solve_tsp_shape in Hrun as (p & -> & Hperm).
  rewrite filter_all in Hperm; [by exists p|].
  eapply Forall_impl; [exact He|]. by intros x [? _].
Qed.

Lemma respond_result (route : list string) (days : dict Z) (warnings : list notice)
    (c : gmap (string * string) D) r c' :
  respond haversine_distance d_zero d_add countries_data route days warnings c
  = Some (r, c') ->
  ∃ cost distance,
    r = Planned route days warnings cost distance ∧
    calculate_total_cost countries_data route days = Some cost.
Proof.
  unfold respond. intros Hrun.
  apply bind_Some in Hrun as (cost & c1 & Hcost & Hrun).
  apply lift_Some in Hcost as [Hcost ->].
  apply bind_Some in Hrun as (distance & c2 & _ & Hrun).
  injection Hrun as <- <-. by exists cost, distance.
Qed.

Lemma respond_runs (p : list string) (days : dict Z) (warnings : list notice) (cost : Q)
    (c : gmap (string * string) D) :
  distances_defined haversine_distance countries_data (keys countries_data) ->
  home_country ∈ keys countries_data ->
  p ⊆ keys countries_data ->
  calculate_total_cost countries_data (home_country :: p ++ [home_country]) days = Some cost ->
  ∃ distance c',
    respond haversine_distance d_zero d_add countries_data
      (home_country :: p ++ [home_country]) days warnings c
    = Some (Planned (home_country :: p ++ [home_country]) days warnings cost distance, c').
Proof.
  intros Hdef Hhome Hk Hcost. unfold respond, bind, lift. rewrite Hcost.
  destruct (route_distance_loop_known haversine_distance d_add countries_data
              (keys countries_data)) with
    (route := home_country :: p ++ [home_country]) (total := d_zero) (c := c)
    as (d & c' & Hd).
  { apply Forall_forall. intros x Hx. by apply keys_get_Some. }
  { done. }
  { constructor; [done|]. apply Forall_app. split; [|by constructor].
    apply Forall_forall. intros x Hx. by apply Hk. }
  unfold get_route_total_distance, _route_total_distance. rewrite Hd. by exists d, c'.
Qed.

(** What the planning steps return, when they return.  A plan is a round
    trip from home through at most [num_countries] distinct eligible
    destinations, with the allocation of [distribute_days] for that route
    and the cost of that route and allocation. *)
Lemma generate_itinerary_result (num_countries : Z) (budget : Q) (total_days : Z)
    (c : gmap (string * string) D) r c' :
  0 <= num_countries ->
  plan num_countries interests budget total_days c = Some (r, c') ->
  match r with
  | BadRequest => home_country ∉ keys countries_data ∨ total_days < num_countries * 2
  | NoRoute warnings =>
      home_country ∈ keys countries_data ∧ num_countries * 2 <= total_days ∧
      (warnings = [BudgetTooLow] ∨
       ∃ ws cost, warnings = map FromEnforcer (ws ++ [Insufficient budget cost]) ∧
                  (budget < cost)%Q)
  | Planned route days warnings cost distance =>
      home_country ∈ keys countries_data ∧ num_countries * 2 <= total_days ∧
      ∃ p, route = home_country :: p ++ [home_country] ∧
           p ≠ [] ∧ routable p ∧
           Z.of_nat (length p) <= num_countries ∧
           distribute_days countries_data total_days route interests = Some days ∧
           calculate_total_cost countries_data route days = Some cost ∧
           (∃ removed, warnings = map FromEnforcer removed ∧
                       length (removed_countries removed) = length removed)
  end.
Proof.
  intros Hnum Hrun. unfold generate_itinerary in Hrun.
  destruct (bool_decide_reflect (home_country ∈ keys countries_data)) as [Hin|Hout].
  2:{ injection Hrun as <- <-. by left. }
  destruct (Z.ltb_spec total_days (num_countries * 2)) as [Hshort|Hdays].
  { injection Hrun as <- <-. by right. }
  destruct (select_countries_selection countries_data float_add interests home_country
              Hvalid num_countries budget Hnum) as (selection & Hsel & Hsub & Hcount).
  apply bind_Some in Hrun as (sel & c0 & Hs & Hrun). apply lift_Some in Hs as [Hs ->].
  rewrite Hsel in Hs. injection Hs as <-.
  apply routable_submseteq in Hsub as Hroutable.
  destruct selection as [|s0 rest] eqn:Hselection.
  { injection Hrun as <- <-. split; [done|]. split; [done|by left]. }
  rewrite <- Hselection in *.
  assert (Hne : selection ≠ []) by (by rewrite Hselection). clear Hselection.
  apply bind_Some in Hrun as (route & c1 & Hroute & Hrun).
  apply route_result in Hroute as (p & -> & Hperm); [|done].
  assert (Hrp : routable p) by (by eapply routable_perm).
  assert (Hpne : p ≠ []).
  { intros ->. apply Permutation_nil_l in Hperm. by subst. }
  apply bind_Some in Hrun as (days & c2 & Hd & Hrun). apply lift_Some in Hd as [Hd ->].
  apply bind_Some in Hrun as (cost & c3 & Hc & Hrun). apply lift_Some in Hc as [Hc ->].
  destruct (Qle_bool cost budget) eqn:Hfit; cbn [negb] in Hrun.
  { apply respond_result in Hrun as (cost' & distance & -> & Hcost').
    split; [done|]. split; [done|]. exists p. split; [done|]. split; [done|].
    split; [done|]. split; [by rewrite (Permutation_length Hperm)|].
    repeat split; try done. by exists []. }
  apply bind_Some in Hrun as ([[final warnings] days'] & c2 & Henf & Hrun).
  unfold enforce_budget in Henf.
  apply enforce_loop_outcome in Henf as (ws & Hws & Hsubl & Hcases).
  simpl in Hws. subst warnings.
  destruct final as [|f0 frest] eqn:Hfinal.
  { injection Hrun as <- <-. split; [done|]. split; [done|].
    destruct Hcases as [(-> & _)|[(Hfin & _)|Hnone]]; [done|done|].
    destruct Hnone as (_ & _ & ws0 & last & c4 & r0 & d0 & cost0 & -> & _ & _ & _ & _ & _
                       & Hgt).
    right. by exists ws0, cost0. }
  rewrite <- Hfinal in *. assert (Hfin : final ≠ []) by (by rewrite Hfinal). clear Hfinal.
  assert (Hcnt : length (removed_countries ws) = length ws).
  { destruct Hcases as [(_ & -> & _)|[(_ & _ & Hcnt & _)|(-> & _)]]; done. }
  assert (Hrf : routable final) by (by eapply routable_sublist).
  assert (Hstep : ∃ route2 c5, solve_tsp haversine_distance d_zero d_add d_ltb
                    countries_data final home_country c2 = Some (route2, c5) ∧
            bind (lift (distribute_days countries_data total_days route2 interests))
              (fun days_distribution =>
                 respond haversine_distance d_zero d_add countries_data route2
                   days_distribution (map FromEnforcer ws)) c5 = Some (r, c')).
  { destruct final; [done|]. apply bind_Some in Hrun as (route2 & c5 & H1 & H2).
    by exists route2, c5. }
  destruct Hstep as (route2 & c5 & Hroute2 & Hrun2).
  apply route_result in Hroute2 as (p' & -> & Hperm2); [|done].
  assert (Hrp' : routable p') by (by eapply routable_perm).
  assert (Hpne' : p' ≠ []).
  { intros ->. apply Permutation_nil_l in Hperm2. by subst. }
  assert (Hlen' : Z.of_nat (length p') <= num_countries).
  { rewrite (Permutation_length Hperm2). apply sublist_length in Hsubl. lia. }
  apply bind_Some in Hrun2 as (days2 & c6 & Hd2 & Hrun2).
  apply lift_Some in Hd2 as [Hd2 ->].
  apply respond_result in Hrun2 as (cost' & distance & -> & Hcost').
  split; [done|]. split; [done|]. exists p'. split; [done|]. split; [done|].
  split; [done|]. split; [done|]. repeat split; try done. by exists ws.
Qed.

(** The allocation of a plan, where the shares are exact. *)
Lemma plan_allocation (p : list string) (total_days num_countries : Z) (days : dict Z) :
  0 <= num_countries ->
  exact_shares countries_data interests (keys countries_data) total_days ->
  home_country ∈ keys countries_data ->
  num_countries * 2 <= total_days ->
  p ≠ [] -> routable p -> Z.of_nat (length p) <= num_countries ->
  distribute_days countries_data total_days (home_country :: p ++ [home_country]) interests
  = Some days ->
  keys days = p ∧
  Forall (fun v => MIN_DAYS_PER_COUNTRY <= v) (values days) ∧
  Py.sumZ (values days) = total_days.
Proof.
  intros Hnum Hexact Hin Hdays Hne Hr Hlen Hrun.
  destruct (allocate p total_days) as (days' & cost & Hd & Hk & Hmin & Hsum & _);
    try done.
  - by apply keys_get_Some.
  - unfold MIN_DAYS_PER_COUNTRY. lia.
  - apply (exact_shares_mono countries_data interests (keys countries_data) p total_days);
      [by apply routable_keys|unfold MIN_DAYS_PER_COUNTRY; lia|exact Hexact].
  - rewrite Hrun in Hd. by injection Hd as <-.
Qed.

(** The planning steps raise nothing on a catalog of valid records
    between which every distance can be computed, for shares in the range
    where the float quotient is exact. *)
Lemma generate_itinerary_runs (num_countries : Z) (budget : Q) (total_days : Z)
    (c : gmap (string * string) D) :
  0 <= num_countries ->
  exact_shares countries_data interests (keys countries_data) total_days ->
  distances_defined haversine_distance countries_data (keys countries_data) ->
  is_Some (plan num_countries interests budget total_days c).
Proof.
  intros Hnum Hexact Hdef. unfold generate_itinerary.
  destruct (bool_decide_reflect (home_country ∈ keys countries_data)) as [Hin|Hout];
    [|by eexists].
  assert (Hhome : known countries_data home_country) by by apply keys_get_Some.
  destruct (Z.ltb_spec total_days (num_countries * 2)) as [Hshort|Hdays]; [by eexists|].
  destruct (select_countries_selection countries_data float_add interests home_country
              Hvalid num_countries budget Hnum) as (selection & Hsel & Hsub & Hcount).
  unfold bind at 1, lift at 1. rewrite Hsel.
  apply routable_submseteq in Hsub as Hroutable.
  assert (Hdefs : ∀ stops, routable stops ->
            distances_defined haversine_distance countries_data (home_country :: stops)).
  { intros stops Hr. eapply distances_defined_subseteq; [|exact Hdef].
    intros x Hx. apply elem_of_cons in Hx as [->|Hx]; [done|].
    exact (routable_keys stops Hr x Hx). }
  assert (Hroutes : ∀ stops c0, stops ≠ [] -> routable stops ->
            Z.of_nat (length stops) <= num_countries ->
            ∃ p c1 days cost,
              solve_tsp haversine_distance d_zero d_add d_ltb countries_data stops
                home_country c0 = Some (home_country :: p ++ [home_country], c1) ∧
              p ⊆ keys countries_data ∧
              distribute_days countries_data total_days
                (home_country :: p ++ [home_country]) interests = Some days ∧
              calculate_total_cost countries_data (home_country :: p ++ [home_country]) days
              = Some cost).
  { intros stops c0 Hne Hr Hlen.
    destruct (solve_tsp_route haversine_distance d_zero d_add d_ltb countries_data
                stops home_country c0 Hhome) as (p & c1 & Hrun & Hperm);
      [by destruct Hr as (_ & _ & ?)|by apply Hdefs|].
    rewrite filter_all in Hperm.
    2:{ destruct Hr as (_ & He & _). eapply Forall_impl; [exact He|]. by intros x [? _]. }
    assert (Hrp : routable p) by (by eapply routable_perm).
    destruct (allocate p total_days Hhome) as (days & cost & Hd & _ & _ & _ & Hcost).
    - intros ->. apply Permutation_nil_l in Hperm. by subst.
    - done.
    - rewrite (Permutation_length Hperm). unfold MIN_DAYS_PER_COUNTRY. lia.
    - apply (exact_shares_mono countries_data interests (keys countries_data) p total_days);
        [by apply routable_keys|unfold MIN_DAYS_PER_COUNTRY; lia|exact Hexact].
    - exists p, c1, days, cost. split; [done|]. split; [by apply routable_keys|]. done. }
  destruct selection as [|s0 rest] eqn:Hselection; [by eexists|].
  rewrite <- Hselection in *.
  assert (Hne : selection ≠ []) by (by rewrite Hselection). clear Hselection.
  destruct (Hroutes selection c Hne Hroutable Hcount)
    as (p & c1 & days & cost & Hroute & Hpk & Hdist & Hcost).
  unfold bind at 1. rewrite Hroute.
  unfold bind at 1, lift at 1. rewrite Hdist.
  unfold bind at 1, lift at 1. rewrite Hcost.
  destruct (Qle_bool cost budget) eqn:Hfit; cbn [negb].
  { destruct (respond_runs p days [] cost c1 Hdef Hin Hpk Hcost) as (dist & c2 & Hresp).
    rewrite Hresp. by eexists. }
  destruct (enforce_loop_terminates haversine_distance d_zero d_add d_ltb countries_data
              home_country budget interests (length selection) selection [] c1)
    as ([[final warnings] days'] & c2 & Henf);
    [done|done|by destruct Hroutable as (_ & _ & ?)| |by apply Hdefs|].
  { destruct Hroutable as (_ & He & _). rewrite Forall_forall in He.
    intros Hh. by destruct (He _ Hh) as [? _]. }
  unfold bind at 1, enforce_budget. rewrite Henf.
  apply enforce_loop_outcome in Henf as (ws & Hws & Hsubl & Hcases).
  destruct final as [|f0 frest] eqn:Hfinal; [by eexists|].
  rewrite <- Hfinal in *. assert (Hfin : final ≠ []) by (by rewrite Hfinal). clear Hfinal.
  assert (Hrf : routable final) by (by eapply routable_sublist).
  destruct (Hroutes final c2 Hfin Hrf)
    as (p' & c3 & days2 & cost2 & Hroute2 & Hpk2 & Hdist2 & Hcost2).
  { apply sublist_length in Hsubl. lia. }
  destruct final; [done|].
  unfold bind at 1. rewrite Hroute2.
  unfold bind at 1, lift at 1. rewrite Hdist2.
  destruct (respond_runs p' days2 (map FromEnforcer warnings) cost2 c3 Hdef Hin Hpk2 Hcost2)
    as (dist & c4 & Hresp).
  rewrite Hresp. by eexists.
Qed.

End Pipeline.

(** * Further properties of the engine *)

(** ** The scenario's distance *)

Lemma flat_distance_sym (x y : Q * Q) : Scenario.flat_distance x y = Scenario.flat_distance y x.
Proof.
  destruct x as [[a1 a2] [b1 b2]], y as [[c1 c2] [d1 d2]].
  unfold Scenario.flat_distance, Qminus, Qplus, Qmult, Qopp. simpl.
  apply (f_equal Some). f_equal; [|f_equal; lia]. rewrite !Pos2Z.inj_mul. ring.
Qed.

Lemma Qltb_irrefl (x : Q) : Scenario.Qltb x x = false.
Proof.
  unfold Scenario.Qltb. destruct (Qlt_le_dec x x) as [H|]; [|done].
  by apply Qlt_irrefl in H.
Qed.

Lemma Qltb_trans (x y z : Q) :
  Scenario.Qltb x y = true -> Scenario.Qltb y z = true -> Scenario.Qltb x z = true.
Proof.
  unfold Scenario.Qltb.
  destruct (Qlt_le_dec x y) as [Hxy|]; [|done].
  destruct (Qlt_le_dec y z) as [Hyz|]; [|done].
  destruct (Qlt_le_dec x z) as [|Hzx]; [done|]. intros _ _.
  exfalso. apply (Qlt_irrefl x). eapply Qlt_le_trans; [|exact Hzx]. by eapply Qlt_trans.
Qed.

Lemma world_known (c : string) : c ∈ keys Scenario.world -> known Scenario.world c.
Proof. apply keys_get_Some. Qed.

Lemma world_valid : Forall (valid Scenario.world) (keys Scenario.world).
Proof.
  repeat constructor; (eexists; split; [vm_compute; reflexivity|split; by vm_compute]).
Qed.

(** ** Distances and the cache *)

(** X1: with a symmetric distance function and a cache whose entries are
    the distances of their pairs, [get_distance] answers exactly what the
    distance function gives for the coordinates of the two destinations,
    and raises exactly when that gives nothing: a destination is missing
    from the catalog, or the distance function raises on the coordinates.
    The cache it leaves still has that property and contains the cache it
    started from. *)
Theorem get_distance_cache_transparent {D : Type} (haversine : Q * Q -> Q * Q -> option D)
    (countries_data : dict CountryInfo) (a b : string) (c : gmap (string * string) D)
    (Hsym : ∀ x y, haversine x y = haversine y x)
    (Hsound : cache_sound haversine countries_data c) :
  fst <$> get_distance haversine countries_data a b c
  = distance_of haversine countries_data a b ∧
  ∀ d c', get_distance haversine countries_data a b c = Some (d, c') ->
          cache_sound haversine countries_data c' ∧ c ⊆ c'.
Proof.
  pose proof (get_distance_transparent haversine countries_data Hsym a b c Hsound) as H.
  destruct (get_distance haversine countries_data a b c) as [[d c1]|].
  - destruct H as (-> & ? & ?). split; [done|]. by intros ? ? [= <- <-].
  - by rewrite H.
Qed.

Lemma get_distance_cache_transparent_witness :
  fst <$> get_distance Scenario.flat_distance Scenario.world
            Scenario.cheapest_stop Scenario.dearest_stop ∅
  = distance_of Scenario.flat_distance Scenario.world
      Scenario.cheapest_stop Scenario.dearest_stop ∧
  ∀ d c', get_distance Scenario.flat_distance Scenario.world
            Scenario.cheapest_stop Scenario.dearest_stop ∅ = Some (d, c') ->
          cache_sound Scenario.flat_distance Scenario.world c' ∧ ∅ ⊆ c'.
Proof.
  apply (get_distance_cache_transparent Scenario.flat_distance Scenario.world
           Scenario.cheapest_stop Scenario.dearest_stop ∅).
  - exact flat_distance_sym.
  - apply cache_sound_empty.
Defined.

(** X2: once [get_distance] has answered for a pair, asking again for the
    same pair gives the same distance and leaves the cache as it is; the
    first call changed the cache at most by adding the entry of that
    pair, and only when neither order of the pair was cached. *)
Theorem get_distance_answers_from_cache {D : Type} (haversine : Q * Q -> Q * Q -> option D)
    (countries_data : dict CountryInfo) (a b : string) (c : gmap (string * string) D)
    (d : D) (c' : gmap (string * string) D)
    (Hrun : get_distance haversine countries_data a b c = Some (d, c')) :
  get_distance haversine countries_data a b c' = Some (d, c') ∧
  (c' = c ∨
   (c !! (a, b) = None ∧ c !! (b, a) = None ∧ c' = <[(a, b) := d]> c)).
Proof.
  unfold get_distance in *.
  destruct (c !! (a, b)) as [d0|] eqn:Hab.
  { injection Hrun as <- <-. rewrite Hab. split; [done|by left]. }
  destruct (c !! (b, a)) as [d0|] eqn:Hba.
  { injection Hrun as <- <-. rewrite Hab, Hba. split; [done|by left]. }
  destruct (get countries_data a) as [ia|]; [|done].
  destruct (get countries_data b) as [ib|]; [|done].
  simpl in Hrun. destruct (haversine (coordinates ia) (coordinates ib)); [|done].
  simpl in Hrun. injection Hrun as <- <-.
  rewrite lookup_insert_eq. split; [done|]. by right.
Qed.

Lemma get_distance_answers_from_cache_witness :
  ∃ d c',
    get_distance Scenario.flat_distance Scenario.world
      Scenario.cheapest_stop Scenario.dearest_stop ∅ = Some (d, c') ∧
    get_distance Scenario.flat_distance Scenario.world
      Scenario.cheapest_stop Scenario.dearest_stop c' = Some (d, c') ∧
    (c' = ∅ ∨
     ((∅ : gmap (string * string) Q) !! (Scenario.cheapest_stop, Scenario.dearest_stop) = None ∧
      (∅ : gmap (string * string) Q) !! (Scenario.dearest_stop, Scenario.cheapest_stop) = None ∧
      c' = <[(Scenario.cheapest_stop, Scenario.dearest_stop) := d]> ∅)).
Proof.
  eexists _, _. split; [vm_compute; reflexivity|].
  apply (get_distance_answers_from_cache Scenario.flat_distance Scenario.world
           Scenario.cheapest_stop Scenario.dearest_stop ∅).
  vm_compute. reflexivity.
Defined.

(** X3: [get_distance] raises exactly when the pair is cached in neither
    order and either one of the two destinations is not in the catalog or
    the distance function raises on their coordinates. *)
Theorem get_distance_raises_iff {D : Type} (haversine : Q * Q -> Q * Q -> option D)
    (countries_data : dict CountryInfo) (a b : string) (c : gmap (string * string) D) :
  get_distance haversine countries_data a b c = None
  ↔ c !! (a, b) = None ∧ c !! (b, a) = None ∧
    (¬ known countries_data a ∨ ¬ known countries_data b ∨
     ∃ ia ib, get countries_data a = Some ia ∧ get countries_data b = Some ib ∧
              haversine (coordinates ia) (coordinates ib) = None).
Proof.
  unfold get_distance, known.
  destruct (c !! (a, b)) as [d0|]. { split; [done|]. by intros [? _]. }
  destruct (c !! (b, a)) as [d0|]. { split; [done|]. by intros (_ & ? & _). }
  destruct (get countries_data a) as [ia|]; simpl.
  - destruct (get countries_data b) as [ib|]; simpl.
    + destruct (haversine (coordinates ia) (coordinates ib)) as [d|] eqn:Hd; simpl.
      * split; [done|]. intros (_ & _ & [H|[H|H]]).
        -- exfalso. apply H. by eexists.
        -- exfalso. apply H. by eexists.
        -- destruct H as (ia' & ib' & [= <-] & [= <-] & H). congruence.
      * split; [|done]. intros _. repeat split; try done. right. right.
        by exists ia, ib.
    + split; [|done]. intros _. repeat split; try done. right. left. by intros [? ?].
  - split; [|done]. intros _. repeat split; try done. left. by intros [? ?].
Qed.

(** X4: with a symmetric distance function and such a cache,
    [get_route_total_distance] returns the sum of the distances of the
    route's legs, added in order from zero, whatever the cache holds, and
    raises exactly when that sum is undefined. *)
Theorem get_route_total_distance_is_route_length {D : Type}
    (haversine : Q * Q -> Q * Q -> option D) (d_zero : D) (d_add : D -> D -> D)
    (countries_data : dict CountryInfo) (route : list string)
    (c : gmap (string * string) D)
    (Hsym : ∀ x y, haversine x y = haversine y x)
    (Hsound : cache_sound haversine countries_data c) :
  fst <$> get_route_total_distance haversine d_zero d_add countries_data route c
  = route_length haversine d_add countries_data route d_zero ∧
  ∀ d c', get_route_total_distance haversine d_zero d_add countries_data route c
          = Some (d, c') ->
          cache_sound haversine countries_data c' ∧ c ⊆ c'.
Proof.
  unfold get_route_total_distance, _route_total_distance.
  pose proof (route_distance_loop_transparent haversine d_add countries_data Hsym
                route d_zero c Hsound) as H.
  destruct (route_distance_loop haversine d_add countries_data route d_zero c)
    as [[d c1]|].
  - destruct H as (-> & ? & ?). split; [done|]. by intros ? ? [= <- <-].
  - by rewrite H.
Qed.

Lemma get_route_total_distance_is_route_length_witness :
  fst <$> get_route_total_distance Scenario.flat_distance 0%Q Qplus Scenario.world
            Scenario.route_ABC ∅
  = route_length Scenario.flat_distance Qplus Scenario.world Scenario.route_ABC 0%Q ∧
  ∀ d c', get_route_total_distance Scenario.flat_distance 0%Q Qplus Scenario.world
            Scenario.route_ABC ∅ = Some (d, c') ->
          cache_sound Scenario.flat_distance Scenario.world c' ∧ ∅ ⊆ c'.
Proof.
  apply (get_route_total_distance_is_route_length Scenario.flat_distance 0%Q Qplus
           Scenario.world Scenario.route_ABC ∅).
  - exact flat_distance_sym.
  - apply cache_sound_empty.
Defined.

(** X26: both orders of a pair fare alike, whatever the distance function
    computes.  For a symmetric distance function that may raise and a
    cache that never holds both orders of a pair, [get_distance] asked for
    a pair in either order returns the same distance or raises in both;
    and once it has answered for a pair, the cache still never holds both
    orders of a pair and the reverse order gets the same answer from it. *)
Theorem get_distance_orders_fare_alike {D : Type} (haversine : Q * Q -> Q * Q -> option D)
    (countries_data : dict CountryInfo) (a b : string) (c : gmap (string * string) D)
    (Hsym : ∀ x y, haversine x y = haversine y x)
    (Hcache : one_orientation c) :
  fst <$> get_distance haversine countries_data a b c
  = fst <$> get_distance haversine countries_data b a c ∧
  ∀ d c', get_distance haversine countries_data a b c = Some (d, c') ->
          one_orientation c' ∧
          get_distance haversine countries_data b a c' = Some (d, c').
Proof.
  split.
  - by apply get_distance_symmetric.
  - intros d c' Hrun. split.
    + exact (get_distance_one_orientation haversine countries_data a b c d c' Hcache Hrun).
    + exact (get_distance_then_reverse haversine countries_data a b c d c' Hcache Hrun).
Qed.

Lemma raising_distance_sym (x y : Q * Q) :
  Scenario.raising_distance x y = Scenario.raising_distance y x.
Proof.
  unfold Scenario.raising_distance.
  destruct (Scenario.is_at x (-12) 169), (Scenario.is_at y 12 (-11)),
    (Scenario.is_at x 12 (-11)), (Scenario.is_at y (-12) 169); simpl;
    try done; apply flat_distance_sym.
Qed.

Lemma get_distance_orders_fare_alike_witness :
  get_distance Scenario.raising_distance Scenario.antipodes
    Scenario.home Scenario.cheapest_stop ∅ = None ∧
  fst <$> get_distance Scenario.raising_distance Scenario.antipodes
            Scenario.home Scenario.cheapest_stop ∅
  = fst <$> get_distance Scenario.raising_distance Scenario.antipodes
              Scenario.cheapest_stop Scenario.home ∅.
Proof.
  split; [vm_compute; reflexivity|].
  apply (get_distance_orders_fare_alike Scenario.raising_distance Scenario.antipodes
           Scenario.home Scenario.cheapest_stop ∅).
  - exact raising_distance_sym.
  - apply one_orientation_empty.
Defined.

(** ** Routing *)

Lemma stops_known (countries_data : dict CountryInfo) (home : string)
    (countries : list string) :
  known countries_data home -> Forall (known countries_data) countries ->
  Forall (known countries_data) (home :: countries) ∧
  Forall (fun x => x ∈ home :: countries) countries.
Proof.
  intros Hh Hk. split; [by constructor|].
  apply Forall_forall. intros x Hx. by apply list_elem_of_further.
Qed.

(** X5: nearest neighbour is greedy.  For a symmetric distance function,
    a strict comparison that is irreflexive and transitive, and a cache
    that holds distances: whenever [nearest_neighbor_tsp] returns, the
    route is a round trip through the destinations other than home in
    which no later stop is strictly nearer to a stop than the stop that
    follows it (home counting as the first stop); and it returns when home
    and the destinations are in the catalog and the distance between every
    two of them can be computed. *)
Theorem nearest_neighbor_tsp_greedy {D : Type} (haversine : Q * Q -> Q * Q -> option D)
    (d_ltb : D -> D -> bool) (countries_data : dict CountryInfo)
    (countries : list string) (home : string) (c : gmap (string * string) D)
    (Hsym : ∀ x y, haversine x y = haversine y x)
    (Hirrefl : ∀ x, d_ltb x x = false)
    (Htrans : ∀ x y z, d_ltb x y = true -> d_ltb y z = true -> d_ltb x z = true)
    (Hsound : cache_sound haversine countries_data c) :
  (∀ route c',
     nearest_neighbor_tsp haversine d_ltb countries_data countries home c
     = Some (route, c') ->
     ∃ visited,
       route = home :: visited ++ [home] ∧
       visited ≡ₚ filter (fun x => x ≠ home) countries ∧
       nearest_chain haversine d_ltb countries_data home visited) ∧
  (known countries_data home ->
   Forall (known countries_data) countries ->
   distances_defined haversine countries_data (home :: countries) ->
   is_Some (nearest_neighbor_tsp haversine d_ltb countries_data countries home c)).
Proof.
  split.
  - intros route c' Hrun.
    destruct (nearest_neighbor_tsp_nearest haversine d_ltb countries_data Hsym Hirrefl Htrans
                countries home c _ _ Hsound Hrun) as (_ & v & Heq & Hperm & Hchain).
    by exists v.
  - intros Hhome Hknown Hdef.
    destruct (stops_known countries_data home countries Hhome Hknown) as [Hstops Hin].
    destruct (nearest_neighbor_tsp_route haversine d_ltb countries_data (home :: countries)
                Hstops Hdef countries home c (list_elem_of_here _ _) Hin)
      as (visited & c' & Hrun & _).
    rewrite Hrun. by eexists.
Qed.

Lemma nearest_neighbor_tsp_greedy_witness :
  ∃ route c',
    nearest_neighbor_tsp Scenario.flat_distance Scenario.Qltb Scenario.world
      Scenario.six_stops Scenario.home ∅ = Some (route, c') ∧
    ∃ visited,
      route = Scenario.home :: visited ++ [Scenario.home] ∧
      visited ≡ₚ filter (fun x => x ≠ Scenario.home) Scenario.six_stops ∧
      nearest_chain Scenario.flat_distance Scenario.Qltb Scenario.world Scenario.home
        visited.
Proof.
  destruct (nearest_neighbor_tsp_greedy Scenario.flat_distance Scenario.Qltb Scenario.world
              Scenario.six_stops Scenario.home ∅ flat_distance_sym Qltb_irrefl Qltb_trans
              (cache_sound_empty _ _)) as [Hshape Hruns].
  destruct Hruns as [[route c'] Hrun].
  - by vm_compute; eexists.
  - repeat constructor; by vm_compute; eexists.
  - intros a b ia ib _ _ _ _. by eexists.
  - exists route, c'. split; [exact Hrun|]. exact (Hshape route c' Hrun).
Defined.

(** X6: 2-opt never lengthens a route.  Given a round trip from home
    through some destinations (same assumptions on the distance and the
    cache, the comparison transitive): whenever [two_opt_improve] returns,
    the route is a round trip through the same destinations that is the
    route it was given or a route whose length is strictly smaller; and it
    returns when the stops are in the catalog and the distance between
    every two of them can be computed. *)
Theorem two_opt_improve_never_longer {D : Type} (haversine : Q * Q -> Q * Q -> option D)
    (d_zero : D) (d_add : D -> D -> D) (d_ltb : D -> D -> bool)
    (countries_data : dict CountryInfo) (home : string) (p : list string)
    (c : gmap (string * string) D)
    (Hsym : ∀ x y, haversine x y = haversine y x)
    (Htrans : ∀ x y z, d_ltb x y = true -> d_ltb y z = true -> d_ltb x z = true)
    (Hsound : cache_sound haversine countries_data c) :
  (∀ route c',
     two_opt_improve haversine d_zero d_add d_ltb countries_data (home :: p ++ [home]) c
     = Some (route, c') ->
     ∃ p',
       route = home :: p' ++ [home] ∧
       p' ≡ₚ p ∧
       (p' = p ∨
        ∃ before after,
          route_length haversine d_add countries_data (home :: p ++ [home]) d_zero
          = Some before ∧
          route_length haversine d_add countries_data (home :: p' ++ [home]) d_zero
          = Some after ∧
          d_ltb after before = true)) ∧
  (known countries_data home ->
   Forall (known countries_data) p ->
   distances_defined haversine countries_data (home :: p) ->
   is_Some (two_opt_improve haversine d_zero d_add d_ltb countries_data
              (home :: p ++ [home]) c)).
Proof.
  split.
  - intros route c' Hrun.
    destruct (two_opt_improve_shape haversine d_zero d_add d_ltb countries_data home p
                p c route c' (reflexivity _) Hrun) as (p' & -> & Hperm).
    exists p'. split; [done|]. split; [done|].
    destruct (two_opt_improve_improving haversine d_zero d_add d_ltb countries_data Hsym
                Htrans _ c _ _ Hsound Hrun) as (_ & [Heq|Hshorter]).
    + left. injection Heq as Heq. by apply app_inj_tail in Heq as [-> _].
    + by right.
  - intros Hhome Hknown Hdef.
    destruct (stops_known countries_data home p Hhome Hknown) as [Hstops Hin].
    destruct (two_opt_improve_framed haversine d_zero d_add d_ltb countries_data (home :: p)
                Hstops Hdef home p (list_elem_of_here _ _) Hin p c)
      as (p' & c' & Hrun & _); [done|].
    rewrite Hrun. by eexists.
Qed.

Lemma two_opt_improve_never_longer_witness :
  ∃ route c',
    two_opt_improve Scenario.flat_distance 0%Q Qplus Scenario.Qltb Scenario.world
      (Scenario.home :: Scenario.six_stops ++ [Scenario.home]) ∅ = Some (route, c') ∧
    ∃ p',
      route = Scenario.home :: p' ++ [Scenario.home] ∧
      p' ≡ₚ Scenario.six_stops ∧
      (p' = Scenario.six_stops ∨
       ∃ before after,
         route_length Scenario.flat_distance Qplus Scenario.world
           (Scenario.home :: Scenario.six_stops ++ [Scenario.home]) 0%Q = Some before ∧
         route_length Scenario.flat_distance Qplus Scenario.world
           (Scenario.home :: p' ++ [Scenario.home]) 0%Q = Some after ∧
         Scenario.Qltb after before = true).
Proof.
  destruct (two_opt_improve_never_longer Scenario.flat_distance 0%Q Qplus Scenario.Qltb
              Scenario.world Scenario.home Scenario.six_stops ∅ flat_distance_sym Qltb_trans
              (cache_sound_empty _ _)) as [Hshape Hruns].
  destruct Hruns as [[route c'] Hrun].
  - by vm_compute; eexists.
  - repeat constructor; by vm_compute; eexists.
  - intros a b ia ib _ _ _ _. by eexists.
  - exists route, c'. split; [exact Hrun|]. exact (Hshape route c' Hrun).
Defined.

(** ** Day allocation *)

(** X7: when some destination of the route matches an interest, and the
    shares are in the range where the float quotient is exact (spare days
    times score below [2 ^ 53]), every destination gets its minimum stay
    plus its truncated share of the spare days (the days beyond two per
    stop; no share when there are none), and at most one day more. *)
Theorem distribute_days_share_bounds (countries_data : dict CountryInfo)
    (selected : gset string) (total_days : Z) (route : list string)
    (Hnd : NoDup (Py.interior route))
    (Hknown : Forall (known countries_data) (Py.interior route))
    (Hscore : total_score_of countries_data selected (Py.interior route) ≠ 0)
    (Hexact : exact_shares countries_data selected (Py.interior route)
                (total_days - MIN_DAYS_PER_COUNTRY * Z.of_nat (length (Py.interior route)))) :
  ∃ allocation,
    distribute_days countries_data total_days route selected = Some allocation ∧
    keys allocation = Py.interior route ∧
    ∀ c days, get allocation c = Some days ->
      let spare :=
        total_days - MIN_DAYS_PER_COUNTRY * Z.of_nat (length (Py.interior route)) in
      let share :=
        if 0 <? spare
        then (spare * score_of countries_data selected c)
             ÷ total_score_of countries_data selected (Py.interior route)
        else 0 in
      MIN_DAYS_PER_COUNTRY + share <= days <= MIN_DAYS_PER_COUNTRY + share + 1.
Proof.
  destruct (distribute_days_closed countries_data selected total_days route Hnd Hknown
              Hexact Hscore) as (T & Hrun & _ & _).
  eexists. split; [exact Hrun|]. split; [apply keys_map_pair|].
  intros c days Hget spare share.
  assert (Hc : c ∈ Py.interior route).
  { apply get_Some_keys in Hget. by rewrite keys_map_pair in Hget. }
  rewrite get_map_pair in Hget by done. injection Hget as <-.
  subst spare share. cbv zeta. destruct (decide (c ∈ T)); lia.
Qed.

Lemma distribute_days_share_bounds_witness :
  ∃ allocation,
    distribute_days Scenario.world 12 Scenario.route_ABC Scenario.two_tags
    = Some allocation ∧
    keys allocation = Py.interior Scenario.route_ABC ∧
    ∀ c days, get allocation c = Some days ->
      let spare :=
        12 - MIN_DAYS_PER_COUNTRY * Z.of_nat (length (Py.interior Scenario.route_ABC)) in
      let share :=
        if 0 <? spare
        then (spare * score_of Scenario.world Scenario.two_tags c)
             ÷ total_score_of Scenario.world Scenario.two_tags
                 (Py.interior Scenario.route_ABC)
        else 0 in
      MIN_DAYS_PER_COUNTRY + share <= days <= MIN_DAYS_PER_COUNTRY + share + 1.
Proof.
  apply (distribute_days_share_bounds Scenario.world Scenario.two_tags 12
           Scenario.route_ABC).
  - apply (bool_decide_unpack _). vm_compute. exact I.
  - repeat constructor; by vm_compute; eexists.
  - by vm_compute.
  - apply exact_shares_Forall. repeat constructor; by vm_compute.
Defined.

(** X8: the allocation is monotone in the interest score.  For a route
    whose interior is duplicate-free and known, with shares in the range
    where the float quotient is exact, a destination with a strictly
    higher score than another never gets fewer days. *)
Theorem distribute_days_monotone (countries_data : dict CountryInfo)
    (selected : gset string) (total_days : Z) (route : list string)
    (Hnd : NoDup (Py.interior route))
    (Hknown : Forall (known countries_data) (Py.interior route))
    (Hexact : exact_shares countries_data selected (Py.interior route)
                (total_days - MIN_DAYS_PER_COUNTRY * Z.of_nat (length (Py.interior route)))) :
  ∃ allocation,
    distribute_days countries_data total_days route selected = Some allocation ∧
    ∀ a b days_a days_b,
      get allocation a = Some days_a -> get allocation b = Some days_b ->
      score_of countries_data selected a < score_of countries_data selected b ->
      days_a <= days_b.
Proof.
  destruct (distribute_days_known countries_data selected total_days route Hknown Hexact)
    as [allocation Hrun].
  exists allocation. split; [done|]. intros a b da db Ha Hb Hlt.
  exact (distribute_days_monotone_aux countries_data selected total_days route Hnd Hknown
           Hexact allocation a b da db Hrun Ha Hb Hlt).
Qed.

Lemma distribute_days_monotone_witness :
  ∃ allocation,
    distribute_days Scenario.world 12 Scenario.route_ABC Scenario.four_tags
    = Some allocation ∧
    ∀ a b days_a days_b,
      get allocation a = Some days_a -> get allocation b = Some days_b ->
      score_of Scenario.world Scenario.four_tags a
      < score_of Scenario.world Scenario.four_tags b ->
      days_a <= days_b.
Proof.
  apply (distribute_days_monotone Scenario.world Scenario.four_tags 12 Scenario.route_ABC).
  - apply (bool_decide_unpack _). vm_compute. exact I.
  - repeat constructor; by vm_compute; eexists.
  - apply exact_shares_Forall. repeat constructor; by vm_compute.
Defined.

(** X9: on a route whose interior is duplicate-free, [distribute_days]
    raises exactly when a destination of the interior is missing from the
    catalog, or when days are spare, some interest matches and the float
    quotient of a share is beyond the floats.  Where the shares are in the
    range in which the quotient is exact, it raises exactly when a
    destination is missing. *)
Theorem distribute_days_raises_iff_unknown_or_overflow (countries_data : dict CountryInfo)
    (selected : gset string) (total_days : Z) (route : list string)
    (Hnd : NoDup (Py.interior route)) :
  (distribute_days countries_data total_days route selected = None
   ↔ (∃ c, c ∈ Py.interior route ∧ ¬ known countries_data c) ∨
     (0 < total_score_of countries_data selected (Py.interior route) ∧
      0 < total_days - MIN_DAYS_PER_COUNTRY * Z.of_nat (length (Py.interior route)) ∧
      ∃ c, c ∈ Py.interior route ∧
        Py.truediv
          ((total_days - MIN_DAYS_PER_COUNTRY * Z.of_nat (length (Py.interior route)))
           * score_of countries_data selected c)
          (total_score_of countries_data selected (Py.interior route)) = None)) ∧
  (exact_shares countries_data selected (Py.interior route)
     (total_days - MIN_DAYS_PER_COUNTRY * Z.of_nat (length (Py.interior route))) ->
   distribute_days countries_data total_days route selected = None
   ↔ ∃ c, c ∈ Py.interior route ∧ ¬ known countries_data c).
Proof.
  pose proof (distribute_days_raises_iff countries_data selected total_days route Hnd) as Hiff.
  split; [exact Hiff|]. intros Hexact. split.
  - intros Hnone. apply Hiff in Hnone as [Hunknown|(HT & Hs & c & Hc & Hdiv)]; [done|].
    exfalso.
    destruct (truediv_small
                ((total_days - MIN_DAYS_PER_COUNTRY * Z.of_nat (length (Py.interior route)))
                 * score_of countries_data selected c)
                (total_score_of countries_data selected (Py.interior route)))
      as (q & Hq & _); [|done|congruence].
    split; [|by apply Hexact].
    pose proof (score_of_nonneg countries_data selected c). nia.
  - intros Hunknown. apply Hiff. by left.
Qed.

Lemma distribute_days_raises_iff_unknown_or_overflow_witness :
  distribute_days Scenario.world 12 Scenario.route_ABC Scenario.two_tags = None
  ↔ ∃ c, c ∈ Py.interior Scenario.route_ABC ∧ ¬ known Scenario.world c.
Proof.
  apply (distribute_days_raises_iff_unknown_or_overflow Scenario.world Scenario.two_tags 12
           Scenario.route_ABC).
  - apply (bool_decide_unpack _). vm_compute. exact I.
  - apply exact_shares_Forall. repeat constructor; by vm_compute.
Defined.

(** X10: given exactly two days per destination, [distribute_days] gives
    every destination of a duplicate-free, known interior the minimum
    stay, whether or not any interest matches; this is the allocation the
    budget enforcer prices. *)
Theorem distribute_days_minimum_stays (countries_data : dict CountryInfo)
    (selected : gset string) (route : list string)
    (Hne : Py.interior route ≠ [])
    (Hnd : NoDup (Py.interior route))
    (Hknown : Forall (known countries_data) (Py.interior route)) :
  distribute_days countries_data
    (Z.max (Z.of_nat (length (Py.interior route)) * MIN_DAYS_PER_COUNTRY) 1) route selected
  = Some (map (fun c => (c, MIN_DAYS_PER_COUNTRY)) (Py.interior route)).
Proof. by apply distribute_days_minimum_stays_aux. Qed.

Lemma distribute_days_minimum_stays_witness :
  distribute_days Scenario.world
    (Z.max (Z.of_nat (length (Py.interior Scenario.route_ABC)) * MIN_DAYS_PER_COUNTRY) 1)
    Scenario.route_ABC Scenario.four_tags
  = Some (map (fun c => (c, MIN_DAYS_PER_COUNTRY)) (Py.interior Scenario.route_ABC)).
Proof.
  apply (distribute_days_minimum_stays Scenario.world Scenario.four_tags Scenario.route_ABC).
  - by vm_compute.
  - apply (bool_decide_unpack _). vm_compute. exact I.
  - repeat constructor; by vm_compute; eexists.
Defined.

(** X27: the allocator raises on shares beyond the floats.  With the
    three stops of the scenario in the catalog and [10 ^ 400] days, the
    quotient of the first share is beyond the largest float and
    [distribute_days] raises; with [2 ^ 52] days it returns an allocation
    that spends them all. *)
Theorem distribute_days_overflows :
  Forall (known Scenario.world) (Py.interior Scenario.route_ABC) ∧
  distribute_days Scenario.world (10 ^ 400) Scenario.route_ABC Scenario.two_tags = None ∧
  (Py.sumZ <$> (values <$> distribute_days Scenario.world (2 ^ 52) Scenario.route_ABC
                             Scenario.two_tags))
  = Some (2 ^ 52).
Proof.
  split; [repeat constructor; by vm_compute; eexists|].
  split; vm_compute; reflexivity.
Qed.

(** ** Selection *)

(** X11: the candidates of [select_countries] are exactly the keys of the
    catalog other than home that match at least one interest, in catalog
    order, each with its interest score and its minimum cost; building
    them never raises. *)
Theorem build_candidates_are_eligible (countries_data : dict CountryInfo)
    (selected : gset string) (home_country : string) :
  build_candidates countries_data countries_data selected home_country
  = Some (map (candidate_of countries_data selected)
            (filter (eligible countries_data selected home_country)
               (keys countries_data))).
Proof. by apply build_candidates_eligible. Qed.

(** X12: what the knapsack path selects.  For candidates of non-negative
    cost and a non-negative count limit, [_knapsack_select] returns the
    names of some of the candidates, each at most once and the later
    candidate first; in units of 10 their costs fit the budget, so that
    in money a non-empty selection exceeds the budget by less than 10
    per selected destination. *)
Theorem knapsack_select_fits_in_units (candidates : list candidate) (budget : Q)
    (max_items : Z)
    (Hmax : 0 <= max_items)
    (Hall : Forall (fun c => (0 <= min_cost c)%Q) candidates) :
  ∃ items,
    _knapsack_select candidates budget max_items = Some (map country items) ∧
    items `sublist_of` rev candidates ∧
    Py.sumZ (map cost_units items) <= Z.max 0 (Py.int (budget / granularity)) ∧
    (items = [] ∨
     (total_min_cost items < budget + inject_Z (10 * Z.of_nat (length items)))%Q).
Proof.
  destruct (knapsack_select_items candidates budget max_items Hmax Hall)
    as (items & Hrun & Hsub & _ & Hunits & Hmoney).
  by exists items.
Qed.

Lemma knapsack_select_fits_in_units_witness :
  ∃ items,
    _knapsack_select Scenario.tie_candidates 27 2 = Some (map country items) ∧
    items `sublist_of` rev Scenario.tie_candidates ∧
    Py.sumZ (map cost_units items) <= Z.max 0 (Py.int (27 / granularity)) ∧
    (items = [] ∨
     (total_min_cost items < 27 + inject_Z (10 * Z.of_nat (length items)))%Q).
Proof.
  apply (knapsack_select_fits_in_units Scenario.tie_candidates 27 2).
  - lia.
  - repeat constructor; by vm_compute.
Defined.

(** X13: what [select_countries] returns.  On a catalog with non-negative
    costs and for a non-negative count, it returns, without raising, at
    most [num_countries] destinations, all of them keys of the catalog
    other than home that match at least one interest, and none of them
    twice when the catalog has no duplicate key. *)
Theorem select_countries_selects_eligible (countries_data : dict CountryInfo)
    (float_add : Q -> Q -> Q)
    (selected : gset string) (num_countries : Z) (home_country : string) (budget : Q)
    (Hvalid : Forall (valid countries_data) (keys countries_data))
    (Hnum : 0 <= num_countries) :
  ∃ selection,
    select_countries countries_data float_add selected num_countries home_country budget
    = Some selection ∧
    Z.of_nat (length selection) <= num_countries ∧
    (∀ c, c ∈ selection ->
       c ∈ keys countries_data ∧ c ≠ home_country ∧
       0 < score_of countries_data selected c) ∧
    (NoDup (keys countries_data) -> NoDup selection).
Proof.
  destruct (select_countries_selection countries_data float_add selected home_country
              Hvalid num_countries budget Hnum) as (selection & Hrun & Hsub & Hlen).
  exists selection. split; [done|]. split; [done|]. split.
  - intros c Hc. eapply elem_of_submseteq in Hc; [|exact Hsub].
    apply list_elem_of_filter in Hc as [[? ?] ?]. done.
  - intros Hnd. eapply submseteq_NoDup; [exact Hsub|]. by apply NoDup_filter.
Qed.

Lemma select_countries_selects_eligible_witness :
  ∃ selection,
    select_countries Scenario.world Qplus Scenario.four_tags 2 Scenario.home 3000
    = Some selection ∧
    Z.of_nat (length selection) <= 2 ∧
    (∀ c, c ∈ selection ->
       c ∈ keys Scenario.world ∧ c ≠ Scenario.home ∧
       0 < score_of Scenario.world Scenario.four_tags c) ∧
    (NoDup (keys Scenario.world) -> NoDup selection).
Proof.
  apply (select_countries_selects_eligible Scenario.world Qplus Scenario.four_tags 2
           Scenario.home 3000).
  - exact world_valid.
  - lia.
Defined.

(** X14: what the greedy path selects.  For a non-negative count limit
    and whatever the sums of floats round to, [_greedy_select] returns the
    names of at most [max_items] of the candidates, each at most once and
    in the order of the sort, and the total of a non-empty selection, as
    the loop adds it up, is no more than the budget; where the sums are
    exact, so is its cost. *)
Theorem greedy_select_within_limits (float_add : Q -> Q -> Q)
    (candidates : list candidate) (budget : Q) (max_items : Z)
    (Hmax : 0 <= max_items) :
  ∃ picked,
    _greedy_select float_add candidates budget max_items = map country picked ∧
    picked `sublist_of` Py.sorted greedy_ltb candidates ∧
    picked ⊆+ candidates ∧
    Z.of_nat (length picked) <= max_items ∧
    (picked = [] ∨ (running_total float_add picked <= budget)%Q) ∧
    ((∀ x y, float_add x y == x + y)%Q ->
     picked = [] ∨ (total_min_cost picked <= budget)%Q).
Proof.
  destruct (greedy_select_picks float_add candidates budget max_items)
    as (picked & Hsub & Hperm & Hrun & Hround & Hfit).
  exists picked. split; [done|]. split; [done|]. split.
  { apply sublist_submseteq in Hsub. by rewrite Hperm in Hsub. }
  split; [|done].
  pose proof (greedy_loop_count float_add budget max_items
                (Py.sorted greedy_ltb candidates) [] 0%Q) as Hc.
  fold (_greedy_select float_add candidates budget max_items) in Hc.
  rewrite Hrun, length_map in Hc. simpl in Hc. lia.
Qed.

Lemma greedy_select_within_limits_witness :
  ∃ picked,
    _greedy_select Qplus Scenario.tie_candidates 25 2 = map country picked ∧
    picked `sublist_of` Py.sorted greedy_ltb Scenario.tie_candidates ∧
    picked ⊆+ Scenario.tie_candidates ∧
    Z.of_nat (length picked) <= 2 ∧
    (picked = [] ∨ (running_total Qplus picked <= 25)%Q) ∧
    ((∀ x y, Qplus x y == x + y)%Q ->
     picked = [] ∨ (total_min_cost picked <= 25)%Q).
Proof.
  apply (greedy_select_within_limits Qplus Scenario.tie_candidates 25 2). lia.
Defined.

(** ** Costs and the budget enforcer *)



(** X18: the enforcer's accounts.  Whenever [enforce_budget] returns, it
    returns what is left of the destinations after removals, in their
    original order.  When something is left, every warning reports one
    removal, and the removed destinations together with the kept ones are
    the destinations it was given.  There is no warning exactly when
    nothing was removed.  It returns on destinations of the catalog, other
    than home, between which every distance can be computed. *)
Theorem enforce_budget_accounts_for_removals {D : Type}
    (haversine_distance : Q * Q -> Q * Q -> option D)
    (d_zero : D) (d_add : D -> D -> D) (d_ltb : D -> D -> bool)
    (countries_data : dict CountryInfo) (countries : list string) (home_country : string)
    (budget : Q) (selected : gset string) (c : gmap (string * string) D) :
  (∀ final warnings days c',
     enforce_budget haversine_distance d_zero d_add d_ltb countries_data
       countries home_country budget selected c = Some ((final, warnings, days), c') ->
     final `sublist_of` countries ∧
     (final ≠ [] ->
      removed_countries warnings ++ final ≡ₚ countries ∧
      length (removed_countries warnings) = length warnings) ∧
     (warnings = [] ↔ final = countries)) ∧
  (known countries_data home_country ->
   Forall (known countries_data) countries ->
   home_country ∉ countries ->
   distances_defined haversine_distance countries_data (home_country :: countries) ->
   is_Some (enforce_budget haversine_distance d_zero d_add d_ltb countries_data
              countries home_country budget selected c)).
Proof.
  split.
  - intros final warnings days c' Hrun. unfold enforce_budget in Hrun.
    apply enforce_loop_outcome in Hrun as (ws & Hws & Hsub & Hcases).
    simpl in Hws. subst warnings. split; [done|].
    destruct Hcases as [(-> & -> & -> & _)|[Hkept|Hnone]].
    + split; [done|]. done.
    + destruct Hkept as (Hfin & Hacc & Hcnt & _). split; [done|]. split.
      * intros ->. simpl in Hacc. apply sublist_full; [done|].
        by rewrite (Permutation_length Hacc).
      * intros ->. apply Permutation_length in Hacc. rewrite length_app in Hacc.
        destruct ws; [done|]. simpl in *. lia.
    + destruct Hnone as (-> & _ & ws0 & last & c0 & r0 & d0 & cost0 & -> & _ & Hacc & _).
      split; [done|]. split.
      * intros Hnil. by apply app_nil in Hnil as [_ ?].
      * intros <-. apply Permutation_length in Hacc. rewrite length_app in Hacc.
        simpl in Hacc. lia.
  - intros Hhome Hknown Hnh Hdef.
    destruct (enforce_loop_terminates haversine_distance d_zero d_add d_ltb countries_data
                home_country budget selected (length countries) countries [] c)
      as (result & c' & Hrun); [done..|].
    unfold enforce_budget. rewrite Hrun. by eexists.
Qed.

Lemma enforce_budget_accounts_for_removals_witness :
  ∃ final warnings days c',
    enforce_budget Scenario.flat_distance 0%Q Qplus Scenario.Qltb Scenario.world
      Scenario.three_stops Scenario.home 1700 Scenario.four_tags ∅
    = Some ((final, warnings, days), c') ∧
    final `sublist_of` Scenario.three_stops ∧
    (final ≠ [] ->
     removed_countries warnings ++ final ≡ₚ Scenario.three_stops ∧
     length (removed_countries warnings) = length warnings) ∧
    (warnings = [] ↔ final = Scenario.three_stops).
Proof.
  destruct (enforce_budget_accounts_for_removals Scenario.flat_distance 0%Q Qplus
              Scenario.Qltb Scenario.world Scenario.three_stops Scenario.home 1700
              Scenario.four_tags ∅) as [Hresult Hruns].
  destruct Hruns as [[[[final warnings] days] c'] Hrun].
  - by vm_compute; eexists.
  - repeat constructor; by vm_compute; eexists.
  - apply (bool_decide_unpack _). vm_compute. exact I.
  - intros a b ia ib _ _ _ _. by eexists.
  - exists final, warnings, days, c'. split; [exact Hrun|].
    exact (Hresult final warnings days c' Hrun).
Defined.

(** X19: what the enforcer keeps fits the budget at the minimum stay.
    For distinct destinations of the catalog other than home, whenever
    [enforce_budget] returns and keeps some destinations, it returns the
    allocation of two days to each of them, and a round trip through them
    costs no more than the budget under that allocation.  It returns when
    home is in the catalog too and the distance between every two of the
    stops can be computed. *)
Theorem enforce_budget_keeps_within_budget {D : Type}
    (haversine_distance : Q * Q -> Q * Q -> option D)
    (d_zero : D) (d_add : D -> D -> D) (d_ltb : D -> D -> bool)
    (countries_data : dict CountryInfo) (countries : list string) (home_country : string)
    (budget : Q) (selected : gset string) (c : gmap (string * string) D)
    (Hknown : Forall (known countries_data) countries)
    (Hnd : NoDup countries)
    (Hnh : home_country ∉ countries) :
  (∀ final warnings days c',
     enforce_budget haversine_distance d_zero d_add d_ltb countries_data
       countries home_country budget selected c = Some ((final, warnings, days), c') ->
     final ≠ [] ->
     ∃ visited cost,
       visited ≡ₚ final ∧
       days = map (fun x => (x, MIN_DAYS_PER_COUNTRY)) visited ∧
       calculate_total_cost countries_data (home_country :: visited ++ [home_country]) days
       = Some cost ∧
       (cost <= budget)%Q) ∧
  (known countries_data home_country ->
   distances_defined haversine_distance countries_data (home_country :: countries) ->
   is_Some (enforce_budget haversine_distance d_zero d_add d_ltb countries_data
              countries home_country budget selected c)).
Proof.
  split.
  - intros final warnings days c' Hrun Hfin. unfold enforce_budget in Hrun.
    apply enforce_loop_outcome in Hrun as (ws & _ & Hsub & Hcases).
    destruct Hcases as [(_ & -> & _)|[Hkept|(-> & _)]]; [done| |done].
    destruct Hkept as (_ & _ & _ & c0 & route & cost & Hroute & Hdays & Hcost & Hfit).
    assert (Hkf : Forall (known countries_data) final) by (by eapply sublist_Forall).
    apply solve_tsp_shape in Hroute as (visited & -> & Hperm).
    rewrite filter_all in Hperm.
    2:{ apply Forall_forall. intros x Hx ->. apply Hnh. by eapply elem_of_sublist. }
    exists visited, cost. split; [done|].
    assert (Hint : Py.interior (home_country :: visited ++ [home_country]) = visited)
      by apply interior_framed.
    rewrite <- (Permutation_length Hperm) in Hdays.
    rewrite <- Hint in Hdays at 1.
    rewrite distribute_days_minimum_stays_aux in Hdays.
    + rewrite Hint in Hdays. injection Hdays as <-. done.
    + rewrite Hint. intros ->. apply Permutation_nil_l in Hperm. by subst.
    + rewrite Hint, Hperm. by eapply sublist_NoDup.
    + rewrite Hint. by rewrite Hperm.
  - intros Hhome Hdef.
    destruct (enforce_loop_terminates haversine_distance d_zero d_add d_ltb countries_data
                home_country budget selected (length countries) countries [] c)
      as (result & c' & Hrun); [done..|].
    unfold enforce_budget. rewrite Hrun. by eexists.
Qed.

Lemma enforce_budget_keeps_within_budget_witness :
  ∃ final warnings days c',
    enforce_budget Scenario.flat_distance 0%Q Qplus Scenario.Qltb Scenario.world
      Scenario.three_stops Scenario.home 1700 Scenario.four_tags ∅
    = Some ((final, warnings, days), c') ∧
    (final ≠ [] ->
     ∃ visited cost,
       visited ≡ₚ final ∧
       days = map (fun x => (x, MIN_DAYS_PER_COUNTRY)) visited ∧
       calculate_total_cost Scenario.world (Scenario.home :: visited ++ [Scenario.home]) days
       = Some cost ∧
       (cost <= 1700)%Q).
Proof.
  destruct (enforce_budget_keeps_within_budget Scenario.flat_distance 0%Q Qplus
              Scenario.Qltb Scenario.world Scenario.three_stops Scenario.home 1700
              Scenario.four_tags ∅) as [Hresult Hruns].
  - repeat constructor; by vm_compute; eexists.
  - apply (bool_decide_unpack _). vm_compute. exact I.
  - apply (bool_decide_unpack _). vm_compute. exact I.
  - destruct Hruns as [[[[final warnings] days] c'] Hrun].
    + by vm_compute; eexists.
    + intros a b ia ib _ _ _ _. by eexists.
    + exists final, warnings, days, c'. split; [exact Hrun|].
      exact (Hresult final warnings days c' Hrun).
Defined.



(** ** The planning steps of [generate_itinerary] *)

Lemma world_keys_distinct : NoDup (keys Scenario.world).
Proof. apply (bool_decide_unpack _). vm_compute. exact I. Qed.

Lemma world_shares_exact (total_days : Z) :
  total_days * 4 < 2 ^ 53 ->
  exact_shares Scenario.world Scenario.four_tags (keys Scenario.world) total_days.
Proof.
  intros Hsmall. apply exact_shares_Forall.
  assert (H : Forall (fun c => 0 <= score_of Scenario.world Scenario.four_tags c <= 4)
                (keys Scenario.world)) by (repeat constructor; by vm_compute).
  eapply Forall_impl; [exact H|]. intros c Hc. cbv beta in Hc. nia.
Qed.

Lemma flat_distance_defined (data : dict CountryInfo) (stops : list string) :
  distances_defined Scenario.flat_distance data stops.
Proof. intros a b ia ib _ _ _ _. by eexists. Qed.

(** X21: the planning steps reject exactly the bad requests.  On a
    catalog with distinct keys and non-negative costs and for a
    non-negative count: whenever the steps come to an outcome, the request
    is rejected exactly when home is not a key of the catalog or there are
    fewer than two days per requested destination; and selection, routing,
    allocation, enforcement and the final cost and distance raise nothing
    when every distance of the catalog can be computed and the shares of
    days are in the range where the float quotient is exact. *)
Theorem generate_itinerary_rejects_bad_requests {D : Type}
    (haversine_distance : Q * Q -> Q * Q -> option D)
    (d_zero : D) (d_add : D -> D -> D) (d_ltb : D -> D -> bool)
    (countries_data : dict CountryInfo) (float_add : Q -> Q -> Q)
    (home_country : string) (num_countries : Z)
    (interests : gset string) (budget : Q) (total_days : Z)
    (c : gmap (string * string) D)
    (Hkeys : NoDup (keys countries_data))
    (Hvalid : Forall (valid countries_data) (keys countries_data))
    (Hnum : 0 <= num_countries) :
  (∀ r c',
     Itinerary.generate_itinerary haversine_distance d_zero d_add d_ltb countries_data
       float_add home_country num_countries interests budget total_days c = Some (r, c') ->
     (r = Itinerary.BadRequest
      ↔ home_country ∉ keys countries_data ∨ total_days < num_countries * 2)) ∧
  (exact_shares countries_data interests (keys countries_data) total_days ->
   distances_defined haversine_distance countries_data (keys countries_data) ->
   is_Some
     (Itinerary.generate_itinerary haversine_distance d_zero d_add d_ltb countries_data
        float_add home_country num_countries interests budget total_days c)).
Proof.
  split.
  - intros r c' Hrun.
    pose proof (generate_itinerary_result haversine_distance d_zero d_add d_ltb
                  countries_data float_add home_country interests Hkeys Hvalid
                  num_countries budget total_days c r c' Hnum Hrun) as Hr.
    destruct r as [|ws|route days ws cost dist].
    + done.
    + destruct Hr as (Hin & Hdays & _). split; [done|]. intros [?|?]; [done|lia].
    + destruct Hr as (Hin & Hdays & _). split; [done|]. intros [?|?]; [done|lia].
  - intros Hexact Hdef. by apply generate_itinerary_runs.
Qed.

Lemma generate_itinerary_rejects_bad_requests_witness :
  ∃ r c',
    Itinerary.generate_itinerary Scenario.flat_distance 0%Q Qplus Scenario.Qltb
      Scenario.world Qplus Scenario.home 3 Scenario.four_tags 5000 5 ∅ = Some (r, c') ∧
    (r = Itinerary.BadRequest
     ↔ Scenario.home ∉ keys Scenario.world ∨ 5 < 3 * 2).
Proof.
  destruct (generate_itinerary_rejects_bad_requests Scenario.flat_distance 0%Q Qplus
              Scenario.Qltb Scenario.world Qplus Scenario.home 3 Scenario.four_tags 5000 5 ∅
              world_keys_distinct world_valid) as [Hresult Hruns]; [lia|].
  destruct Hruns as [[r c'] Hrun].
  - apply world_shares_exact. by vm_compute.
  - apply flat_distance_defined.
  - exists r, c'. split; [exact Hrun|]. exact (Hresult r c' Hrun).
Defined.

(** X22: a plan is well formed.  Under the same assumptions on the
    catalog, with shares of days in the range where the float quotient is
    exact: whenever the planning steps produce a plan, its route is a
    round trip from home through at least one and at most [num_countries]
    distinct keys of the catalog other than home that each match an
    interest; its allocation covers exactly those stops in route order,
    gives each at least two days and spends exactly [total_days]; and its
    cost is the cost of that route under that allocation.  The steps come
    to an outcome when every distance of the catalog can be computed. *)
Theorem generate_itinerary_plan_is_well_formed {D : Type}
    (haversine_distance : Q * Q -> Q * Q -> option D)
    (d_zero : D) (d_add : D -> D -> D) (d_ltb : D -> D -> bool)
    (countries_data : dict CountryInfo) (float_add : Q -> Q -> Q)
    (home_country : string) (num_countries : Z)
    (interests : gset string) (budget : Q) (total_days : Z)
    (c : gmap (string * string) D)
    (Hkeys : NoDup (keys countries_data))
    (Hvalid : Forall (valid countries_data) (keys countries_data))
    (Hnum : 0 <= num_countries)
    (Hexact : exact_shares countries_data interests (keys countries_data) total_days) :
  (∀ route days warnings cost distance c',
     Itinerary.generate_itinerary haversine_distance d_zero d_add d_ltb countries_data
       float_add home_country num_countries interests budget total_days c
     = Some (Itinerary.Planned route days warnings cost distance, c') ->
     ∃ stops,
       route = home_country :: stops ++ [home_country] ∧
       stops ≠ [] ∧ NoDup stops ∧
       Z.of_nat (length stops) <= num_countries ∧
       (∀ x, x ∈ stops ->
          x ∈ keys countries_data ∧ x ≠ home_country ∧
          0 < score_of countries_data interests x) ∧
       keys days = stops ∧
       Forall (fun v => MIN_DAYS_PER_COUNTRY <= v) (values days) ∧
       Py.sumZ (values days) = total_days ∧
       calculate_total_cost countries_data route days = Some cost) ∧
  (distances_defined haversine_distance countries_data (keys countries_data) ->
   is_Some
     (Itinerary.generate_itinerary haversine_distance d_zero d_add d_ltb countries_data
        float_add home_country num_countries interests budget total_days c)).
Proof.
  split.
  - intros route days warnings cost distance c' Hrun.
    pose proof (generate_itinerary_result haversine_distance d_zero d_add d_ltb
                  countries_data float_add home_country interests Hkeys Hvalid
                  num_countries budget total_days c _ c' Hnum Hrun) as Hr.
    destruct Hr as (Hin & Hdays & p & -> & Hne & Hrp & Hlen & Hdist & Hcost & _).
    destruct (plan_allocation countries_data home_country interests p total_days
                num_countries days Hnum Hexact Hin Hdays Hne Hrp Hlen Hdist)
      as (Hkd & Hmin & Hsum).
    destruct Hrp as (Hnd & He & Hk).
    exists p. repeat split; try done.
    + rewrite Forall_forall in Hk. destruct (Hk x) as [d Hd]; [done|].
      by eapply get_Some_keys.
    + rewrite Forall_forall in He. by destruct (He x).
    + rewrite Forall_forall in He. by destruct (He x).
  - intros Hdef. by apply generate_itinerary_runs.
Qed.

Lemma generate_itinerary_plan_is_well_formed_witness :
  ∃ route days warnings cost distance c',
    Itinerary.generate_itinerary Scenario.flat_distance 0%Q Qplus Scenario.Qltb
      Scenario.world Qplus Scenario.home 3 Scenario.four_tags 5000 12 ∅
    = Some (Itinerary.Planned route days warnings cost distance, c') ∧
    ∃ stops,
      route = Scenario.home :: stops ++ [Scenario.home] ∧
      stops ≠ [] ∧ NoDup stops ∧
      Z.of_nat (length stops) <= 3 ∧
      (∀ x, x ∈ stops ->
         x ∈ keys Scenario.world ∧ x ≠ Scenario.home ∧
         0 < score_of Scenario.world Scenario.four_tags x) ∧
      keys days = stops ∧
      Forall (fun v => MIN_DAYS_PER_COUNTRY <= v) (values days) ∧
      Py.sumZ (values days) = 12 ∧
      calculate_total_cost Scenario.world route days = Some cost.
Proof.
  eexists _, _, _, _, _, _. split; [vm_compute; reflexivity|].
  refine (proj1 (generate_itinerary_plan_is_well_formed Scenario.flat_distance 0%Q Qplus
                   Scenario.Qltb Scenario.world Qplus Scenario.home 3 Scenario.four_tags
                   5000 12 ∅ world_keys_distinct world_valid _ _) _ _ _ _ _ _ _).
  - lia.
  - apply world_shares_exact. by vm_compute.
  - vm_compute. reflexivity.
Defined.

(** X23: the warnings of an outcome.  Under the same assumptions on the
    catalog, whenever the planning steps come to an outcome: one without a
    route carries either the one warning that the budget is too low for
    any matching destination, or the enforcer's warnings ending with the
    one that states an amount above the budget; the warnings of a plan are
    the enforcer's, and each of them reports a removal.  The steps come to
    an outcome when every distance of the catalog can be computed and the
    shares of days are in the range where the float quotient is exact. *)
Theorem generate_itinerary_outcome_is_explained {D : Type}
    (haversine_distance : Q * Q -> Q * Q -> option D)
    (d_zero : D) (d_add : D -> D -> D) (d_ltb : D -> D -> bool)
    (countries_data : dict CountryInfo) (float_add : Q -> Q -> Q)
    (home_country : string) (num_countries : Z)
    (interests : gset string) (budget : Q) (total_days : Z)
    (c : gmap (string * string) D)
    (Hkeys : NoDup (keys countries_data))
    (Hvalid : Forall (valid countries_data) (keys countries_data))
    (Hnum : 0 <= num_countries) :
  (∀ r c',
     Itinerary.generate_itinerary haversine_distance d_zero d_add d_ltb countries_data
       float_add home_country num_countries interests budget total_days c = Some (r, c') ->
     (∀ warnings, r = Itinerary.NoRoute warnings ->
        warnings = [Itinerary.BudgetTooLow] ∨
        ∃ earlier needed,
          warnings = map Itinerary.FromEnforcer (earlier ++ [Insufficient budget needed]) ∧
          (budget < needed)%Q) ∧
     (∀ route days warnings cost distance,
        r = Itinerary.Planned route days warnings cost distance ->
        ∃ removals,
          warnings = map Itinerary.FromEnforcer removals ∧
          length (removed_countries removals) = length removals)) ∧
  (exact_shares countries_data interests (keys countries_data) total_days ->
   distances_defined haversine_distance countries_data (keys countries_data) ->
   is_Some
     (Itinerary.generate_itinerary haversine_distance d_zero d_add d_ltb countries_data
        float_add home_country num_countries interests budget total_days c)).
Proof.
  split.
  - intros r c' Hrun.
    pose proof (generate_itinerary_result haversine_distance d_zero d_add d_ltb
                  countries_data float_add home_country interests Hkeys Hvalid
                  num_countries budget total_days c r c' Hnum Hrun) as Hr.
    split.
    + intros warnings ->. by destruct Hr as (_ & _ & ?).
    + intros route days warnings cost distance ->.
      by destruct Hr as (_ & _ & p & _ & _ & _ & _ & _ & _ & ?).
  - intros Hexact Hdef. by apply generate_itinerary_runs.
Qed.

Lemma generate_itinerary_outcome_is_explained_witness :
  ∃ r c',
    Itinerary.generate_itinerary Scenario.flat_distance 0%Q Qplus Scenario.Qltb
      Scenario.world Qplus Scenario.home 3 Scenario.four_tags 1900 12 ∅ = Some (r, c') ∧
    (∀ warnings, r = Itinerary.NoRoute warnings ->
       warnings = [Itinerary.BudgetTooLow] ∨
       ∃ earlier needed,
         warnings = map Itinerary.FromEnforcer (earlier ++ [Insufficient 1900 needed]) ∧
         (1900 < needed)%Q) ∧
    (∀ route days warnings cost distance,
       r = Itinerary.Planned route days warnings cost distance ->
       ∃ removals,
         warnings = map Itinerary.FromEnforcer removals ∧
         length (removed_countries removals) = length removals).
Proof.
  destruct (generate_itinerary_outcome_is_explained Scenario.flat_distance 0%Q Qplus
              Scenario.Qltb Scenario.world Qplus Scenario.home 3 Scenario.four_tags 1900 12 ∅
              world_keys_distinct world_valid) as [Hresult Hruns]; [lia|].
  destruct Hruns as [[r c'] Hrun].
  - apply world_shares_exact. by vm_compute.
  - apply flat_distance_defined.
  - exists r, c'. split; [exact Hrun|]. exact (Hresult r c' Hrun).
Defined.

(** ** Routing, end to end *)

(** X24: [solve_tsp] returns the nearest-neighbour tour or a strictly
    shorter one.  For a symmetric distance function, a comparison that is
    irreflexive and transitive, and a cache that holds distances: whenever
    [solve_tsp] returns, its route is a round trip through the same stops
    as the greedy tour of [nearest_neighbor_tsp], and it is that tour or a
    tour of strictly smaller length; and it returns when home and the
    destinations are in the catalog and the distance between every two of
    them can be computed. *)
Theorem solve_tsp_no_longer_than_greedy {D : Type} (haversine : Q * Q -> Q * Q -> option D)
    (d_zero : D) (d_add : D -> D -> D) (d_ltb : D -> D -> bool)
    (countries_data : dict CountryInfo) (countries : list string) (home : string)
    (c : gmap (string * string) D)
    (Hsym : ∀ x y, haversine x y = haversine y x)
    (Hirrefl : ∀ x, d_ltb x x = false)
    (Htrans : ∀ x y z, d_ltb x y = true -> d_ltb y z = true -> d_ltb x z = true)
    (Hsound : cache_sound haversine countries_data c) :
  (∀ route c',
     solve_tsp haversine d_zero d_add d_ltb countries_data countries home c
     = Some (route, c') ->
     ∃ greedy c1 visited,
       nearest_neighbor_tsp haversine d_ltb countries_data countries home c
       = Some (home :: greedy ++ [home], c1) ∧
       nearest_chain haversine d_ltb countries_data home greedy ∧
       route = home :: visited ++ [home] ∧
       visited ≡ₚ greedy ∧
       cache_sound haversine countries_data c' ∧
       (visited = greedy ∨
        ∃ before after,
          route_length haversine d_add countries_data (home :: greedy ++ [home]) d_zero
          = Some before ∧
          route_length haversine d_add countries_data (home :: visited ++ [home]) d_zero
          = Some after ∧
          d_ltb after before = true)) ∧
  (known countries_data home ->
   Forall (known countries_data) countries ->
   distances_defined haversine countries_data (home :: countries) ->
   is_Some (solve_tsp haversine d_zero d_add d_ltb countries_data countries home c)).
Proof.
  split.
  - intros route c' Hrun. unfold solve_tsp in Hrun.
    apply bind_Some in Hrun as (initial & c1 & Hnn & Hopt).
    destruct (nearest_neighbor_tsp_nearest haversine d_ltb countries_data Hsym Hirrefl Htrans
                countries home c _ _ Hsound Hnn) as (Hc1 & greedy & -> & _ & Hchain).
    destruct (two_opt_improve_shape haversine d_zero d_add d_ltb countries_data home greedy
                greedy c1 route c' (reflexivity _) Hopt) as (visited & -> & Hperm).
    destruct (two_opt_improve_improving haversine d_zero d_add d_ltb countries_data Hsym
                Htrans _ c1 _ _ Hc1 Hopt) as (Hc' & Hres).
    exists greedy, c1, visited. split; [done|]. split; [done|]. split; [done|].
    split; [done|]. split; [done|].
    destruct Hres as [Heq|Hshorter]; [left|by right].
    injection Heq as Heq. by apply app_inj_tail in Heq as [-> _].
  - intros Hhome Hknown Hdef.
    destruct (solve_tsp_route haversine d_zero d_add d_ltb countries_data countries home c
                Hhome Hknown Hdef) as (visited & c' & Hrun & _).
    rewrite Hrun. by eexists.
Qed.

Lemma solve_tsp_no_longer_than_greedy_witness :
  ∃ route c',
    solve_tsp Scenario.flat_distance 0%Q Qplus Scenario.Qltb Scenario.world
      Scenario.six_stops Scenario.home ∅ = Some (route, c') ∧
    ∃ greedy c1 visited,
      nearest_neighbor_tsp Scenario.flat_distance Scenario.Qltb Scenario.world
        Scenario.six_stops Scenario.home ∅
      = Some (Scenario.home :: greedy ++ [Scenario.home], c1) ∧
      nearest_chain Scenario.flat_distance Scenario.Qltb Scenario.world Scenario.home
        greedy ∧
      route = Scenario.home :: visited ++ [Scenario.home] ∧
      visited ≡ₚ greedy ∧
      cache_sound Scenario.flat_distance Scenario.world c' ∧
      (visited = greedy ∨
       ∃ before after,
         route_length Scenario.flat_distance Qplus Scenario.world
           (Scenario.home :: greedy ++ [Scenario.home]) 0%Q = Some before ∧
         route_length Scenario.flat_distance Qplus Scenario.world
           (Scenario.home :: visited ++ [Scenario.home]) 0%Q = Some after ∧
         Scenario.Qltb after before = true).
Proof.
  destruct (solve_tsp_no_longer_than_greedy Scenario.flat_distance 0%Q Qplus Scenario.Qltb
              Scenario.world Scenario.six_stops Scenario.home ∅ flat_distance_sym
              Qltb_irrefl Qltb_trans (cache_sound_empty _ _)) as [Hshape Hruns].
  destruct Hruns as [[route c'] Hrun].
  - by vm_compute; eexists.
  - repeat constructor; by vm_compute; eexists.
  - intros a b ia ib _ _ _ _. by eexists.
  - exists route, c'. split; [exact Hrun|]. exact (Hshape route c' Hrun).
Defined.

(** ** Selection: when nothing is selected *)

Lemma travel_costs_of_keys (countries_data : dict CountryInfo) :
  NoDup (keys countries_data) ->
  mapM (fun c => data ← get countries_data c; Some (avg_travel_cost data))
    (keys countries_data)
  = Some (map avg_travel_cost (values countries_data)).
Proof.
  intros Hnd.
  assert (H : ∀ items : dict CountryInfo,
            NoDup (keys items) ->
            (∀ k v, (k, v) ∈ items -> get countries_data k = Some v) ->
            mapM (fun c => data ← get countries_data c; Some (avg_travel_cost data))
              (keys items)
            = Some (map avg_travel_cost (values items))).
  { induction items as [|[k v] items IH]; intros Hnd' Hget; [done|].
    apply NoDup_cons in Hnd' as [Hk Hnd'].
    apply mapM_Some_2. simpl. constructor.
    - rewrite (Hget k v) by apply list_elem_of_here. done.
    - apply mapM_Some_1, IH; [done|]. intros k' v' Hin. apply Hget.
      by apply list_elem_of_further. }
  apply H; [done|].
  clear H. induction countries_data as [|[k v] d IH]; intros k' v' Hin.
  - by apply not_elem_of_nil in Hin.
  - apply NoDup_cons in Hnd as [Hk Hnd]. simpl.
    apply elem_of_cons in Hin as [[= -> ->]|Hin]; [by rewrite decide_True|].
    rewrite decide_False; [by apply IH|]. intros ->. apply Hk.
    unfold keys. apply list_elem_of_fmap. by exists (k, v').
Qed.

Lemma filter_none {A} (P : A -> Prop) `{∀ x, Decision (P x)} (l : list A) :
  (∀ x, x ∈ l -> ¬ P x) -> filter P l = [].
Proof.
  induction l as [|x l IH]; intros Hl; [done|].
  rewrite filter_cons_False by apply Hl, list_elem_of_here.
  apply IH. intros y Hy. apply Hl. by apply list_elem_of_further.
Qed.

(** X25: when nothing is selected.  On a catalog with distinct keys,
    [select_countries] returns the empty selection, whatever the count,
    when no destination other than home matches an interest, and when
    nine tenths of the budget do not exceed the largest travel cost of
    the catalog. *)
Theorem select_countries_selects_nothing (countries_data : dict CountryInfo)
    (float_add : Q -> Q -> Q)
    (selected : gset string) (num_countries : Z) (home_country : string) (budget : Q)
    (Hkeys : NoDup (keys countries_data)) :
  ((∀ c, c ∈ keys countries_data -> c ≠ home_country ->
      score_of countries_data selected c = 0) ->
   select_countries countries_data float_add selected num_countries home_country budget
   = Some []) ∧
  (∀ max_return_cost,
     Py.max_Q (map avg_travel_cost (values countries_data)) = Some max_return_cost ->
     (budget * BUDGET_SAFETY_MARGIN <= max_return_cost)%Q ->
     select_countries countries_data float_add selected num_countries home_country budget
   = Some []).
Proof.
  split.
  - intros Hnone. unfold select_countries.
    rewrite build_candidates_eligible by done.
    rewrite filter_none; [done|].
    intros c Hc [Hne Hpos]. specialize (Hnone c Hc Hne). lia.
  - intros m Hm Hle. unfold select_countries.
    rewrite build_candidates_eligible by done. simpl.
    destruct (map _ (filter _ _)); [done|].
    rewrite travel_costs_of_keys by done. simpl. rewrite Hm. simpl.
    replace (Qle_bool (budget * BUDGET_SAFETY_MARGIN - m) 0) with true; [done|].
    symmetry. apply Qle_bool_iff. apply (Qplus_le_l _ _ m).
    eapply Qle_trans; [|eapply Qle_trans; [exact Hle|]].
    + apply Qle_lteq. right. ring.
    + apply Qle_lteq. right. ring.
Qed.

Lemma select_countries_selects_nothing_witness :
  select_countries Scenario.world Qplus Scenario.four_tags 3 Scenario.home 100 = Some [].
Proof.
  apply (proj2 (select_countries_selects_nothing Scenario.world Qplus Scenario.four_tags 3
                  Scenario.home 100 world_keys_distinct) 600%Q).
  - vm_compute. reflexivity.
  - by vm_compute.
Defined.
